(** * nyc-money-go: the tax, allocation, donut-layout and drill-down logic of
    [src/app/page.tsx], embedded in Rocq.

    The file holds two revisions of the page.  The embedding follows the first
    one (the rings with label rails and the breadcrumb); [clamp0], the rate
    schedule, [computeNYCIncomeTax] and [normalizeWeights] read the same in
    both.  What the second revision changes (its dataset, the agency split,
    [Donut], the legends and the page state) is embedded in the module [Rev2].

    JavaScript numbers are read as real numbers ([R]): rounding and overflow of
    IEEE doubles are outside the model, so an equality proved here is the exact
    identity that the running code meets up to floating-point tolerance.
    [Math.max] is [Rmax], [Math.cos]/[Math.sin]/[Math.PI] are [cos]/[sin]/[PI],
    and a comparison [a <= b] in the source is the decision [Rle_dec a b].
    Where the sign of a computed cosine decides (the side of a label), the
    module [Js] leaves [Math.cos] and [Math.sin] open instead. *)

From Stdlib Require Import Reals Lra Lia Ascii String.
From Stdlib Require Import Decimal DecimalString DecimalNat.
From stdpp Require Import base option list strings gmap sorting.

Open Scope R_scope.

(** ** Numbers *)

#[global] Instance Rle_decision (x y : R) : Decision (x <= y) := Rle_dec x y.
#[global] Instance Rlt_decision (x y : R) : Decision (x < y) := Rlt_dec x y.
#[global] Instance Req_decision : EqDecision R := Req_dec_T.

(** A number used as a condition ([sum ? a : b]) is true when it is not zero. *)
Definition truthy (x : R) : bool := bool_decide (x <> 0).

(** The quotient [a / b] when it is a finite number; [None] stands for the
    results [Infinity] and [NaN] that a division by zero gives in JavaScript. *)
Definition finite_div (a b : R) : option R :=
  if decide (b = 0) then None else Some (a / b).

(** ** TaxEngine *)

Inductive FilingStatus : Set :=
  | single
  | married_joint
  | married_separate
  | head_household.

Definition DEFAULTS_filingStatus : FilingStatus := single.
Definition DEFAULTS_nyStandardDeduction : R := 8000.

Definition clamp0 (n : R) : R := Rmax 0 n.

(** The filing status is accepted and ignored: every status is taxed as single. *)
Definition computeNYCResidentTaxRateSchedule
    (nycTaxableIncome : R) (filingStatus : FilingStatus) : R :=
  let x := nycTaxableIncome in
  if Rle_dec x 12000 then 0.03078 * x
  else if Rle_dec x 25000 then 369 + 0.03762 * (x - 12000)
  else if Rle_dec x 50000 then 858 + 0.03819 * (x - 25000)
  else 1813 + 0.03876 * (x - 50000).

Record TaxParams : Type := mkTaxParams {
  income : R;
  filingStatus : FilingStatus;
  nyStandardDeduction : R
}.

Record TaxResult : Type := mkTaxResult {
  nycTaxableIncome : R;
  nycTax : R
}.

Definition computeNYCIncomeTax (params : TaxParams) : TaxResult :=
  let taxable := clamp0 (income params - nyStandardDeduction params) in
  let tax := computeNYCResidentTaxRateSchedule taxable (filingStatus params) in
  {| nycTaxableIncome := taxable; nycTax := tax |}.

(** The tax the page shows for an income: [computeNYCIncomeTax] at [DEFAULTS]. *)
Definition pageTax (inc : R) : TaxResult :=
  computeNYCIncomeTax
    {| income := inc;
       filingStatus := DEFAULTS_filingStatus;
       nyStandardDeduction := DEFAULTS_nyStandardDeduction |}.

(** The rate schedule read as a table, one row per segment of taxable income:
    the segment's lower bound, the tax at that bound and the marginal rate. *)
Definition bracketIndex (x : R) : nat :=
  if Rle_dec x 12000 then 0%nat
  else if Rle_dec x 25000 then 1%nat
  else if Rle_dec x 50000 then 2%nat
  else 3%nat.

Definition bracketLower (k : nat) : R :=
  match k with
  | O => 0
  | 1%nat => 12000
  | 2%nat => 25000
  | _ => 50000
  end.

Definition bracketBase (k : nat) : R :=
  match k with
  | O => 0
  | 1%nat => 369
  | 2%nat => 858
  | _ => 1813
  end.

Definition bracketRate (k : nat) : R :=
  match k with
  | O => 0.03078
  | 1%nat => 0.03762
  | 2%nat => 0.03819
  | _ => 0.03876
  end.

(** Distance from a taxable income to the nearest breakpoint of the schedule. *)
Definition breakpointGap (x : R) : R :=
  Rmin (Rabs (x - 12000)) (Rmin (Rabs (x - 25000)) (Rabs (x - 50000))).

(** Taxable income and tax as functions of the income alone, the deduction and
    the filing status held fixed. *)
Definition taxableOfIncome (d : R) (fs : FilingStatus) (inc : R) : R :=
  nycTaxableIncome (computeNYCIncomeTax (mkTaxParams inc fs d)).

Definition taxOfIncome (d : R) (fs : FilingStatus) (inc : R) : R :=
  nycTax (computeNYCIncomeTax (mkTaxParams inc fs d)).

(** ** AllocationTree *)

(** The structural bounds of the source ([T extends { weight: number }], and
    the [label] every item, slice and node carries) as classes. *)
Class Weighted (T : Type) : Type := weight : T -> R.
Class Labelled (T : Type) : Type := label : T -> string.

(** A child of a category: [{ label, weight, sources }].  The citation links
    ([sources]) and the colour accent are presentation data and are left out. *)
Record Subcategory : Type := mkSubcategory {
  sub_label : string;
  sub_weight : R
}.

Record Category : Type := mkCategory {
  id : string;
  cat_label : string;
  cat_weight : R;
  children : option (list Subcategory)    (* [children?: ...] *)
}.

#[global] Instance Subcategory_weighted : Weighted Subcategory := sub_weight.
#[global] Instance Subcategory_labelled : Labelled Subcategory := sub_label.
#[global] Instance Category_weighted : Weighted Category := cat_weight.
#[global] Instance Category_labelled : Labelled Category := cat_label.

Definition CATEGORIES : list Category := [
  mkCategory "education" "Education" 29.71 (Some [
    mkSubcategory "K-12 schools & instruction" 16.6;
    mkSubcategory "School operations" 5.4;
    mkSubcategory "Early childhood birth-to-five services" 2.2;
    mkSubcategory "Superintendents & field offices" 0.347;
    mkSubcategory "Central administrative offices" 0.176;
    mkSubcategory "Employee benefits & pension" 8.5;
    mkSubcategory "Debt payments" 3.8;
    mkSubcategory "State-mandated payments to charter schools" 3.4;
    mkSubcategory "Non-public & contract schools (special education)" 2.3
  ]);
  mkCategory "human_services" "Human Services" 16.37 (Some [
    mkSubcategory "Department of Social Services" 10.17;
    mkSubcategory "Department of Homeless Services" 3.02;
    mkSubcategory "Administration for Children's Services" 2.67;
    mkSubcategory "Department for the Aging" 0.51
  ]);
  mkCategory "miscellaneous" "Miscellaneous" 13.18 (Some [
    mkSubcategory "Personal service" 10060.656;
    mkSubcategory "Other than personal service" 4268.15
  ]);
  mkCategory "public_safety" "Public Safety & Judicial" 10.11 (Some [
    mkSubcategory "Police Department (NYPD)" 5.33;
    mkSubcategory "Fire Department (FDNY)" 2.23;
    mkSubcategory "Department of Correction" 1.03;
    mkSubcategory "Office of Criminal Justice" 0.74;
    mkSubcategory "District Attorneys" 0.51;
    mkSubcategory "Department of Probation" 0.1;
    mkSubcategory "Emergency Management" 0.07;
    mkSubcategory "Taxi & Limousine Commission" 0.05;
    mkSubcategory "Special Narcotics Prosecutor" 0.03;
    mkSubcategory "Civilian Complaint Review Board" 0.02
  ]);
  mkCategory "pensions" "City Employee Pensions" 8.9 (Some [
    mkSubcategory "Salary and wages" 10233.669;
    mkSubcategory "Other fringe benefits" 40.257;
    mkSubcategory "Other than personal service" 2.157
  ]);
  mkCategory "general_government" "General Government" 5.48 (Some [
    mkSubcategory "Department of Citywide Administrative Services" 1.51;
    mkSubcategory "Department of Youth and Community Development" 1.29;
    mkSubcategory "Department of Information Technology & Telecommunications" 0.69;
    mkSubcategory "Department of Finance" 0.32;
    mkSubcategory "Department of Small Business Services" 0.24;
    mkSubcategory "Law Department" 0.24;
    mkSubcategory "Mayoralty" 0.17;
    mkSubcategory "Department of Design and Construction" 0.14;
    mkSubcategory "Board of Elections" 0.12;
    mkSubcategory "Office of the Comptroller" 0.11;
    mkSubcategory "Financial Information Services Agency" 0.1;
    mkSubcategory "City Council" 0.1;
    mkSubcategory "Campaign Finance Board" 0.09;
    mkSubcategory "Office of Administrative Trials and Hearings" 0.07;
    mkSubcategory "Department of Consumer Affairs" 0.06;
    mkSubcategory "Department of City Planning" 0.05;
    mkSubcategory "Department of Investigation" 0.05;
    mkSubcategory "Other administrative agencies" 0.1;
    mkSubcategory "Borough Presidents" 0.03;
    mkSubcategory "Community Boards" 0.02
  ]);
  mkCategory "debt_service" "Debt Service" 4.14 (Some [
    mkSubcategory "City funds" 4766.171;
    mkSubcategory "Federal - other" 102.386;
    mkSubcategory "State" 4.657;
    mkSubcategory "Other categorical" 1.241
  ]);
  mkCategory "health" "Health" 3.49 (Some [
    mkSubcategory "Dept. of Health & Mental Hygiene" 2.07;
    mkSubcategory "NYC Health + Hospitals" 1.42
  ]);
  mkCategory "environmental" "Environmental Protection" 3.18 (Some [
    mkSubcategory "Department of Environmental Protection" 2.95;
    mkSubcategory "Department of Sanitation" 0.23
  ]);
  mkCategory "housing" "Housing" 1.56 (Some [
    mkSubcategory "New York City Housing Authority" 0.92;
    mkSubcategory "Department of Housing Preservation and Development" 0.64
  ]);
  mkCategory "cuny" "CUNY Community Colleges" 1.32 (Some [
    mkSubcategory "CUNY Community Colleges" 1.22;
    mkSubcategory "CUNY Construction Fund" 0.1
  ]);
  mkCategory "transportation" "Transportation Services" 1.28 (Some [
    mkSubcategory "Department of Transportation" 0.93;
    mkSubcategory "Department of Records and Information Services" 0.35
  ]);
  mkCategory "parks_cultural" "Parks, Recreation & Cultural Affairs" 0.84 (Some [
    mkSubcategory "Department of Parks and Recreation" 0.48;
    mkSubcategory "Department of Cultural Affairs" 0.36
  ]);
  mkCategory "libraries" "Libraries" 0.44 (Some [
    mkSubcategory "New York Public Library" 190.598;
    mkSubcategory "Queens Public Library" 149.9;
    mkSubcategory "Brooklyn Public Library" 144.775;
    mkSubcategory "NYPL - Research Libraries" 37.867
  ])
].

(** [{ ...it, norm }] *)
Record Normed (T : Type) : Type := mkNormed {
  item : T;
  norm : R
}.
Arguments mkNormed {T} _ _.
Arguments item {T} _.
Arguments norm {T} _.

#[global] Instance Normed_weighted `{Weighted T} : Weighted (Normed T) :=
  fun n => weight (item n).
#[global] Instance Normed_labelled `{Labelled T} : Labelled (Normed T) :=
  fun n => label (item n).

(** [{ sum, items }] *)
Record Normalized (T : Type) : Type := mkNormalized {
  nw_sum : R;
  nw_items : list (Normed T)
}.
Arguments mkNormalized {T} _ _.
Arguments nw_sum {T} _.
Arguments nw_items {T} _.

(** [items.reduce((a, b) => a + b.weight, 0)] *)
Definition weightSum `{Weighted T} (items : list T) : R :=
  fold_left (fun a b => a + weight b) items 0.

(** [sum ? w / sum : 0] *)
Definition normOf (sum w : R) : R :=
  if truthy sum then w / sum else 0.

(** The same expression with the division checked: [None] would be a
    quotient that is not a finite number. *)
Definition normOfChecked (sum w : R) : option R :=
  if truthy sum then finite_div w sum else Some 0.

Definition normalizeWeights `{Weighted T} (items : list T) : Normalized T :=
  let sum := weightSum items in
  {| nw_sum := sum;
     nw_items := map (fun it => {| item := it; norm := normOf sum (weight it) |}) items |}.

(** [{ ...c, dollars }] *)
Record Allocated (T : Type) : Type := mkAllocated {
  normed : Normed T;
  dollars : R
}.
Arguments mkAllocated {T} _ _.
Arguments normed {T} _.
Arguments dollars {T} _.

#[global] Instance Allocated_weighted `{Weighted T} : Weighted (Allocated T) :=
  fun a => weight (normed a).
#[global] Instance Allocated_labelled `{Labelled T} : Labelled (Allocated T) :=
  fun a => label (normed a).

(** The category or child an allocation is about. *)
Definition source {T : Type} (a : Allocated T) : T := item (normed a).

Definition categoryAlloc (nycTax : R) : list (Allocated Category) :=
  let items := nw_items (normalizeWeights CATEGORIES) in
  map (fun c => {| normed := c; dollars := nycTax * norm c |}) items.

(** [categoryAlloc.find((c) => c.id === selectedCategoryId) ?? null] *)
Definition selectedCategory
    (categoryAlloc : list (Allocated Category)) (selectedCategoryId : option string)
    : option (Allocated Category) :=
  find (fun c => bool_decide (Some (id (source c)) = selectedCategoryId)) categoryAlloc.

(** [null] when no category is selected or it has no (or an empty list of)
    children. *)
Definition selectedSubcats (selectedCategory : option (Allocated Category))
    : option (list (Allocated Subcategory)) :=
  match selectedCategory with
  | None => None
  | Some sel =>
      match children (source sel) with
      | None | Some [] => None
      | Some ch =>
          let items := nw_items (normalizeWeights ch) in
          Some (map (fun sc => {| normed := sc; dollars := dollars sel * norm sc |}) items)
      end
  end.

(** [if (!selectedSubcategoryLabel || !selectedSubcats?.length) return null;]
    then [find ... ?? null]; the empty string is a falsy label. *)
Definition selectedSubcategory
    (selectedSubcats : option (list (Allocated Subcategory)))
    (selectedSubcategoryLabel : option string) : option (Allocated Subcategory) :=
  match selectedSubcategoryLabel, selectedSubcats with
  | None, _ | Some EmptyString, _ => None
  | _, None | _, Some [] => None
  | Some l, Some subs => find (fun sc => bool_decide (label sc = l)) subs
  end.

(** Sum of a list of amounts. *)
Definition Rsum (l : list R) : R := fold_right Rplus 0 l.

(** A category with a non-empty list of children whose weights have a
    strictly positive sum (every category of the dataset is one). *)
Definition hasWeightedChildren (c : Category) : Prop :=
  exists sc ch, children c = Some (sc :: ch) /\ 0 < weightSum (sc :: ch).

(** A parent holding 100 dollars whose two children both weigh 0. *)
Definition zeroWeightParent : Allocated Category :=
  {| normed := {| item := mkCategory "reserve" "Reserve" 1
                            (Some [mkSubcategory "a" 0; mkSubcategory "b" 0]);
                  norm := 1 |};
     dollars := 100 |}.

(** ** RadialLayoutEngine *)

#[global] Instance Rge_decision (x y : R) : Decision (x >= y) := Rge_dec x y.

(** [{ label, value, color?, onClick? }]; the click callback plays no part in
    the geometry and is left out. *)
Record RingItem : Type := mkRingItem {
  ring_label : string;
  value : R;
  color : option string
}.

#[global] Instance RingItem_labelled : Labelled RingItem := ring_label.

Definition RING_PADDING : R := 10.

Record DonutSlice : Type := mkDonutSlice {
  slice_label : string;
  slice_value : R;
  pct : R;
  slice_color : option string;
  midX : R;
  midY : R;
  isRight : bool
}.

#[global] Instance DonutSlice_labelled : Labelled DonutSlice := slice_label.

(** The locals of one iteration of the [items.map] callback of
    [computeDonutSlices]: the clamped value, the sweep [angle], the [start] of
    the span, its [midAngle], and the latter in [radians]. *)
Record SliceAngles : Type := mkSliceAngles {
  clamped : R;
  angle : R;
  start : R;
  midAngle : R;
  radians : R
}.

(** [Math.max(1, items.reduce((a, b) => a + Math.max(0, b.value), 0))] *)
Definition donutTotal (items : list RingItem) : R :=
  Rmax 1 (fold_left (fun a b => a + Rmax 0 (value b)) items 0).

Definition sliceAngles (total startAngle acc : R) (it : RingItem) : SliceAngles :=
  let value := Rmax 0 (value it) in
  let angle := value / total * 360 in
  let start := startAngle + acc in
  let midAngle := start + angle / 2 in
  let radians := PI / 180 * midAngle in
  {| clamped := value; angle := angle; start := start;
     midAngle := midAngle; radians := radians |}.

Definition sliceOf (total cx cy ringMid : R) (it : RingItem) (a : SliceAngles)
    : DonutSlice :=
  {| slice_label := ring_label it;
     slice_value := value it;
     pct := clamped a / total * 100;
     slice_color := color it;
     midX := cx + ringMid * cos (radians a);
     midY := cy + ringMid * sin (radians a);
     isRight := bool_decide (cos (radians a) >= 0) |}.

(** The [items.map] walk: [acc] is the mutable cursor the callback closes
    over, advanced by each item's sweep. *)
Fixpoint walkSlices (total cx cy ringMid startAngle acc : R) (items : list RingItem)
    : list (SliceAngles * DonutSlice) :=
  match items with
  | [] => []
  | it :: rest =>
      let a := sliceAngles total startAngle acc it in
      (a, sliceOf total cx cy ringMid it a)
        :: walkSlices total cx cy ringMid startAngle (acc + angle a) rest
  end.

(** Every slice paired with the locals that produced it; [startAngle] is the
    optional fourth argument, -90 when absent. *)
Definition donutTrace (items : list RingItem) (size thickness : R)
    (startAngle : option R) : list (SliceAngles * DonutSlice) :=
  let startAngle := default (-90) startAngle in
  let total := donutTotal items in
  let cx := size / 2 in
  let cy := size / 2 in
  let ringOuter := size / 2 - RING_PADDING in
  let ringMid := ringOuter - thickness / 2 in
  walkSlices total cx cy ringMid startAngle 0 items.

Definition computeDonutSlices (items : list RingItem) (size thickness : R)
    (startAngle : option R) : list DonutSlice :=
  map snd (donutTrace items size thickness startAngle).

(** Each span starts at the cursor, and the cursor moves on by its sweep. *)
Fixpoint spansChain (cursor : R) (l : list SliceAngles) : Prop :=
  match l with
  | [] => True
  | a :: rest => start a = cursor /\ spansChain (cursor + angle a) rest
  end.

(** ** LabelRailRouter *)

(** [.sort((a, b) => a.midY - b.midY)]: ascending by [midY].  The sort of
    JavaScript is stable; this merge sort gives the same heights from top to
    bottom but may order slices of equal height differently ([leftColumn] and
    [rightColumn] below are the stable reading). *)
Definition byMidY (a b : DonutSlice) : Prop := midY a <= midY b.

#[global] Instance byMidY_decision (a b : DonutSlice) : Decision (byMidY a b) :=
  Rle_dec (midY a) (midY b).

Definition sortByMidY (l : list DonutSlice) : list DonutSlice := merge_sort byMidY l.

Definition leftItems (slices : list DonutSlice) : list DonutSlice :=
  sortByMidY (List.filter (fun s => negb (isRight s)) slices).

Definition rightItems (slices : list DonutSlice) : list DonutSlice :=
  sortByMidY (List.filter (fun s => isRight s) slices).

(** What [getBoundingClientRect] reports of an element; [right] is
    [left + width]. *)
Record DOMRect : Type := mkDOMRect {
  rect_left : R;
  rect_top : R;
  rect_width : R;
  rect_height : R
}.

Definition rect_right (r : DOMRect) : R := rect_left r + rect_width r.

Record ConnectorLine : Type := mkConnectorLine {
  line_label : string;
  x1 : R;
  y1 : R;
  x2 : R;
  y2 : R;
  isLeft : bool;
  line_color : option string
}.

#[global] Instance ConnectorLine_labelled : Labelled ConnectorLine := line_label.

(** [labelRefs.current]: label -> mounted button or [null]; an element is
    known to the measurement by its bounding rectangle only. *)
Definition labelEl (labelRefs : gmap string (option DOMRect)) (l : string)
    : option DOMRect :=
  mjoin (labelRefs !! l).

Definition connectorFor (containerRect donutRect labelRect : DOMRect)
    (slice : DonutSlice) : ConnectorLine :=
  let isLeft :=
    bool_decide (rect_left labelRect < rect_left containerRect + rect_width containerRect / 2) in
  let x1 := if isLeft then rect_right labelRect - rect_left containerRect
            else rect_left labelRect - rect_left containerRect in
  let y1 := rect_top labelRect - rect_top containerRect + rect_height labelRect / 2 in
  let x2 := rect_left donutRect - rect_left containerRect + midX slice in
  let y2 := rect_top donutRect - rect_top containerRect + midY slice in
  {| line_label := label slice; x1 := x1; y1 := y1; x2 := x2; y2 := y2;
     isLeft := isLeft; line_color := slice_color slice |}.

(** The callback of [slices.map] in [measureLines]: [null] (here [None]) for a
    slice whose label element is missing, the connector otherwise;
    [.filter((line) => line !== null)] then drops the former. *)
Definition connectorOf (containerRect donutRect : DOMRect)
    (labelRefs : gmap string (option DOMRect)) (slice : DonutSlice)
    : option ConnectorLine :=
  match labelEl labelRefs (label slice) with
  | None => None
  | Some labelRect => Some (connectorFor containerRect donutRect labelRect slice)
  end.

(** [measureLines]: the new value of the [lines] state.  With the container
    or the donut element not mounted it returns before [setLines], and the
    state keeps its value. *)
Definition measureLines (containerEl donutEl : option DOMRect)
    (labelRefs : gmap string (option DOMRect)) (slices : list DonutSlice)
    (lines : list ConnectorLine) : list ConnectorLine :=
  match containerEl, donutEl with
  | Some containerRect, Some donutRect =>
      omap (connectorOf containerRect donutRect labelRefs) slices
  | _, _ => lines
  end.

(** Two slices worth 1 and 3 dollars. *)
Definition quarterRing : list RingItem :=
  [mkRingItem "a" 1 None; mkRingItem "b" 3 None].

(** Whether the label's button is mounted, i.e. can be measured. *)
Definition measured (labelRefs : gmap string (option DOMRect)) (l : string) : bool :=
  match labelEl labelRefs l with
  | Some _ => true
  | None => false
  end.

(** ** DrillState: the state of [Page] and its event handlers *)

Record PageState : Type := mkPageState {
  st_income : R;
  unlockedLevel : nat;
  selectedCategoryId : option string;
  selectedSubcategoryLabel : option string;
  showMethodology : bool
}.

(** [useState] initial values. *)
Definition initialState : PageState :=
  {| st_income := 0; unlockedLevel := 0; selectedCategoryId := None;
     selectedSubcategoryLabel := None; showMethodology := false |}.

Definition setIncome (v : R) (st : PageState) : PageState :=
  {| st_income := v; unlockedLevel := unlockedLevel st;
     selectedCategoryId := selectedCategoryId st;
     selectedSubcategoryLabel := selectedSubcategoryLabel st;
     showMethodology := showMethodology st |}.

Definition setUnlockedLevel (v : nat) (st : PageState) : PageState :=
  {| st_income := st_income st; unlockedLevel := v;
     selectedCategoryId := selectedCategoryId st;
     selectedSubcategoryLabel := selectedSubcategoryLabel st;
     showMethodology := showMethodology st |}.

Definition setSelectedCategoryId (v : option string) (st : PageState) : PageState :=
  {| st_income := st_income st; unlockedLevel := unlockedLevel st;
     selectedCategoryId := v;
     selectedSubcategoryLabel := selectedSubcategoryLabel st;
     showMethodology := showMethodology st |}.

Definition setSelectedSubcategoryLabel (v : option string) (st : PageState) : PageState :=
  {| st_income := st_income st; unlockedLevel := unlockedLevel st;
     selectedCategoryId := selectedCategoryId st;
     selectedSubcategoryLabel := v;
     showMethodology := showMethodology st |}.

Definition setShowMethodology (v : bool) (st : PageState) : PageState :=
  {| st_income := st_income st; unlockedLevel := unlockedLevel st;
     selectedCategoryId := selectedCategoryId st;
     selectedSubcategoryLabel := selectedSubcategoryLabel st;
     showMethodology := v |}.

(** [setUnlockedLevel((cur) => Math.max(cur, lvl))] *)
Definition unlockTo (lvl : nat) (st : PageState) : PageState :=
  setUnlockedLevel (Nat.max (unlockedLevel st) lvl) st.

(** The [onChange] handler of the income input strips every character that
    is not a digit, converts the rest with [Number] and falls back to 0: the
    decimal value of the digits of the text, 0 when there is none.  The value
    is the one [Number] returns as long as it is at most [2^53]; above that
    [Number] rounds, which is outside the model ([incomeOfInputChecked]
    below is the reading with that bound checked). *)
Definition isDigit (c : ascii) : bool :=
  (48 <=? nat_of_ascii c)%nat && (nat_of_ascii c <=? 57)%nat.

Fixpoint keepDigits (s : string) : string :=
  match s with
  | EmptyString => EmptyString
  | String c rest => if isDigit c then String c (keepDigits rest) else keepDigits rest
  end.

Fixpoint numberOfDigits (acc : N) (s : string) : N :=
  match s with
  | EmptyString => acc
  | String c rest => numberOfDigits (10 * acc + N.of_nat (nat_of_ascii c - 48)) rest
  end.

Definition incomeOfInput (text : string) : R :=
  IZR (Z.of_N (numberOfDigits 0 (keepDigits text))).

(** The values [Page] derives from its state on every render. *)
Definition pageNycTax (st : PageState) : R := nycTax (pageTax (st_income st)).

Definition pageCategoryAlloc (st : PageState) : list (Allocated Category) :=
  categoryAlloc (pageNycTax st).

Definition pageSelectedCategory (st : PageState) : option (Allocated Category) :=
  selectedCategory (pageCategoryAlloc st) (selectedCategoryId st).

Definition pageSelectedSubcats (st : PageState) : option (list (Allocated Subcategory)) :=
  selectedSubcats (pageSelectedCategory st).

Definition pageSelectedSubcategory (st : PageState) : option (Allocated Subcategory) :=
  selectedSubcategory (pageSelectedSubcats st) (selectedSubcategoryLabel st).

Definition donutColors : list string :=
  ["#1f1f1f"; "#4aa7d8"; "#e36a2e"; "#6c7a89"; "#9c7a3f"; "#4a6b60"; "#b8695b";
   "#7a6f9f"; "#9bb3a6"; "#b5a27f"; "#546b9a"; "#a96f86"; "#6f8aa1"; "#9f8f7a"].

(** [{ label, value: dollars, color: donutColors[i % donutColors.length] }] *)
Definition donutItems {T : Type} `{Labelled T} (l : list (Allocated T)) : list RingItem :=
  imap (fun i c => {| ring_label := label c; value := dollars c;
                      color := donutColors !! (i mod length donutColors)%nat |}) l.

Definition categoryDonutItems (st : PageState) : list RingItem :=
  donutItems (pageCategoryAlloc st).

Definition subcatDonutItems (st : PageState) : list RingItem :=
  donutItems (default [] (pageSelectedSubcats st)).

Definition hasIncome (st : PageState) : bool := bool_decide (st_income st > 0).

(** The category ring is on screen: the stage is not idle, there is an
    income, and [unlockedLevel >= 1 && unlockedLevel < 3]. *)
Definition categoryRingShown (st : PageState) : bool :=
  negb (unlockedLevel st =? 0)%nat && hasIncome st &&
  (1 <=? unlockedLevel st)%nat && (unlockedLevel st <? 3)%nat.

(** The subcategory ring is on screen: [unlockedLevel >= 3] and a category is
    selected. *)
Definition subcatRingShown (st : PageState) : bool :=
  negb (unlockedLevel st =? 0)%nat && hasIncome st &&
  (3 <=? unlockedLevel st)%nat && bool_decide (is_Some (pageSelectedCategory st)).

(** What the user can do to the page.  Hovering only changes the highlight
    kept inside a ring and never reaches the page state. *)
Inductive Action : Type :=
  | ClickIncomeCrumb
  | ClickTaxCrumb
  | ClickAllocationCrumb
  | ClickDrillDownCrumb
  | ClickIncomeCard
  | ChangeIncome (text : string)
  | ClickCategoryItem (l : string)        (* a slice or rail label of the first ring *)
  | ClickSubcategoryItem (l : string)     (* a slice or rail label of the second ring *)
  | OpenMethodology
  | CloseMethodology.

(** The event handlers, as written in the JSX. *)
Definition handle (st : PageState) (a : Action) : PageState :=
  match a with
  | ClickIncomeCrumb =>
      setSelectedSubcategoryLabel None (setSelectedCategoryId None (setUnlockedLevel 0 st))
  | ClickTaxCrumb =>
      if (1 <=? unlockedLevel st)%nat
      then setSelectedSubcategoryLabel None (setSelectedCategoryId None (setUnlockedLevel 1 st))
      else st
  | ClickAllocationCrumb =>
      if (2 <=? unlockedLevel st)%nat
      then setSelectedSubcategoryLabel None (setSelectedCategoryId None (setUnlockedLevel 2 st))
      else st
  | ClickDrillDownCrumb =>
      if (3 <=? unlockedLevel st)%nat then setUnlockedLevel 3 st else st
  | ClickIncomeCard => unlockTo 2 st
  | ChangeIncome text => setIncome (incomeOfInput text) st
  | ClickCategoryItem l =>
      match find (fun x => bool_decide (label x = l)) (pageCategoryAlloc st) with
      | Some m =>
          unlockTo 3 (setSelectedSubcategoryLabel None
                        (setSelectedCategoryId (Some (id (source m))) st))
      | None => st
      end
  | ClickSubcategoryItem l => setSelectedSubcategoryLabel (Some l) st
  | OpenMethodology => setShowMethodology true st
  | CloseMethodology => setShowMethodology false st
  end.

(** Whether the element that carries the handler is on screen; a ring item
    carries the label of one of the ring's items. *)
Definition rendered (st : PageState) (a : Action) : bool :=
  match a with
  | ClickCategoryItem l =>
      categoryRingShown st && bool_decide (l ∈ map label (categoryDonutItems st))
  | ClickSubcategoryItem l =>
      subcatRingShown st && bool_decide (l ∈ map label (subcatDonutItems st))
  | CloseMethodology => showMethodology st
  | _ => true
  end.

(** [useEffect(() => setSelectedSubcategoryLabel(null), [selectedCategoryId])]:
    runs after a render in which [selectedCategoryId] has changed. *)
Definition afterRender (prev next : PageState) : PageState :=
  if decide (selectedCategoryId prev = selectedCategoryId next) then next
  else setSelectedSubcategoryLabel None next.

(** One user action: the handler, then the effects of the render it causes. *)
Definition step (st : PageState) (a : Action) : PageState :=
  if rendered st a then afterRender st (handle st a) else st.

Definition run (st : PageState) (actions : list Action) : PageState :=
  fold_left step actions st.

(** The breadcrumbs that lead back to an earlier level. *)
Definition isBackCrumb (a : Action) : bool :=
  match a with
  | ClickIncomeCrumb | ClickTaxCrumb | ClickAllocationCrumb => true
  | _ => false
  end.

(** An income of 50,000 entered, the income card clicked, and the Education
    slice clicked. *)
Definition drilledIntoEducation : PageState :=
  run initialState [ChangeIncome "50000"; ClickIncomeCard; ClickCategoryItem "Education"].

(** Miscellaneous selected, with its child "Other than personal service". *)
Definition miscellaneousOther : PageState :=
  {| st_income := 50000; unlockedLevel := 3;
     selectedCategoryId := Some "miscellaneous";
     selectedSubcategoryLabel := Some "Other than personal service";
     showMethodology := false |}.

(** A sibling group with weights 1 and 3. *)
Definition oneAndThree : list Subcategory :=
  [mkSubcategory "a" 1; mkSubcategory "b" 3].

(** A rail in which only the label "a" is mounted. *)
Definition onlyLabelA : gmap string (option DOMRect) :=
  {[ "a"%string := Some (mkDOMRect 0 40 120 30) ]}.

(** An income one dollar above the deduction, with the category ring shown. *)
Definition oneTaxableDollar : PageState :=
  {| st_income := 8001; unlockedLevel := 2; selectedCategoryId := None;
     selectedSubcategoryLabel := None; showMethodology := false |}.

(** From there, back to the category ring and on to City Employee Pensions,
    which has a child with the same label. *)
Definition switchedToPensions : PageState :=
  run miscellaneousOther [ClickAllocationCrumb; ClickCategoryItem "City Employee Pensions"].

(** ** Sunburst: the rings as drawn *)

Record Point : Type := mkPoint {
  px : R;
  py : R
}.

Definition polarToCartesian (cx cy r angleDeg : R) : Point :=
  let angleRad := PI / 180 * angleDeg in
  {| px := cx + r * cos angleRad; py := cy + r * sin angleRad |}.

(** The commands of an SVG path; the source prints them into the [d]
    attribute ([M x y], [A rx ry 0 large sweep x y], [L x y], [Z]). *)
Inductive PathCommand : Type :=
  | MoveTo (p : Point)
  | ArcTo (rx ry : R) (largeArc sweepFlag : bool) (p : Point)
  | LineTo (p : Point)
  | ClosePath.

Definition donutSegmentPath (cx cy rOuter rInner start stop : R) : list PathCommand :=
  let p1 := polarToCartesian cx cy rOuter start in
  let p2 := polarToCartesian cx cy rOuter stop in
  let p3 := polarToCartesian cx cy rInner stop in
  let p4 := polarToCartesian cx cy rInner start in
  let large := if Rle_dec (stop - start) 180 then false else true in
  [MoveTo p1; ArcTo rOuter rOuter large true p2; LineTo p3;
   ArcTo rInner rInner large false p4; ClosePath].

(** [{ items, thickness, gap }] *)
Record Ring : Type := mkRing {
  ring_items : list RingItem;
  ring_thickness : R;
  ring_gap : R
}.

(** The highlight class of a slice:
    [activeLabel ? (activeLabel === it.label ? "active" : "dimmed") : ""]. *)
Inductive SliceClass : Set :=
  | NoHighlight
  | ActiveSlice
  | DimmedSlice.

Definition sliceClass (activeLabel : option string) (l : string) : SliceClass :=
  match activeLabel with
  | None | Some EmptyString => NoHighlight
  | Some a => if bool_decide (a = l) then ActiveSlice else DimmedSlice
  end.

(** What [Sunburst] draws for one item: the sweep and span, the label point,
    the path, the highlight class and whether the percentage text is drawn. *)
Record SunburstSlice : Type := mkSunburstSlice {
  sb_label : string;
  sb_angle : R;
  sb_start : R;
  sb_end : R;
  sb_mid : R;
  sb_pct : R;
  sb_labelPoint : Point;
  sb_path : list PathCommand;
  sb_class : SliceClass;
  sb_showPct : bool
}.

#[global] Instance SunburstSlice_labelled : Labelled SunburstSlice := sb_label.

(** [Math.max(1, ring.items.reduce((a, b) => a + b.value, 0))]: unlike
    [computeDonutSlices], the values are summed as they are. *)
Definition sunburstTotal (items : list RingItem) : R :=
  Rmax 1 (fold_left (fun a b => a + value b) items 0).

Definition sunburstSlice (cx cy ringOuter ringInner total startAngle : R)
    (showPercents : bool) (ringIndex : nat) (activeLabel : option string)
    (acc : R) (it : RingItem) : SunburstSlice :=
  let value := Rmax 0 (value it) in
  let angle := value / total * 360 in
  let start := startAngle + acc in
  let stop := startAngle + acc + angle in
  let mid := start + angle / 2 in
  let pct := value / total * 100 in
  let ringMid := (ringOuter + ringInner) / 2 in
  {| sb_label := ring_label it;
     sb_angle := angle;
     sb_start := start;
     sb_end := stop;
     sb_mid := mid;
     sb_pct := pct;
     sb_labelPoint := polarToCartesian cx cy ringMid mid;
     sb_path := donutSegmentPath cx cy ringOuter ringInner start stop;
     sb_class := sliceClass activeLabel (ring_label it);
     sb_showPct := showPercents && (ringIndex =? 0)%nat && bool_decide (pct >= 4) |}.

(** The inner [ring.items.map]; [acc] is its cursor. *)
Fixpoint sunburstSlices (cx cy ringOuter ringInner total startAngle : R)
    (showPercents : bool) (ringIndex : nat) (activeLabel : option string)
    (acc : R) (items : list RingItem) : list SunburstSlice :=
  match items with
  | [] => []
  | it :: rest =>
      let s := sunburstSlice cx cy ringOuter ringInner total startAngle
                 showPercents ringIndex activeLabel acc it in
      s :: sunburstSlices cx cy ringOuter ringInner total startAngle
             showPercents ringIndex activeLabel (acc + sb_angle s) rest
  end.

Record SunburstRing : Type := mkSunburstRing {
  sr_outer : R;
  sr_inner : R;
  sr_slices : list SunburstSlice
}.

(** The outer [rings.map]; [currentOuter] is its cursor, moved inwards by each
    ring's thickness and gap. *)
Fixpoint sunburstRings (cx cy startAngle : R) (showPercents : bool)
    (activeLabel : option string) (ringIndex : nat) (currentOuter : R)
    (rings : list Ring) : list SunburstRing :=
  match rings with
  | [] => []
  | ring :: rest =>
      let ringOuter := currentOuter in
      let ringInner := ringOuter - ring_thickness ring in
      let total := sunburstTotal (ring_items ring) in
      {| sr_outer := ringOuter;
         sr_inner := ringInner;
         sr_slices := sunburstSlices cx cy ringOuter ringInner total startAngle
                        showPercents ringIndex activeLabel 0 (ring_items ring) |}
        :: sunburstRings cx cy startAngle showPercents activeLabel (S ringIndex)
             (ringInner - ring_gap ring) rest
  end.

(** [Sunburst]: [size] is 280 and [startAngle] -90 when absent. *)
Definition Sunburst (rings : list Ring) (size startAngle : option R)
    (showPercents : bool) (activeLabel : option string) : list SunburstRing :=
  let size := default 280 size in
  let startAngle := default (-90) startAngle in
  let cx := size / 2 in
  let cy := size / 2 in
  let totalRadius := size / 2 - RING_PADDING in
  sunburstRings cx cy startAngle showPercents activeLabel 0 totalRadius rings.

(** The chart [RingWithLabelRails] renders between its rails:
    [rings={[{ items: ringItems, thickness, gap: 8 }]}], percentages on, the
    hovered label highlighted. *)
Definition railsSunburst (items : list RingItem) (size thickness : R)
    (hoveredLabel : option string) : list SunburstRing :=
  Sunburst [mkRing items thickness 8] (Some size) None true hoveredLabel.

(** The polyline drawn for a connector: label anchor, elbow 16px towards the
    chart, slice midpoint. *)
Definition elbowX (line : ConnectorLine) : R :=
  if isLeft line then x1 line + 16 else x1 line - 16.

Definition connectorPoints (line : ConnectorLine) : list Point :=
  [mkPoint (x1 line) (y1 line); mkPoint (elbowX line) (y1 line);
   mkPoint (x2 line) (y2 line)].

(** A rectangle moved by [(dx, dy)], as scrolling moves every rectangle that
    [getBoundingClientRect] reports. *)
Definition translateRect (dx dy : R) (r : DOMRect) : DOMRect :=
  {| rect_left := rect_left r + dx; rect_top := rect_top r + dy;
     rect_width := rect_width r; rect_height := rect_height r |}.

(** ** Sorting as [Array.prototype.sort] does *)

(** [sort] is stable: with a comparator [cmp], [a] is put before [b] when
    [cmp(a, b) < 0], and items that compare equal keep their order.  Insertion
    from the right gives exactly that order. *)
Fixpoint insertBy {A : Type} (cmp : A -> A -> R) (x : A) (l : list A) : list A :=
  match l with
  | [] => [x]
  | y :: rest => if Rlt_dec (cmp y x) 0 then y :: insertBy cmp x rest else x :: l
  end.

Definition sortBy {A : Type} (cmp : A -> A -> R) (l : list A) : list A :=
  fold_right (insertBy cmp) [] l.

(** The two label columns with [.sort((a, b) => a.midY - b.midY)] read as the
    stable sort it is. *)
Definition byMidYAsc (a b : DonutSlice) : R := midY a - midY b.

Definition leftColumn (slices : list DonutSlice) : list DonutSlice :=
  sortBy byMidYAsc (List.filter (fun s => negb (isRight s)) slices).

Definition rightColumn (slices : list DonutSlice) : list DonutSlice :=
  sortBy byMidYAsc (List.filter (fun s => isRight s) slices).

(** ** The slices as the engine computes them

    [Math.cos] and [Math.sin] return doubles: they differ from the real
    cosine and sine by a rounding error, and that error decides the side of a
    slice whose mid angle is vertical (at 270 degrees [Math.cos] returns about
    -1.8e-16, not 0).  In the module [Js] the two functions are parameters of
    which nothing is assumed; [computeDonutSlices] above is the instance with
    the real cosine and sine. *)
Module Js.
Section Trig.
Variables Math_cos Math_sin : R -> R.

Definition sliceOf (total cx cy ringMid : R) (it : RingItem) (a : SliceAngles)
    : DonutSlice :=
  {| slice_label := ring_label it;
     slice_value := value it;
     pct := clamped a / total * 100;
     slice_color := color it;
     midX := cx + ringMid * Math_cos (radians a);
     midY := cy + ringMid * Math_sin (radians a);
     isRight := bool_decide (Math_cos (radians a) >= 0) |}.

Fixpoint walkSlices (total cx cy ringMid startAngle acc : R) (items : list RingItem)
    : list (SliceAngles * DonutSlice) :=
  match items with
  | [] => []
  | it :: rest =>
      let a := sliceAngles total startAngle acc it in
      (a, sliceOf total cx cy ringMid it a)
        :: walkSlices total cx cy ringMid startAngle (acc + angle a) rest
  end.

Definition donutTrace (items : list RingItem) (size thickness : R)
    (startAngle : option R) : list (SliceAngles * DonutSlice) :=
  let startAngle := default (-90) startAngle in
  let total := donutTotal items in
  let cx := size / 2 in
  let cy := size / 2 in
  let ringOuter := size / 2 - RING_PADDING in
  let ringMid := ringOuter - thickness / 2 in
  walkSlices total cx cy ringMid startAngle 0 items.

Definition computeDonutSlices (items : list RingItem) (size thickness : R)
    (startAngle : option R) : list DonutSlice :=
  map snd (donutTrace items size thickness startAngle).
End Trig.
End Js.



(** A ring whose second slice is empty and sits at 270 degrees. *)
Definition fiveAndZero : list RingItem :=
  [mkRingItem "a" 5 None; mkRingItem "b" 0 None].

(** The largest integer up to which every integer is a double:
    [Number.MAX_SAFE_INTEGER + 1]. *)
Definition MAX_EXACT : N := 2 ^ 53.

(** [Number(digits) || 0] with the conversion checked: [None] stands for a
    number above [2^53], which [Number] rounds to a double (or to [Infinity]
    from 309 digits on) and [incomeOfInput] does not follow. *)
Definition incomeOfInputChecked (text : string) : option R :=
  let n := numberOfDigits 0 (keepDigits text) in
  if (n <=? MAX_EXACT)%N then Some (IZR (Z.of_N n)) else None.

(** Three slices at one height, all on the right. *)
Definition threeLevel : list DonutSlice :=
  [mkDonutSlice "a" 0 0 None 100 50 true; mkDonutSlice "b" 0 0 None 100 50 true;
   mkDonutSlice "c" 1 100 None 100 50 true].

(** ** BarList *)

Record BarItem : Type := mkBarItem {
  bar_label : string;
  bar_value : R
}.

Record BarRow : Type := mkBarRow {
  row_label : string;
  row_value : R;
  row_pct : R
}.

(** [Math.max(...items.map((i) => i.value), 1)] *)
Definition barMax (items : list BarItem) : R :=
  fold_right Rmax 1 (map bar_value items).

(** [.sort((a, b) => b.value - a.value)] *)
Definition byValueDesc (a b : BarItem) : R := bar_value b - bar_value a.

Definition BarList (items : list BarItem) : list BarRow :=
  let max := barMax items in
  map (fun it => {| row_label := bar_label it; row_value := bar_value it;
                    row_pct := bar_value it / max * 100 |})
      (sortBy byValueDesc items).

(** The group [oneAndThree] with every weight doubled. *)
Definition twoAndSix : list Subcategory :=
  [mkSubcategory "a" 2; mkSubcategory "b" 6].

(** A ring whose values are zero or negative. *)
Definition emptyRing : list RingItem :=
  [mkRingItem "a" 0 None; mkRingItem "b" (-2) None].

(** An income of 50,000 with the category ring shown. *)
Definition fiftyThousand : PageState :=
  {| st_income := 50000; unlockedLevel := 2; selectedCategoryId := None;
     selectedSubcategoryLabel := None; showMethodology := false |}.

(** The spans of a ring tile it: each starts at the cursor, ends its sweep
    later and has its mid angle half-way; the next starts where it ends. *)
Fixpoint spansTile (cursor : R) (l : list SunburstSlice) : Prop :=
  match l with
  | [] => True
  | s :: rest =>
      sb_start s = cursor /\ sb_end s = cursor + sb_angle s /\
      sb_mid s = cursor + sb_angle s / 2 /\ spansTile (cursor + sb_angle s) rest
  end.

(** The large-arc flag of a drawn path (the flag of its first arc). *)
Definition pathLargeArc (path : list PathCommand) : bool :=
  match path with
  | _ :: ArcTo _ _ large _ _ :: _ => large
  | _ => false
  end.

(** Rings whose annuli do not overlap: every ring lies inside the inner
    radius of the one before it. *)
Fixpoint ringsNested (bound : R) (l : list SunburstRing) : Prop :=
  match l with
  | [] => True
  | r :: rest => sr_outer r <= bound /\ sr_inner r <= sr_outer r /\ ringsNested (sr_inner r) rest
  end.

(** A ring with one negative value. *)
Definition threeAndMinusOne : list RingItem :=
  [mkRingItem "a" 3 None; mkRingItem "b" (-1) None].

(** Two rings, 26 and 14 thick, 8 apart. *)
Definition twoRings : list Ring :=
  [mkRing quarterRing 26 8; mkRing quarterRing 14 8].

(** The label elements with every rectangle moved by [(dx, dy)]. *)
Definition translateRefs (dx dy : R) (labelRefs : gmap string (option DOMRect))
    : gmap string (option DOMRect) :=
  fmap (M := gmap string) (fmap (M := option) (translateRect dx dy)) labelRefs.

(** Three bars. *)
Definition threeBars : list BarItem :=
  [mkBarItem "small" 2; mkBarItem "large" 8; mkBarItem "medium" 4].

(** The decimal digits of a natural number, as the income input shows them
    (apart from the thousands separators that [toLocaleString] adds). *)
Definition decimalOf (n : nat) : string :=
  NilEmpty.string_of_uint (Nat.to_uint n).

(** ** States the page can be in *)

(** The category of the dataset with a given id. *)
Definition categoryById (cid : option string) : option Category :=
  find (fun c => bool_decide (Some (id c) = cid)) CATEGORIES.

(** What holds of the state after every run of user actions. *)
Definition coherent (st : PageState) : Prop :=
  0 <= st_income st /\
  (unlockedLevel st <= 3)%nat /\
  (unlockedLevel st = 3%nat <-> selectedCategoryId st <> None) /\
  (selectedCategoryId st <> None -> is_Some (categoryById (selectedCategoryId st))) /\
  (forall l : string,
     selectedSubcategoryLabel st = Some l ->
     l <> EmptyString /\
     exists cat ch,
       categoryById (selectedCategoryId st) = Some cat /\
       children cat = Some ch /\ In l (map label ch)).

(** The allocation [categoryAlloc] makes for one category. *)
Definition allocOf (tax : R) (c : Category) : Allocated Category :=
  {| normed := {| item := c; norm := normOf (weightSum CATEGORIES) (weight c) |};
     dollars := tax * normOf (weightSum CATEGORIES) (weight c) |}.

(** * The second revision of [page.tsx]

    The second revision keeps the tax engine and [normalizeWeights] and
    replaces the rings with label rails by a single [Donut] with a legend; the
    drill-down gains an agency split into personal services (PS) and other
    than personal services (OTPS), and the breadcrumb is gone. *)
Module Rev2.

(** [{ label, weight, sources, children? }]; the source links take no part in
    any computation and are left out. *)
#[warnings="-register-all"] Inductive BudgetNode : Type := mkBudgetNode {
  node_label : string;
  node_weight : R;
  node_children : option (list BudgetNode)
}.

Record Category : Type := mkCategory {
  id : string;
  cat_label : string;
  cat_weight : R;
  children : option (list BudgetNode)
}.

#[global] Instance BudgetNode_weighted : Weighted BudgetNode := node_weight.
#[global] Instance BudgetNode_labelled : Labelled BudgetNode := node_label.
#[global] Instance Category_weighted : Weighted Category := cat_weight.
#[global] Instance Category_labelled : Labelled Category := cat_label.

Definition CATEGORIES : list Category := [
  mkCategory "education" "Education" 29.71 (Some [
    mkBudgetNode "K-12 schools & instruction" 16.6 None;
    mkBudgetNode "School operations" 5.4 None;
    mkBudgetNode "Early childhood birth-to-five services" 2.2 None;
    mkBudgetNode "Superintendents & field offices" 0.347 None;
    mkBudgetNode "Central administrative offices" 0.176 None;
    mkBudgetNode "Employee benefits & pension" 8.5 None;
    mkBudgetNode "Debt payments" 3.8 None;
    mkBudgetNode "State-mandated payments to charter schools" 3.4 None;
    mkBudgetNode "Non-public & contract schools (special education)" 2.3 None
  ]);
  mkCategory "human_services" "Human Services" 16.37 (Some [
    mkBudgetNode "Department of Social Services" 10.17 None;
    mkBudgetNode "Department of Homeless Services" 3.02 None;
    mkBudgetNode "Administration for Children's Services" 2.67 None;
    mkBudgetNode "Department for the Aging" 0.51 None
  ]);
  mkCategory "misc" "Miscellaneous" 13.18 (Some [
    mkBudgetNode "General city operations" 60 None;
    mkBudgetNode "Other central expenses" 40 None
  ]);
  mkCategory "public_safety" "Public Safety & Judicial" 10.11 (Some [
    mkBudgetNode "Police Department (NYPD)" 5.33 None;
    mkBudgetNode "Fire Department (FDNY)" 2.23 None;
    mkBudgetNode "Department of Correction" 1.03 None;
    mkBudgetNode "Office of Criminal Justice" 0.74 None;
    mkBudgetNode "District Attorneys" 0.78 None
  ]);
  mkCategory "pensions" "City Employee Pensions" 8.9 (Some [
    mkBudgetNode "Pension obligations" 100 None
  ]);
  mkCategory "general" "General Government" 5.48 (Some [
    mkBudgetNode "Citywide administration" 100 None
  ]);
  mkCategory "debt" "Debt Service" 4.14 (Some [
    mkBudgetNode "Debt service payments" 100 None
  ]);
  mkCategory "health" "Health" 3.49 (Some [
    mkBudgetNode "Dept. of Health & Mental Hygiene" 2.07 None;
    mkBudgetNode "NYC Health + Hospitals" 1.42 None
  ]);
  mkCategory "env" "Environmental Protection" 3.18 (Some [
    mkBudgetNode "Department of Environmental Protection" 2.95 None;
    mkBudgetNode "Department of Sanitation" 0.23 None
  ]);
  mkCategory "housing" "Housing" 1.56 (Some [
    mkBudgetNode "Department of Housing Preservation and Development" 1 None
  ]);
  mkCategory "cuny" "CUNY Community Colleges" 1.32 (Some [
    mkBudgetNode "CUNY Community Colleges" 100 None
  ]);
  mkCategory "transport" "Transportation Services" 1.28 (Some [
    mkBudgetNode "Department of Transportation" 1 None
  ]);
  mkCategory "parks" "Parks, Recreation & Cultural Affairs" 0.84 (Some [
    mkBudgetNode "Department of Parks and Recreation" 0.48 None;
    mkBudgetNode "Department of Cultural Affairs" 0.36 None
  ]);
  mkCategory "libraries" "Libraries" 0.44 (Some [
    mkBudgetNode "New York Public Library" 0.19 None;
    mkBudgetNode "Queens Public Library" 0.15 None;
    mkBudgetNode "Brooklyn Public Library" 0.14 None;
    mkBudgetNode "NYPL - Research Libraries" 0.04 None
  ])
].

(** [{ ps, otps }] *)
Record PsOtps : Type := mkPsOtps {
  ps : R;
  otps : R
}.

(** The entries of [AGENCY_PS_OTPS_2026], in the order of the source. *)
Definition AGENCY_PS_OTPS_2026_entries : list (string * PsOtps) := [
  ("Department of Education"%string, mkPsOtps 58402434309 39643851243);
  ("Department of Social Services"%string, mkPsOtps 2748915402 32684557554);
  ("Department of Homeless Services"%string, mkPsOtps 523086975 11197132998);
  ("Administration for Children's Services"%string, mkPsOtps 1733570121 6628423473);
  ("Department for the Aging"%string, mkPsOtps 96423321 1554244095);
  ("Police Department (NYPD)"%string, mkPsOtps 16160055798 1338739377);
  ("Fire Department (FDNY)"%string, mkPsOtps 6934852854 779237136);
  ("Department of Correction"%string, mkPsOtps 2645794158 503530194);
  ("Office of Criminal Justice"%string, mkPsOtps 28076946 2308248162);
  ("District Attorneys"%string, mkPsOtps 1476172611 237302334);
  ("Dept. of Health & Mental Hygiene"%string, mkPsOtps 1819970700 4876412106);
  ("NYC Health + Hospitals"%string, mkPsOtps 0 9467810511);
  ("Department of Environmental Protection"%string, mkPsOtps 2095926414 2936155707);
  ("Department of Sanitation"%string, mkPsOtps 3533466981 2308884801);
  ("Department of Housing Preservation and Development"%string, mkPsOtps 697357011 5282007012);
  ("Department of Transportation"%string, mkPsOtps 1924959591 2423010015);
  ("Department of Parks and Recreation"%string, mkPsOtps 1396634487 457519365);
  ("Department of Cultural Affairs"%string, mkPsOtps 19416540 742181394);
  ("New York Public Library"%string, mkPsOtps 0 534517401);
  ("Queens Public Library"%string, mkPsOtps 0 420585606);
  ("Brooklyn Public Library"%string, mkPsOtps 0 406523961);
  ("NYPL - Research Libraries"%string, mkPsOtps 0 104985330)
].

(** The object [AGENCY_PS_OTPS_2026], looked up by its own keys. *)
Definition AGENCY_PS_OTPS_2026 : gmap string PsOtps :=
  list_to_map AGENCY_PS_OTPS_2026_entries.

(** ** Allocation *)

Definition categoryAlloc (nycTax : R) : list (Allocated Category) :=
  let items := nw_items (normalizeWeights CATEGORIES) in
  map (fun c => {| normed := c; dollars := nycTax * norm c |}) items.

(** [categoryAlloc.find((c) => c.id === selectedCategoryId) ?? null] *)
Definition selectedCategory
    (categoryAlloc : list (Allocated Category)) (selectedCategoryId : option string)
    : option (Allocated Category) :=
  find (fun c => bool_decide (Some (id (source c)) = selectedCategoryId)) categoryAlloc.

(** [x?.length] as a condition: the list is there and not empty. *)
Definition hasLength {A : Type} (l : option (list A)) : bool :=
  match l with
  | Some (_ :: _) => true
  | _ => false
  end.

(** [AGENCY_PS_OTPS_2026[child.label] ??
     (selectedCategory.id === "education"
        ? AGENCY_PS_OTPS_2026["Department of Education"] : null)] *)
Definition splitFor (categoryId : string) (child : BudgetNode) : option PsOtps :=
  match AGENCY_PS_OTPS_2026 !! node_label child with
  | Some split => Some split
  | None =>
      if bool_decide (categoryId = "education")
      then AGENCY_PS_OTPS_2026 !! "Department of Education"
      else None
  end.

(** The callback of [selectedCategory.children.map]: a child without children
    of its own gets the two parts of its agency's split as children. *)
Definition withSplit (categoryId : string) (child : BudgetNode) : BudgetNode :=
  if hasLength (node_children child) then child
  else
    match splitFor categoryId child with
    | None => child
    | Some split =>
        {| node_label := node_label child;
           node_weight := node_weight child;
           node_children :=
             Some [ {| node_label := "Personal Services"; node_weight := ps split;
                       node_children := None |};
                    {| node_label := "Other Than Personal Services";
                       node_weight := otps split; node_children := None |} ] |}
    end.

(** The empty list when no category is selected or it has no children. *)
Definition selectedSubcats (selectedCategory : option (Allocated Category))
    : list (Allocated BudgetNode) :=
  match selectedCategory with
  | None => []
  | Some sel =>
      if hasLength (children (source sel)) then
        let categoryChildren :=
          map (withSplit (id (source sel))) (default [] (children (source sel))) in
        let items := nw_items (normalizeWeights categoryChildren) in
        map (fun s => {| normed := s; dollars := dollars sel * norm s |}) items
      else []
  end.

(** [selectedSubcats.find((s) => s.label === selectedSubcategoryLabel) ?? null] *)
Definition selectedSubcategory
    (selectedSubcats : list (Allocated BudgetNode))
    (selectedSubcategoryLabel : option string) : option (Allocated BudgetNode) :=
  find (fun s => bool_decide (Some (label s) = selectedSubcategoryLabel)) selectedSubcats.

(** [hoveredSubcategoryLabel
       ? selectedSubcats.find((s) => s.label === hoveredSubcategoryLabel)
           ?? selectedSubcategory
       : selectedSubcategory]; the empty string is a falsy label. *)
Definition infoSubcategory
    (selectedSubcats : list (Allocated BudgetNode))
    (selectedSubcategory : option (Allocated BudgetNode))
    (hoveredSubcategoryLabel : option string) : option (Allocated BudgetNode) :=
  match hoveredSubcategoryLabel with
  | None | Some EmptyString => selectedSubcategory
  | Some h =>
      match find (fun s => bool_decide (label s = h)) selectedSubcats with
      | Some s => Some s
      | None => selectedSubcategory
      end
  end.

(** [{ ps, otps, psDollars, otpsDollars }] *)
Record PsOtpsInfo : Type := mkPsOtpsInfo {
  info_ps : R;
  info_otps : R;
  psDollars : R;
  otpsDollars : R
}.

(** [items.find((x) => x.label === l)?.norm ?? 0] *)
Definition normOfLabel (items : list (Normed BudgetNode)) (l : string) : R :=
  default 0 (norm <$> find (fun x => bool_decide (label x = l)) items).

Definition infoPSOTPS (infoSubcategory : option (Allocated BudgetNode))
    : option PsOtpsInfo :=
  match infoSubcategory with
  | None => None
  | Some info =>
      if hasLength (node_children (source info)) then
        let items :=
          nw_items (normalizeWeights (default [] (node_children (source info)))) in
        let ps := normOfLabel items "Personal Services" in
        let otps := normOfLabel items "Other Than Personal Services" in
        Some {| info_ps := ps; info_otps := otps;
                psDollars := dollars info * ps; otpsDollars := dollars info * otps |}
      else None
  end.

(** ** Donut *)

(** [(cx, cy, rOuter, rInner, start, end)]: the same four corners and two arcs
    as the first revision's [donutSegmentPath]. *)
Definition pathForArc (cx cy rOuter rInner start stop : R) : list PathCommand :=
  let toXY := fun r a : R =>
    let rad := PI / 180 * a in
    {| px := cx + r * cos rad; py := cy + r * sin rad |} in
  let p1 := toXY rOuter start in
  let p2 := toXY rOuter stop in
  let p3 := toXY rInner stop in
  let p4 := toXY rInner start in
  let large := if Rgt_dec (stop - start) 180 then true else false in
  [MoveTo p1; ArcTo rOuter rOuter large true p2; LineTo p3;
   ArcTo rInner rInner large false p4; ClosePath].

(** [activeLabel ? (activeLabel === it.label ? "active" : "dim") : ""] *)
Inductive SliceClass : Set :=
  | NoHighlight
  | Active
  | Dim.

Definition sliceClass (activeLabel : option string) (l : string) : SliceClass :=
  match activeLabel with
  | None | Some EmptyString => NoHighlight
  | Some a => if bool_decide (a = l) then Active else Dim
  end.

(** What [Donut] draws for one item. *)
Record Slice : Type := mkSlice {
  sl_label : string;
  sl_angle : R;
  sl_start : R;
  sl_end : R;
  sl_mid : R;
  sl_tx : R;
  sl_ty : R;
  sl_pct : R;
  sl_path : list PathCommand;
  sl_fill : option string;
  sl_class : SliceClass;
  sl_showPct : bool
}.

#[global] Instance Slice_labelled : Labelled Slice := sl_label.

Definition donutSize : R := 420.
Definition donutOuter : R := 180.
Definition donutInner : R := 128.

(** [Math.max(1, items.reduce((a, b) => a + Math.max(0, b.value), 0))] *)
Definition donutTotal (items : list RingItem) : R :=
  Rmax 1 (fold_left (fun a b => a + Rmax 0 (value b)) items 0).

Definition donutSlice (total : R) (activeLabel : option string) (acc : R)
    (it : RingItem) : Slice :=
  let cx := donutSize / 2 in
  let cy := donutSize / 2 in
  let angle := Rmax 0 (value it) / total * 360 in
  let start := acc in
  let stop := acc + angle in
  let mid := start + angle / 2 in
  let rad := PI / 180 * mid in
  let tx := cx + (donutOuter + donutInner) / 2 * cos rad in
  let ty := cy + (donutOuter + donutInner) / 2 * sin rad in
  let pct := value it / total * 100 in
  {| sl_label := ring_label it;
     sl_angle := angle;
     sl_start := start;
     sl_end := stop;
     sl_mid := mid;
     sl_tx := tx;
     sl_ty := ty;
     sl_pct := pct;
     sl_path := pathForArc cx cy donutOuter donutInner start stop;
     sl_fill := color it;
     sl_class := sliceClass activeLabel (ring_label it);
     sl_showPct := bool_decide (pct >= 4) |}.

(** [items.map]; [acc] is its cursor, set to the end of each slice. *)
Fixpoint donutSlices (total : R) (activeLabel : option string) (acc : R)
    (items : list RingItem) : list Slice :=
  match items with
  | [] => []
  | it :: rest =>
      let s := donutSlice total activeLabel acc it in
      s :: donutSlices total activeLabel (sl_end s) rest
  end.

Definition Donut (items : list RingItem) (activeLabel : option string) : list Slice :=
  donutSlices (donutTotal items) activeLabel (-90) items.

(** ** Page *)

Record PageState : Type := mkPageState {
  income : R;
  unlockedLevel : nat;
  selectedCategoryId : option string;
  selectedSubcategoryLabel : option string;
  hoveredSubcategoryLabel : option string
}.

(** [useState] initial values. *)
Definition initialState : PageState :=
  {| income := 0; unlockedLevel := 0; selectedCategoryId := None;
     selectedSubcategoryLabel := None; hoveredSubcategoryLabel := None |}.

Definition setIncome (v : R) (st : PageState) : PageState :=
  {| income := v; unlockedLevel := unlockedLevel st;
     selectedCategoryId := selectedCategoryId st;
     selectedSubcategoryLabel := selectedSubcategoryLabel st;
     hoveredSubcategoryLabel := hoveredSubcategoryLabel st |}.

Definition setUnlockedLevel (v : nat) (st : PageState) : PageState :=
  {| income := income st; unlockedLevel := v;
     selectedCategoryId := selectedCategoryId st;
     selectedSubcategoryLabel := selectedSubcategoryLabel st;
     hoveredSubcategoryLabel := hoveredSubcategoryLabel st |}.

Definition setSelectedCategoryId (v : option string) (st : PageState) : PageState :=
  {| income := income st; unlockedLevel := unlockedLevel st;
     selectedCategoryId := v;
     selectedSubcategoryLabel := selectedSubcategoryLabel st;
     hoveredSubcategoryLabel := hoveredSubcategoryLabel st |}.

Definition setSelectedSubcategoryLabel (v : option string) (st : PageState) : PageState :=
  {| income := income st; unlockedLevel := unlockedLevel st;
     selectedCategoryId := selectedCategoryId st;
     selectedSubcategoryLabel := v;
     hoveredSubcategoryLabel := hoveredSubcategoryLabel st |}.

Definition setHoveredSubcategoryLabel (v : option string) (st : PageState) : PageState :=
  {| income := income st; unlockedLevel := unlockedLevel st;
     selectedCategoryId := selectedCategoryId st;
     selectedSubcategoryLabel := selectedSubcategoryLabel st;
     hoveredSubcategoryLabel := v |}.

(** The values [Page] derives from its state on every render. *)
Definition pageNycTax (st : PageState) : R := nycTax (pageTax (income st)).

Definition pageCategoryAlloc (st : PageState) : list (Allocated Category) :=
  categoryAlloc (pageNycTax st).

Definition pageSelectedCategory (st : PageState) : option (Allocated Category) :=
  selectedCategory (pageCategoryAlloc st) (selectedCategoryId st).

Definition pageSelectedSubcats (st : PageState) : list (Allocated BudgetNode) :=
  selectedSubcats (pageSelectedCategory st).

Definition pageSelectedSubcategory (st : PageState) : option (Allocated BudgetNode) :=
  selectedSubcategory (pageSelectedSubcats st) (selectedSubcategoryLabel st).

Definition pageInfoSubcategory (st : PageState) : option (Allocated BudgetNode) :=
  infoSubcategory (pageSelectedSubcats st) (pageSelectedSubcategory st)
    (hoveredSubcategoryLabel st).

Definition pageInfoPSOTPS (st : PageState) : option PsOtpsInfo :=
  infoPSOTPS (pageInfoSubcategory st).

Definition colors : list string :=
  ["#1f1f1f"; "#4aa7d8"; "#e36a2e"; "#6c7a89"; "#9c7a3f"; "#4a6b60"; "#b8695b";
   "#7a6f9f"; "#9bb3a6"; "#b5a27f"; "#546b9a"; "#a96f86"].

(** [{ label, value: dollars, color: colors[i % colors.length] }] *)
Definition ringItems {T : Type} `{Labelled T} (l : list (Allocated T)) : list RingItem :=
  imap (fun i c => {| ring_label := label c; value := dollars c;
                      color := colors !! (i mod length colors)%nat |}) l.

Definition categoryItems (st : PageState) : list RingItem :=
  ringItems (pageCategoryAlloc st).

Definition subItems (st : PageState) : list RingItem :=
  ringItems (pageSelectedSubcats st).

Definition hasIncome (st : PageState) : bool := bool_decide (income st > 0).

(** [hasIncome && unlockedLevel >= 1 && !selectedCategory]: the category
    donut and its legend are on screen. *)
Definition categoryViewShown (st : PageState) : bool :=
  hasIncome st && (1 <=? unlockedLevel st)%nat &&
  negb (bool_decide (is_Some (pageSelectedCategory st))).

(** [hasIncome && selectedCategory]: the subcategory donut, its legend and
    the hover card are on screen. *)
Definition subViewShown (st : PageState) : bool :=
  hasIncome st && bool_decide (is_Some (pageSelectedCategory st)).

(** [unlockedLevel >= 1]: the tax card is on screen. *)
Definition taxCardShown (st : PageState) : bool := (1 <=? unlockedLevel st)%nat.

(** [hoveredSubcategoryLabel || selectedSubcategoryLabel], the [activeLabel]
    of the subcategory donut. *)
Definition subActiveLabel (st : PageState) : option string :=
  match hoveredSubcategoryLabel st with
  | None | Some EmptyString => selectedSubcategoryLabel st
  | Some h => Some h
  end.

Definition categoryDonut (st : PageState) : list Slice :=
  Donut (categoryItems st) None.

Definition subDonut (st : PageState) : list Slice :=
  Donut (subItems st) (subActiveLabel st).

(** A legend row: the item and the percentage printed beside it. *)
Record LegendRow : Type := mkLegendRow {
  row_item : RingItem;
  row_pct : R
}.

(** [.slice().sort((a, b) => b.value - a.value)] *)
Definition byValueDesc (a b : RingItem) : R := value b - value a.

(** [(it.value / Math.max(1, nycTax)) * 100] beside each category. *)
Definition categoryLegend (st : PageState) : list LegendRow :=
  map (fun it => {| row_item := it;
                    row_pct := value it / Rmax 1 (pageNycTax st) * 100 |})
      (sortBy byValueDesc (categoryItems st)).

(** [(it.value / Math.max(1, selectedCategory.dollars ?? 1)) * 100] beside
    each subcategory; the legend is rendered only with a selected category. *)
Definition subLegend (st : PageState) : list LegendRow :=
  match pageSelectedCategory st with
  | None => []
  | Some sel =>
      map (fun it => {| row_item := it;
                        row_pct := value it / Rmax 1 (dollars sel) * 100 |})
          (sortBy byValueDesc (subItems st))
  end.

(** What the user can do to the page. *)
Inductive Action : Type :=
  | ClickIncomeCard
  | ChangeIncome (text : string)
  | ClickCategory (l : string)          (* a slice or legend row of the category donut *)
  | ClickSubcategory (l : string)       (* a slice or legend row of the subcategory donut *)
  | EnterSubcategoryRow (l : string)    (* the pointer enters a subcategory legend row *)
  | LeaveSubcategoryRow (l : string).   (* the pointer leaves it *)

(** The event handlers, as written in the JSX. *)
Definition handle (st : PageState) (a : Action) : PageState :=
  match a with
  | ClickIncomeCard => setUnlockedLevel 2 st
  | ChangeIncome text => setIncome (incomeOfInput text) st
  | ClickCategory l =>
      match find (fun x => bool_decide (label x = l)) (pageCategoryAlloc st) with
      | None => st
      | Some c =>
          setHoveredSubcategoryLabel None
            (setSelectedSubcategoryLabel None
               (setSelectedCategoryId (Some (id (source c))) st))
      end
  | ClickSubcategory l => setSelectedSubcategoryLabel (Some l) st
  | EnterSubcategoryRow l => setHoveredSubcategoryLabel (Some l) st
  | LeaveSubcategoryRow _ => setHoveredSubcategoryLabel None st
  end.

(** Whether the element that carries the handler is on screen; a slice or
    legend row carries the label of one of the donut's items. *)
Definition rendered (st : PageState) (a : Action) : bool :=
  match a with
  | ClickIncomeCard | ChangeIncome _ => true
  | ClickCategory l =>
      categoryViewShown st && bool_decide (l ∈ map label (categoryItems st))
  | ClickSubcategory l | EnterSubcategoryRow l | LeaveSubcategoryRow l =>
      subViewShown st && bool_decide (l ∈ map label (subItems st))
  end.

(** One user action. *)
Definition step (st : PageState) (a : Action) : PageState :=
  if rendered st a then handle st a else st.

Definition run (st : PageState) (actions : list Action) : PageState :=
  fold_left step actions st.

(** The category of the dataset with a given id. *)
Definition categoryById (cid : option string) : option Category :=
  find (fun c => bool_decide (Some (id c) = cid)) CATEGORIES.

(** The allocation [categoryAlloc] makes for one category. *)
Definition allocOf (tax : R) (c : Category) : Allocated Category :=
  {| normed := {| item := c; norm := normOf (weightSum CATEGORIES) (weight c) |};
     dollars := tax * normOf (weightSum CATEGORIES) (weight c) |}.

(** What holds of the state after every run of user actions. *)
Definition coherent (st : PageState) : Prop :=
  0 <= income st /\
  (unlockedLevel st = 0%nat \/ unlockedLevel st = 2%nat) /\
  (selectedCategoryId st <> None ->
     unlockedLevel st = 2%nat /\ is_Some (categoryById (selectedCategoryId st))) /\
  (forall l : string,
     selectedSubcategoryLabel st = Some l \/ hoveredSubcategoryLabel st = Some l ->
     exists cat ch,
       categoryById (selectedCategoryId st) = Some cat /\
       children cat = Some ch /\ In l (map label ch)).


(** An income of 50,000 entered, the income card clicked, Human Services
    chosen and the pointer on the row of the Department of Homeless
    Services. *)
Definition hoveringHomelessServices : PageState :=
  {| income := 50000; unlockedLevel := 2;
     selectedCategoryId := Some "human_services";
     selectedSubcategoryLabel := None;
     hoveredSubcategoryLabel := Some "Department of Homeless Services" |}.

(** An income of 50,000 entered, the income card clicked and the Human
    Services slice clicked. *)
Definition humanServicesChosen : list Action :=
  [ChangeIncome "50000"; ClickIncomeCard; ClickCategory "Human Services"].

End Rev2.
(* ================================================================== *)
(** * Theorems *)

Ltac case_Rle :=
  repeat match goal with
  | |- context [Rle_dec ?a ?b] => destruct (Rle_dec a b)
  | H : context [Rle_dec ?a ?b] |- _ => destruct (Rle_dec a b)
  end.

Lemma clamp0_nonneg (n : R) : 0 <= clamp0 n.
Proof. unfold clamp0. apply Rmax_l. Qed.

Lemma clamp0_of_nonpos (n : R) : n <= 0 -> clamp0 n = 0.
Proof. intros H. unfold clamp0. now apply Rmax_left. Qed.

Lemma clamp0_of_nonneg (n : R) : 0 <= n -> clamp0 n = n.
Proof. intros H. unfold clamp0. now apply Rmax_right. Qed.

Lemma schedule_nonneg (x : R) (fs : FilingStatus) :
  0 <= x -> 0 <= computeNYCResidentTaxRateSchedule x fs.
Proof.
  intros Hx. unfold computeNYCResidentTaxRateSchedule. case_Rle; lra.
Qed.

Lemma schedule_at_zero (fs : FilingStatus) :
  computeNYCResidentTaxRateSchedule 0 fs = 0.
Proof. unfold computeNYCResidentTaxRateSchedule. case_Rle; lra. Qed.

Lemma schedule_by_bracket (x : R) (fs : FilingStatus) :
  computeNYCResidentTaxRateSchedule x fs =
  bracketBase (bracketIndex x) + bracketRate (bracketIndex x) * (x - bracketLower (bracketIndex x)).
Proof.
  unfold computeNYCResidentTaxRateSchedule, bracketIndex.
  case_Rle; simpl; lra.
Qed.

Lemma bracketIndex_le_3 (x : R) : (bracketIndex x <= 3)%nat.
Proof. unfold bracketIndex. case_Rle; lia. Qed.

Lemma schedule_lipschitz_in_bracket (x y : R) (fs : FilingStatus) :
  bracketIndex x = bracketIndex y ->
  Rabs (computeNYCResidentTaxRateSchedule x fs - computeNYCResidentTaxRateSchedule y fs)
  <= 0.03876 * Rabs (x - y).
Proof.
  unfold computeNYCResidentTaxRateSchedule, bracketIndex.
  case_Rle; intros E; try discriminate E; clear E; unfold Rabs; repeat destruct Rcase_abs; lra.
Qed.

Lemma schedule_monotone_in_bracket (x y : R) (fs : FilingStatus) :
  bracketIndex x = bracketIndex y -> x <= y ->
  computeNYCResidentTaxRateSchedule x fs <= computeNYCResidentTaxRateSchedule y fs.
Proof.
  unfold computeNYCResidentTaxRateSchedule, bracketIndex.
  case_Rle; intros E; try discriminate E; clear E; lra.
Qed.

Lemma schedule_dip_bound (x y : R) (fs : FilingStatus) :
  0 <= x -> x <= y ->
  computeNYCResidentTaxRateSchedule x fs <= computeNYCResidentTaxRateSchedule y fs + 0.36.
Proof.
  unfold computeNYCResidentTaxRateSchedule.
  case_Rle; lra.
Qed.

Lemma clamp0_monotone (a b : R) : a <= b -> clamp0 a <= clamp0 b.
Proof. intros H. unfold clamp0. apply Rle_max_compat_l, H. Qed.

Lemma clamp0_lipschitz (a b : R) : Rabs (clamp0 a - clamp0 b) <= Rabs (a - b).
Proof.
  unfold clamp0, Rmax. case_Rle; unfold Rabs; repeat destruct Rcase_abs; lra.
Qed.

Lemma breakpointGap_pos (x : R) :
  x <> 12000 -> x <> 25000 -> x <> 50000 -> 0 < breakpointGap x.
Proof.
  intros H1 H2 H3. unfold breakpointGap.
  repeat apply Rmin_glb_lt; apply Rabs_pos_lt; lra.
Qed.

Lemma bracketIndex_stable (x y : R) :
  Rabs (y - x) < breakpointGap x -> bracketIndex y = bracketIndex x.
Proof.
  unfold breakpointGap. intros H.
  assert (H1 : Rabs (y - x) < Rabs (x - 12000)).
  { eapply Rlt_le_trans; [exact H | apply Rmin_l]. }
  assert (H2 : Rabs (y - x) < Rabs (x - 25000)).
  { eapply Rlt_le_trans; [exact H |]. etransitivity; [apply Rmin_r | apply Rmin_l]. }
  assert (H3 : Rabs (y - x) < Rabs (x - 50000)).
  { eapply Rlt_le_trans; [exact H |]. etransitivity; [apply Rmin_r | apply Rmin_r]. }
  clear H. unfold bracketIndex.
  revert H1 H2 H3. unfold Rabs. repeat destruct Rcase_abs; intros; case_Rle; try reflexivity; lra.
Qed.

Lemma taxableOfIncome_eq (d : R) (fs : FilingStatus) (inc : R) :
  taxableOfIncome d fs inc = clamp0 (inc - d).
Proof. reflexivity. Qed.

Lemma taxOfIncome_eq (d : R) (fs : FilingStatus) (inc : R) :
  taxOfIncome d fs inc = computeNYCResidentTaxRateSchedule (clamp0 (inc - d)) fs.
Proof. reflexivity. Qed.

Lemma pageTax_eq (inc : R) :
  nycTax (pageTax inc) = taxOfIncome 8000 single inc.
Proof. reflexivity. Qed.

(** The worked example of the specification: an income of 50,000 has taxable
    income 42,000 and tax 858 + 0.03819 * 17,000 = 1,507.23. *)
Example pageTax_50000 :
  nycTaxableIncome (pageTax 50000) = 42000 /\ nycTax (pageTax 50000) = 1507.23.
Proof.
  unfold pageTax, computeNYCIncomeTax, DEFAULTS_nyStandardDeduction; simpl.
  rewrite clamp0_of_nonneg by lra.
  unfold computeNYCResidentTaxRateSchedule. split; [lra | case_Rle; lra].
Qed.

(** The schedule at its breakpoints: 0.36 and 0.06 above the next segment's
    base of 369 and 858, and 0.25 below the last one's base of 1,813. *)
Example schedule_at_breakpoints (fs : FilingStatus) :
  computeNYCResidentTaxRateSchedule 12000 fs = 369.36 /\
  computeNYCResidentTaxRateSchedule 25000 fs = 858.06 /\
  computeNYCResidentTaxRateSchedule 50000 fs = 1812.75.
Proof.
  unfold computeNYCResidentTaxRateSchedule.
  split; [| split]; case_Rle; lra.
Qed.

(** At and just above the first breakpoint (taxable 12,000). *)
Example pageTax_20000 : nycTax (pageTax 20000) = 369.36.
Proof.
  rewrite pageTax_eq, taxOfIncome_eq, clamp0_of_nonneg by lra.
  unfold computeNYCResidentTaxRateSchedule. case_Rle; lra.
Qed.

Example pageTax_20001 : nycTax (pageTax 20001) = 369.03762.
Proof.
  rewrite pageTax_eq, taxOfIncome_eq, clamp0_of_nonneg by lra.
  unfold computeNYCResidentTaxRateSchedule. case_Rle; lra.
Qed.

Lemma taxOfIncome_continuous_off_breakpoints (d : R) (fs : FilingStatus) (inc : R) :
  taxableOfIncome d fs inc <> 12000 ->
  taxableOfIncome d fs inc <> 25000 ->
  taxableOfIncome d fs inc <> 50000 ->
  continuity_pt (taxOfIncome d fs) inc.
Proof.
  intros H1 H2 H3.
  pose proof (breakpointGap_pos _ H1 H2 H3) as Hgap.
  rewrite taxableOfIncome_eq in Hgap.
  intros eps Heps. cbn [dist R_met Base]. unfold R_dist.
  exists (Rmin (breakpointGap (clamp0 (inc - d))) eps). split.
  { apply Rmin_glb_lt; lra. }
  intros x [_ Hx].
  assert (Hx1 : Rabs (x - inc) < breakpointGap (clamp0 (inc - d))).
  { eapply Rlt_le_trans; [exact Hx | apply Rmin_l]. }
  assert (Hx2 : Rabs (x - inc) < eps).
  { eapply Rlt_le_trans; [exact Hx | apply Rmin_r]. }
  pose proof (clamp0_lipschitz (x - d) (inc - d)) as Hc.
  replace (x - d - (inc - d)) with (x - inc) in Hc by lra.
  rewrite !taxOfIncome_eq.
  eapply Rle_lt_trans.
  { apply schedule_lipschitz_in_bracket, bracketIndex_stable. lra. }
  pose proof (Rabs_pos (clamp0 (x - d) - clamp0 (inc - d))). lra.
Qed.

(** C1, as stated, fails: at the first breakpoint (income 20,000, taxable
    12,000) the tax drops from 369.36 to 369 + 0.03762 per further dollar, so
    the tax is neither non-decreasing nor continuous in the income. *)
Lemma taxOfIncome_drops_at_first_breakpoint :
  20000 <= 20001 /\
  nycTax (pageTax 20001) < nycTax (pageTax 20000) /\
  ~ continuity_pt (fun inc => nycTax (pageTax inc)) 20000.
Proof.
  split; [lra |]. split.
  { rewrite pageTax_20000, pageTax_20001. lra. }
  intros Hc. destruct (Hc 0.1 ltac:(lra)) as (alp & Hpos & Hlim).
  cbn [dist R_met Base] in Hlim. unfold R_dist in Hlim.
  set (m := Rmin (alp / 2) 1).
  assert (Hm : 0 < m <= 1 /\ m < alp).
  { unfold m, Rmin. case_Rle; lra. }
  specialize (Hlim (20000 + m)).
  rewrite pageTax_20000 in Hlim.
  rewrite pageTax_eq, taxOfIncome_eq, clamp0_of_nonneg in Hlim by lra.
  unfold computeNYCResidentTaxRateSchedule in Hlim.
  assert (Hd : D_x no_cond 20000 (20000 + m) /\ Rabs (20000 + m - 20000) < alp).
  { split; [split; [exact I | lra] |]. unfold Rabs. destruct Rcase_abs; lra. }
  specialize (Hlim Hd). clear Hd.
  revert Hlim. case_Rle; unfold Rabs; destruct Rcase_abs; lra.
Qed.

(** C1 (amended): for every deduction and filing status the tax, as a function
    of the income, is piecewise linear in the taxable income
    [max 0 (income - deduction)] with exactly four segments, broken at the
    published thresholds 12,000, 25,000 and 50,000 and with the published
    bases 0, 369, 858, 1,813 and rates 3.078%, 3.762%, 3.819%, 3.876%; it is
    non-decreasing inside each segment, it never drops by more than 0.36
    between any two incomes, and it is continuous at every income whose
    taxable income is not one of the three breakpoints. *)
Theorem taxOfIncome_four_segments (d : R) (fs : FilingStatus) :
  (forall inc : R,
     taxableOfIncome d fs inc = Rmax 0 (inc - d) /\
     (taxableOfIncome d fs inc <= 12000 ->
        taxOfIncome d fs inc = 0.03078 * taxableOfIncome d fs inc) /\
     (12000 < taxableOfIncome d fs inc <= 25000 ->
        taxOfIncome d fs inc = 369 + 0.03762 * (taxableOfIncome d fs inc - 12000)) /\
     (25000 < taxableOfIncome d fs inc <= 50000 ->
        taxOfIncome d fs inc = 858 + 0.03819 * (taxableOfIncome d fs inc - 25000)) /\
     (50000 < taxableOfIncome d fs inc ->
        taxOfIncome d fs inc = 1813 + 0.03876 * (taxableOfIncome d fs inc - 50000))) /\
  (forall a b : R,
     a <= b ->
     bracketIndex (taxableOfIncome d fs a) = bracketIndex (taxableOfIncome d fs b) ->
     taxOfIncome d fs a <= taxOfIncome d fs b) /\
  (forall a b : R, a <= b -> taxOfIncome d fs a <= taxOfIncome d fs b + 0.36) /\
  (forall inc : R,
     taxableOfIncome d fs inc <> 12000 ->
     taxableOfIncome d fs inc <> 25000 ->
     taxableOfIncome d fs inc <> 50000 ->
     continuity_pt (taxOfIncome d fs) inc).
Proof.
  repeat split;
    try (intros H; rewrite taxOfIncome_eq, taxableOfIncome_eq in *;
         unfold computeNYCResidentTaxRateSchedule; case_Rle; lra).
  - intros a b Hab Hk. rewrite !taxOfIncome_eq. rewrite !taxableOfIncome_eq in Hk.
    apply schedule_monotone_in_bracket; [exact Hk |].
    apply clamp0_monotone. lra.
  - intros a b Hab. rewrite !taxOfIncome_eq.
    apply schedule_dip_bound; [apply clamp0_nonneg |].
    apply clamp0_monotone. lra.
  - intros inc. apply taxOfIncome_continuous_off_breakpoints.
Qed.

(** C5: for every income, deduction and filing status (negative incomes
    included) [computeNYCIncomeTax] reports the taxable income
    [max 0 (income - deduction)] and the rate schedule evaluated there; the
    tax is 0 whenever the income does not exceed the deduction; the page's
    deduction is 8000.  The function is total: no input is rejected. *)
Theorem computeNYCIncomeTax_clamps (p : TaxParams) :
  nycTaxableIncome (computeNYCIncomeTax p) = Rmax 0 (income p - nyStandardDeduction p) /\
  nycTax (computeNYCIncomeTax p) =
    computeNYCResidentTaxRateSchedule
      (Rmax 0 (income p - nyStandardDeduction p)) (filingStatus p) /\
  (income p <= nyStandardDeduction p -> nycTax (computeNYCIncomeTax p) = 0) /\
  DEFAULTS_nyStandardDeduction = 8000 /\
  (forall inc : R, inc <= 8000 -> nycTax (pageTax inc) = 0).
Proof.
  assert (Hz : forall q : TaxParams,
             income q <= nyStandardDeduction q -> nycTax (computeNYCIncomeTax q) = 0).
  { intros q Hq. unfold computeNYCIncomeTax; simpl.
    rewrite clamp0_of_nonpos by lra. apply schedule_at_zero. }
  repeat split.
  - apply Hz.
  - intros inc Hinc. apply (Hz (mkTaxParams inc single 8000)). simpl. exact Hinc.
Qed.

Lemma computeNYCIncomeTax_clamps_witness :
  nycTaxableIncome (computeNYCIncomeTax (mkTaxParams (-5000) married_joint 8000)) = 0 /\
  nycTax (computeNYCIncomeTax (mkTaxParams (-5000) married_joint 8000)) = 0.
Proof.
  destruct (computeNYCIncomeTax_clamps (mkTaxParams (-5000) married_joint 8000))
    as (Hx & _ & Ht & _).
  split.
  - rewrite Hx. simpl. apply Rmax_left. lra.
  - apply Ht. simpl. lra.
Defined.

(** C10: for every income, deduction and filing status the reported taxable
    income and the tax are both non-negative: the schedule is non-negative on
    non-negative arguments and the clamp only ever feeds it such arguments. *)
Theorem computeNYCIncomeTax_nonneg (p : TaxParams) :
  0 <= nycTaxableIncome (computeNYCIncomeTax p) /\
  0 <= nycTax (computeNYCIncomeTax p) /\
  (forall (x : R) (fs : FilingStatus),
     0 <= x -> 0 <= computeNYCResidentTaxRateSchedule x fs).
Proof.
  unfold computeNYCIncomeTax; simpl. repeat split.
  - apply clamp0_nonneg.
  - apply schedule_nonneg, clamp0_nonneg.
  - intros x fs. apply schedule_nonneg.
Qed.

Lemma computeNYCIncomeTax_nonneg_witness :
  0 <= nycTax (computeNYCIncomeTax (mkTaxParams (-5000) single 8000)) /\
  0 <= computeNYCResidentTaxRateSchedule 42000 single.
Proof.
  destruct (computeNYCIncomeTax_nonneg (mkTaxParams (-5000) single 8000))
    as (_ & Ht & Hs).
  split; [exact Ht | apply Hs; lra].
Defined.

(** ** AllocationTree *)

Lemma truthy_true (x : R) : x <> 0 -> truthy x = true.
Proof. intros H. unfold truthy. now apply bool_decide_eq_true. Qed.

Lemma truthy_false (x : R) : x = 0 -> truthy x = false.
Proof. intros H. unfold truthy. apply bool_decide_eq_false. tauto. Qed.

Section Sums.
Context {A : Type}.

Lemma fold_left_Rplus (f : A -> R) (l : list A) (a : R) :
  fold_left (fun acc b => acc + f b) l a = a + Rsum (map f l).
Proof.
  revert a. induction l as [| b l IH]; intros a; simpl; [lra |].
  rewrite IH. lra.
Qed.

Lemma Rsum_map_scale_l (c : R) (f : A -> R) (l : list A) :
  Rsum (map (fun x => c * f x) l) = c * Rsum (map f l).
Proof. induction l as [| b l IH]; simpl; [lra | rewrite IH; lra]. Qed.

Lemma Rsum_map_div (s : R) (f : A -> R) (l : list A) :
  Rsum (map (fun x => f x / s) l) = Rsum (map f l) / s.
Proof.
  induction l as [| b l IH]; simpl; [unfold Rdiv; lra |].
  rewrite IH. unfold Rdiv. lra.
Qed.

Lemma Rsum_map_nonneg (f : A -> R) (l : list A) :
  Forall (fun x => 0 <= f x) l -> 0 <= Rsum (map f l).
Proof.
  induction 1 as [| b l Hb _ IH]; simpl; lra.
Qed.

Lemma Rsum_map_bounds_member (f : A -> R) (l : list A) :
  Forall (fun x => 0 <= f x) l -> Forall (fun x => f x <= Rsum (map f l)) l.
Proof.
  induction 1 as [| b l Hb Hl IH]; simpl; constructor.
  - pose proof (Rsum_map_nonneg f l Hl). lra.
  - eapply Forall_impl; [exact IH |]. simpl. intros x Hx. lra.
Qed.
End Sums.

Section Normalize.
Context {T : Type} `{Weighted T}.

Lemma weightSum_eq (items : list T) : weightSum items = Rsum (map weight items).
Proof. unfold weightSum. rewrite fold_left_Rplus. lra. Qed.

Lemma nw_sum_eq (items : list T) :
  nw_sum (normalizeWeights items) = weightSum items.
Proof. reflexivity. Qed.

Lemma nw_items_item (items : list T) :
  map item (nw_items (normalizeWeights items)) = items.
Proof.
  unfold normalizeWeights; simpl. rewrite map_map; simpl. apply map_id.
Qed.

Lemma nw_items_norm (items : list T) :
  map norm (nw_items (normalizeWeights items)) =
  map (fun it => normOf (weightSum items) (weight it)) items.
Proof. unfold normalizeWeights; simpl. now rewrite map_map. Qed.

Lemma normOf_nonzero (s w : R) : s <> 0 -> normOf s w = w / s.
Proof. intros Hs. unfold normOf. now rewrite truthy_true. Qed.

Lemma normOf_zero (s w : R) : s = 0 -> normOf s w = 0.
Proof. intros Hs. unfold normOf. now rewrite truthy_false. Qed.

Lemma normOfChecked_finite (s w : R) : normOfChecked s w = Some (normOf s w).
Proof.
  unfold normOfChecked, normOf, truthy, finite_div.
  destruct (decide (s = 0)) as [Hs | Hs].
  - now rewrite bool_decide_eq_false_2 by tauto.
  - now rewrite bool_decide_eq_true_2.
Qed.

Lemma norms_sum_to_one (items : list T) :
  weightSum items <> 0 ->
  Rsum (map norm (nw_items (normalizeWeights items))) = 1.
Proof.
  intros Hs. rewrite nw_items_norm.
  rewrite (map_ext _ (fun it => weight it / weightSum items)).
  - rewrite Rsum_map_div, <- weightSum_eq. now field.
  - intros it. now apply normOf_nonzero.
Qed.

Lemma norms_all_zero (items : list T) :
  weightSum items = 0 ->
  Forall (fun n => norm n = 0) (nw_items (normalizeWeights items)).
Proof.
  intros Hs. unfold normalizeWeights; simpl.
  apply Forall_map, Forall_forall. intros it _. simpl. now apply normOf_zero.
Qed.

Lemma norms_in_unit_interval (items : list T) :
  0 < weightSum items ->
  Forall (fun it => 0 <= weight it) items ->
  Forall (fun n => 0 <= norm n <= 1) (nw_items (normalizeWeights items)).
Proof.
  intros Hs Hw. unfold normalizeWeights; simpl.
  apply Forall_map.
  pose proof (Rsum_map_bounds_member weight items Hw) as Hb.
  rewrite <- weightSum_eq in Hb.
  rewrite Forall_forall in Hw, Hb |- *.
  intros it Hit. simpl. rewrite normOf_nonzero by lra.
  specialize (Hw it Hit). specialize (Hb it Hit).
  split.
  - apply Rmult_le_pos; [exact Hw |]. left. now apply Rinv_0_lt_compat.
  - apply (Rmult_le_reg_r (weightSum items)); [exact Hs |].
    unfold Rdiv. rewrite Rmult_assoc, Rinv_l by lra. lra.
Qed.

(** Dollars handed to a sibling group: [parent * norm] for each member. *)
Lemma group_dollars_sum (items : list T) (parent : R) :
  weightSum items <> 0 ->
  Rsum (map (fun n => parent * norm n) (nw_items (normalizeWeights items))) = parent.
Proof.
  intros Hs. rewrite Rsum_map_scale_l, norms_sum_to_one by exact Hs. lra.
Qed.

Lemma group_dollars_zero (items : list T) (parent : R) :
  weightSum items = 0 ->
  Forall (fun n => parent * norm n = 0) (nw_items (normalizeWeights items)).
Proof.
  intros Hs. eapply Forall_impl; [apply norms_all_zero, Hs |].
  simpl. intros n Hn. rewrite Hn. lra.
Qed.
End Normalize.

(** C4: for every sibling group, [normalizeWeights] keeps the items in order
    and reports their weight sum; every fraction is a finite number (the only
    division is by a non-zero sum); if the sum is 0 every fraction is exactly
    0; if the sum is strictly positive the fractions sum to 1, and, when every
    weight is non-negative, each fraction lies in [0,1]. *)
Theorem normalizeWeights_fractions {T : Type} `{Weighted T} (items : list T) :
  nw_sum (normalizeWeights items) = Rsum (map weight items) /\
  map item (nw_items (normalizeWeights items)) = items /\
  Forall (fun n => normOfChecked (nw_sum (normalizeWeights items)) (weight (item n))
                   = Some (norm n))
         (nw_items (normalizeWeights items)) /\
  (nw_sum (normalizeWeights items) = 0 ->
     Forall (fun n => norm n = 0) (nw_items (normalizeWeights items))) /\
  (0 < nw_sum (normalizeWeights items) ->
     Rsum (map norm (nw_items (normalizeWeights items))) = 1) /\
  (0 < nw_sum (normalizeWeights items) ->
     Forall (fun it => 0 <= weight it) items ->
     Forall (fun n => 0 <= norm n <= 1) (nw_items (normalizeWeights items))).
Proof.
  rewrite nw_sum_eq. repeat apply conj.
  - apply weightSum_eq.
  - apply nw_items_item.
  - unfold normalizeWeights; simpl. apply Forall_map, Forall_forall.
    intros it _. simpl. apply normOfChecked_finite.
  - apply norms_all_zero.
  - intros Hs. apply norms_sum_to_one. lra.
  - apply norms_in_unit_interval.
Qed.

(** *** The shipped dataset *)

Lemma CATEGORIES_weightSum : weightSum CATEGORIES = 100.
Proof. unfold weightSum, CATEGORIES, weight, Category_weighted. simpl. lra. Qed.

Lemma CATEGORIES_children : Forall hasWeightedChildren CATEGORIES.
Proof.
  unfold CATEGORIES.
  repeat (apply Forall_cons; split;
          [ eexists _, _; split; [reflexivity |];
            unfold weightSum, weight, Subcategory_weighted; simpl; lra | ]).
  apply Forall_nil_2.
Qed.

Section Allocations.
Context {T : Type} (f : Normed T -> R).

Lemma map_source_alloc (l : list (Normed T)) :
  map source (map (fun n => {| normed := n; dollars := f n |}) l) = map item l.
Proof. rewrite map_map. reflexivity. Qed.

Lemma map_dollars_alloc (l : list (Normed T)) :
  map dollars (map (fun n => {| normed := n; dollars := f n |}) l) = map f l.
Proof. rewrite map_map. reflexivity. Qed.
End Allocations.

Lemma categoryAlloc_dollars (tax : R) :
  map dollars (categoryAlloc tax) =
  map (fun n => tax * norm n) (nw_items (normalizeWeights CATEGORIES)).
Proof. unfold categoryAlloc. apply map_dollars_alloc. Qed.

Lemma categoryAlloc_source (tax : R) :
  map source (categoryAlloc tax) = CATEGORIES.
Proof.
  unfold categoryAlloc. rewrite map_source_alloc. apply nw_items_item.
Qed.

Lemma categoryAlloc_total (tax : R) : Rsum (map dollars (categoryAlloc tax)) = tax.
Proof.
  rewrite categoryAlloc_dollars. apply group_dollars_sum.
  rewrite CATEGORIES_weightSum. lra.
Qed.

Lemma categoryAlloc_share (tax : R) :
  Forall (fun c => dollars c = tax * (weight c / 100)) (categoryAlloc tax).
Proof.
  unfold categoryAlloc. apply Forall_map, Forall_map, Forall_forall.
  intros c _. simpl. rewrite CATEGORIES_weightSum, normOf_nonzero by lra.
  reflexivity.
Qed.

Lemma selectedCategory_in (alloc : list (Allocated Category)) (cid : option string)
    (sel : Allocated Category) :
  selectedCategory alloc cid = Some sel ->
  In sel alloc /\ cid = Some (id (source sel)).
Proof.
  unfold selectedCategory. intros Hf. apply find_some in Hf as [Hin Hid].
  split; [exact Hin |]. apply bool_decide_eq_true_1 in Hid. now symmetry.
Qed.

Lemma selectedSubcats_cons (sel : Allocated Category) (sc : Subcategory)
    (ch : list Subcategory) :
  children (source sel) = Some (sc :: ch) ->
  selectedSubcats (Some sel) =
  Some (map (fun n => {| normed := n; dollars := dollars sel * norm n |})
            (nw_items (normalizeWeights (sc :: ch)))).
Proof. intros Hch. unfold selectedSubcats. now rewrite Hch. Qed.

Lemma selectedSubcats_Some (sel : Allocated Category) (subs : list (Allocated Subcategory)) :
  selectedSubcats (Some sel) = Some subs ->
  exists sc ch,
    children (source sel) = Some (sc :: ch) /\
    subs = map (fun n => {| normed := n; dollars := dollars sel * norm n |})
               (nw_items (normalizeWeights (sc :: ch))).
Proof.
  destruct (children (source sel)) as [[| sc ch] |] eqn:Hch.
  - unfold selectedSubcats. now rewrite Hch.
  - rewrite (selectedSubcats_cons sel sc ch Hch). intros Heq.
    exists sc, ch. split; [reflexivity |]. congruence.
  - unfold selectedSubcats. now rewrite Hch.
Qed.

(** C2, as stated, fails for a sibling group whose weights sum to 0: every
    child then receives 0 dollars, whatever the parent holds. *)
Lemma zero_weight_group_drops_dollars :
  exists subs : list (Allocated Subcategory),
    selectedSubcats (Some zeroWeightParent) = Some subs /\
    dollars zeroWeightParent = 100 /\
    Rsum (map dollars subs) = 0.
Proof.
  eexists. split; [reflexivity |]. split; [reflexivity |].
  cbn [map nw_items normalizeWeights dollars norm Rsum fold_right].
  assert (Hs : weightSum [mkSubcategory "a" 0; mkSubcategory "b" 0] = 0).
  { unfold weightSum, weight, Subcategory_weighted. simpl. lra. }
  rewrite Hs, !normOf_zero by reflexivity. lra.
Qed.

(** C2 (amended): for every tax amount the dollars of the top-level categories
    sum to the tax, each category receiving [tax * weight / 100]; for every
    category that can be selected, the dollars of its children sum to the
    category's dollars; and in general the children of a selected parent are
    its children in order, each holding [parent dollars * fraction], with a
    total equal to the parent's dollars whenever the children's weights do not
    sum to 0, and every child at 0 dollars when they do. *)
Theorem allocation_preserves_dollars :
  (forall tax : R,
     Rsum (map dollars (categoryAlloc tax)) = tax /\
     Forall (fun c => dollars c = tax * (weight c / 100)) (categoryAlloc tax)) /\
  (forall (tax : R) (cid : option string) (sel : Allocated Category),
     selectedCategory (categoryAlloc tax) cid = Some sel ->
     exists subs,
       selectedSubcats (Some sel) = Some subs /\
       Rsum (map dollars subs) = dollars sel) /\
  (forall (sel : Allocated Category) (subs : list (Allocated Subcategory)),
     selectedSubcats (Some sel) = Some subs ->
     children (source sel) = Some (map source subs) /\
     Forall (fun s => dollars s = dollars sel * norm (normed s)) subs /\
     (weightSum (map source subs) <> 0 -> Rsum (map dollars subs) = dollars sel) /\
     (weightSum (map source subs) = 0 -> Forall (fun s => dollars s = 0) subs)).
Proof.
  split; [| split].
  - intros tax. split; [apply categoryAlloc_total | apply categoryAlloc_share].
  - intros tax cid sel Hsel.
    apply selectedCategory_in in Hsel as [Hin _].
    assert (Hsrc : In (source sel) CATEGORIES).
    { rewrite <- (categoryAlloc_source tax). now apply in_map. }
    pose proof CATEGORIES_children as Hall. rewrite Forall_forall in Hall.
    apply list_elem_of_In, Hall in Hsrc. destruct Hsrc as (sc & ch & Hch & Hpos).
    eexists. split; [apply (selectedSubcats_cons sel sc ch Hch) |].
    rewrite map_dollars_alloc. apply group_dollars_sum. lra.
  - intros sel subs Hsubs.
    apply selectedSubcats_Some in Hsubs as (sc & ch & Hch & ->).
    rewrite map_source_alloc, nw_items_item, map_dollars_alloc.
    split; [exact Hch |]. split; [| split].
    + apply Forall_map, Forall_forall. now intros n _.
    + intros Hs. now apply group_dollars_sum.
    + intros Hs. apply Forall_map. now apply group_dollars_zero.
Qed.

(** ** RadialLayoutEngine *)

Section Walk.
Variables total cx cy ringMid startAngle : R.

Lemma walkSlices_length (items : list RingItem) (acc : R) :
  length (walkSlices total cx cy ringMid startAngle acc items) = length items.
Proof.
  revert acc. induction items as [| it rest IH]; intros acc; simpl; [reflexivity |].
  now rewrite IH.
Qed.

Lemma walkSlices_labels (items : list RingItem) (acc : R) :
  map (fun p => slice_label (snd p))
      (walkSlices total cx cy ringMid startAngle acc items) = map ring_label items.
Proof.
  revert acc. induction items as [| it rest IH]; intros acc; simpl; [reflexivity |].
  now rewrite IH.
Qed.

Lemma walkSlices_values (items : list RingItem) (acc : R) :
  map (fun p => slice_value (snd p))
      (walkSlices total cx cy ringMid startAngle acc items) = map value items.
Proof.
  revert acc. induction items as [| it rest IH]; intros acc; simpl; [reflexivity |].
  now rewrite IH.
Qed.

Lemma walkSlices_angles (items : list RingItem) (acc : R) :
  map angle (map fst (walkSlices total cx cy ringMid startAngle acc items)) =
  map (fun it => Rmax 0 (value it) / total * 360) items.
Proof.
  revert acc. induction items as [| it rest IH]; intros acc; simpl; [reflexivity |].
  now rewrite IH.
Qed.

Lemma walkSlices_chain (items : list RingItem) (acc cursor : R) :
  cursor = startAngle + acc ->
  spansChain cursor (map fst (walkSlices total cx cy ringMid startAngle acc items)).
Proof.
  revert acc cursor.
  induction items as [| it rest IH]; intros acc cursor Hc; simpl; [exact I |].
  split; [now symmetry |]. apply IH. lra.
Qed.

End Walk.

Lemma donutTotal_ge_1 (items : list RingItem) : 1 <= donutTotal items.
Proof. unfold donutTotal. apply Rmax_l. Qed.

Lemma clamped_values_sum (items : list RingItem) :
  Forall (fun it => 0 <= value it) items ->
  fold_left (fun a b => a + Rmax 0 (value b)) items 0 = Rsum (map value items).
Proof.
  intros Hnn. rewrite fold_left_Rplus, Rplus_0_l. f_equal.
  apply map_ext_in. intros it Hit.
  rewrite Forall_forall in Hnn. apply Rmax_right, Hnn, list_elem_of_In, Hit.
Qed.

Lemma donutTotal_large (items : list RingItem) :
  Forall (fun it => 0 <= value it) items ->
  1 <= Rsum (map value items) ->
  donutTotal items = Rsum (map value items).
Proof.
  intros Hnn HS. unfold donutTotal. rewrite clamped_values_sum by exact Hnn.
  now apply Rmax_right.
Qed.

Lemma donutTotal_small (items : list RingItem) :
  Forall (fun it => 0 <= value it) items ->
  Rsum (map value items) <= 1 ->
  donutTotal items = 1.
Proof.
  intros Hnn HS. unfold donutTotal. rewrite clamped_values_sum by exact Hnn.
  now apply Rmax_left.
Qed.

Lemma donutTrace_angles (items : list RingItem) (size thickness : R) (sa : option R) :
  map angle (map fst (donutTrace items size thickness sa)) =
  map (fun it => Rmax 0 (value it) / donutTotal items * 360) items.
Proof. unfold donutTrace. apply walkSlices_angles. Qed.

Lemma donutTrace_angles_nonneg (items : list RingItem) (size thickness : R)
    (sa : option R) :
  Forall (fun it => 0 <= value it) items ->
  map angle (map fst (donutTrace items size thickness sa)) =
  map (fun it => 360 * value it / donutTotal items) items.
Proof.
  intros Hnn. rewrite donutTrace_angles. apply map_ext_in. intros it Hit.
  rewrite Forall_forall in Hnn.
  rewrite Rmax_right by apply Hnn, list_elem_of_In, Hit.
  unfold Rdiv. lra.
Qed.

Lemma donutTrace_sweeps (items : list RingItem) (size thickness : R)
    (startAngle : option R) (t : R) :
  Forall (fun it => 0 <= value it) items ->
  donutTotal items = t ->
  Forall2 (fun it a => angle a = 360 * value it / t)
          items (map fst (donutTrace items size thickness startAngle)) /\
  Rsum (map angle (map fst (donutTrace items size thickness startAngle)))
    = 360 * Rsum (map value items) / t.
Proof.
  intros Hnn Ht. split.
  - assert (Hl : map angle (map fst (donutTrace items size thickness startAngle)) =
                 map (fun it => 360 * value it / t) items).
    { rewrite donutTrace_angles_nonneg, Ht by exact Hnn. reflexivity. }
    revert Hl. generalize (map fst (donutTrace items size thickness startAngle)).
    clear. induction items as [| it rest IH]; intros [| a l] Hl; try discriminate.
    + constructor.
    + injection Hl as Ha Hl. constructor; [exact Ha | now apply IH].
  - rewrite donutTrace_angles_nonneg, Ht by exact Hnn.
    rewrite (Rsum_map_div t (fun it => 360 * value it)), Rsum_map_scale_l.
    reflexivity.
Qed.

(** C3, as stated, fails when the values sum to less than 1: the divisor is
    floored at 1, so a lone slice of value 0.5 sweeps 180 degrees, not
    360 * 0.5 / 0.5 = 360, and the sweeps sum to 180. *)
Lemma computeDonutSlices_half_ring :
  0 <= 0.5 /\ 0 < 0.5 /\
  map angle (map fst (donutTrace [mkRingItem "a" 0.5 None] 360 26 None)) = [180] /\
  360 * 0.5 / 0.5 = 360.
Proof.
  split; [lra |]. split; [lra |]. split; [| lra].
  assert (Hnn : Forall (fun it => 0 <= value it) [mkRingItem "a" 0.5 None]).
  { repeat constructor. simpl. lra. }
  rewrite donutTrace_angles_nonneg by exact Hnn.
  rewrite donutTotal_small by (try exact Hnn; simpl; lra).
  simpl. f_equal. lra.
Qed.

(** C3 (amended): for every list of slices with non-negative values summing
    to S, [computeDonutSlices] keeps the input order, and the spans form a
    chain: the first starts at the start angle (-90 by default) and each next
    one where the previous ended.  When S >= 1, slice i sweeps 360 * v_i / S
    degrees and the sweeps sum to 360; when S <= 1 the divisor is floored at 1:
    slice i sweeps 360 * v_i degrees and the sweeps sum to 360 * S. *)
Theorem computeDonutSlices_sweeps (items : list RingItem) (size thickness : R)
    (startAngle : option R) :
  Forall (fun it => 0 <= value it) items ->
  length (computeDonutSlices items size thickness startAngle) = length items /\
  map label (computeDonutSlices items size thickness startAngle) = map label items /\
  map slice_value (computeDonutSlices items size thickness startAngle) = map value items /\
  spansChain (default (-90) startAngle)
             (map fst (donutTrace items size thickness startAngle)) /\
  (1 <= Rsum (map value items) ->
     Forall2 (fun it a => angle a = 360 * value it / Rsum (map value items))
             items (map fst (donutTrace items size thickness startAngle)) /\
     Rsum (map angle (map fst (donutTrace items size thickness startAngle))) = 360) /\
  (Rsum (map value items) <= 1 ->
     Forall2 (fun it a => angle a = 360 * value it)
             items (map fst (donutTrace items size thickness startAngle)) /\
     Rsum (map angle (map fst (donutTrace items size thickness startAngle)))
       = 360 * Rsum (map value items)).
Proof.
  intros Hnn. unfold computeDonutSlices.
  split; [rewrite length_map; apply walkSlices_length |].
  split; [rewrite map_map; apply walkSlices_labels |].
  split; [rewrite map_map; apply walkSlices_values |].
  split; [apply walkSlices_chain; lra |].
  split.
  - intros HS.
    destruct (donutTrace_sweeps items size thickness startAngle
                (Rsum (map value items)) Hnn) as [Ha Hs].
    + now apply donutTotal_large.
    + split; [exact Ha |]. rewrite Hs. field. lra.
  - intros HS.
    destruct (donutTrace_sweeps items size thickness startAngle 1 Hnn) as [Ha Hs].
    + now apply donutTotal_small.
    + split.
      * eapply Forall2_impl; [exact Ha |]. simpl. intros it a ->. field.
      * rewrite Hs. field.
Qed.

Lemma computeDonutSlices_sweeps_witness :
  Forall (fun it => 0 <= value it) quarterRing /\
  1 <= Rsum (map value quarterRing) /\
  spansChain (-90) (map fst (donutTrace quarterRing 360 26 None)) /\
  Rsum (map angle (map fst (donutTrace quarterRing 360 26 None))) = 360.
Proof.
  assert (Hnn : Forall (fun it => 0 <= value it) quarterRing).
  { unfold quarterRing. repeat constructor; simpl; lra. }
  assert (HS : 1 <= Rsum (map value quarterRing)).
  { unfold quarterRing. simpl. lra. }
  destruct (computeDonutSlices_sweeps quarterRing 360 26 None Hnn)
    as (_ & _ & _ & Hchain & Hbig & _).
  destruct (Hbig HS) as [_ Hsum].
  exact (conj Hnn (conj HS (conj Hchain Hsum))).
Defined.

(** ** LabelRailRouter *)

#[global] Instance byMidY_transitive : Transitive byMidY.
Proof. intros a b c. unfold byMidY. lra. Qed.

#[global] Instance byMidY_total : Total byMidY.
Proof. intros a b. unfold byMidY. lra. Qed.

Lemma sortByMidY_sorted (l : list DonutSlice) : StronglySorted byMidY (sortByMidY l).
Proof. unfold sortByMidY. apply StronglySorted_merge_sort; apply _. Qed.

Lemma sortByMidY_perm (l : list DonutSlice) : Permutation (sortByMidY l) l.
Proof. unfold sortByMidY. apply merge_sort_Permutation. Qed.

Lemma sortByMidY_In (l : list DonutSlice) (s : DonutSlice) :
  In s (sortByMidY l) <-> In s l.
Proof.
  split; apply Permutation_in; [| symmetry]; apply sortByMidY_perm.
Qed.


Lemma isRight_iff_cos (total cx cy ringMid : R) (it : RingItem) (a : SliceAngles) :
  isRight (sliceOf total cx cy ringMid it a) = true <-> 0 <= cos (radians a).
Proof.
  simpl. rewrite bool_decide_eq_true. split; lra.
Qed.

Example full_ring_boundary_goes_right :
  map (fun p => (midAngle (fst p), isRight (snd p)))
      (donutTrace [mkRingItem "all" 5 None] 360 26 None) = [(90, true)].
Proof.
  unfold donutTrace. cbn [walkSlices map fst snd sliceAngles sliceOf midAngle isRight radians].
  assert (Ht : donutTotal [mkRingItem "all" 5 None] = 5).
  { unfold donutTotal. simpl. rewrite (Rmax_right 0 5), Rmax_right by lra. lra. }
  rewrite Ht. cbn [value default]. rewrite (Rmax_right 0 5) by lra.
  replace (-90 + 0 + 5 / 5 * 360 / 2) with 90 by field.
  replace (PI / 180 * 90) with (PI / 2) by field.
  rewrite cos_PI2, bool_decide_eq_true_2 by lra. reflexivity.
Qed.

Section Measure.
Variables containerRect donutRect : DOMRect.
Variable labelRefs : gmap string (option DOMRect).

Lemma measureLines_mounted (slices : list DonutSlice) (lines : list ConnectorLine) :
  measureLines (Some containerRect) (Some donutRect) labelRefs slices lines =
  omap (connectorOf containerRect donutRect labelRefs) slices.
Proof. reflexivity. Qed.

Lemma omap_connectorOf_labels (slices : list DonutSlice) :
  map line_label (omap (connectorOf containerRect donutRect labelRefs) slices) =
  List.filter (measured labelRefs) (map label slices).
Proof.
  induction slices as [| s rest IH]; [reflexivity |].
  cbn [omap list_omap map List.filter]. unfold connectorOf at 1, measured at 1.
  destruct (labelEl labelRefs (label s)) as [r |]; simpl; now rewrite IH.
Qed.

Lemma omap_connectorOf_length (slices : list DonutSlice) :
  length (omap (connectorOf containerRect donutRect labelRefs) slices) =
  length (List.filter (fun s => measured labelRefs (label s)) slices).
Proof.
  induction slices as [| s rest IH]; [reflexivity |].
  cbn [omap list_omap List.filter]. unfold connectorOf at 1, measured at 1.
  destruct (labelEl labelRefs (label s)) as [r |]; simpl; now rewrite IH.
Qed.

Lemma omap_connectorOf_In (slices : list DonutSlice) (line : ConnectorLine) :
  In line (omap (connectorOf containerRect donutRect labelRefs) slices) <->
  exists s r, In s slices /\ labelEl labelRefs (label s) = Some r /\
              line = connectorFor containerRect donutRect r s.
Proof.
  induction slices as [| s rest IH]; cbn [omap list_omap].
  - split; [intros [] | intros (s & r & [] & _)].
  - unfold connectorOf at 1.
    destruct (labelEl labelRefs (label s)) as [r |] eqn:Hr.
    + simpl. rewrite IH. split.
      * intros [<- | (s' & r' & Hin & Hl & ->)]; [exists s, r | exists s', r']; auto.
      * intros (s' & r' & [<- | Hin] & Hl & ->).
        -- left. congruence.
        -- right. eauto.
    + rewrite IH. split.
      * intros (s' & r' & Hin & Hl & ->). exists s', r'. simpl. auto.
      * intros (s' & r' & [<- | Hin] & Hl & ->); [congruence | eauto].
Qed.
End Measure.

Lemma measureLines_unmounted (donutEl : option DOMRect)
    (labelRefs : gmap string (option DOMRect)) (slices : list DonutSlice)
    (lines : list ConnectorLine) :
  measureLines None donutEl labelRefs slices lines = lines /\
  measureLines donutEl None labelRefs slices lines = lines.
Proof. split; [reflexivity | now destruct donutEl]. Qed.

(** C9: with the container and the donut mounted, [measureLines] yields one
    connector per slice whose label is measured, in slice order, each computed
    from that label's rectangle; a slice whose label is missing from the
    measured set contributes no connector, and the connectors of the other
    slices are unaffected.  The function is total: nothing is raised. *)
Theorem measureLines_skips_missing_labels (containerRect donutRect : DOMRect)
    (labelRefs : gmap string (option DOMRect)) (slices : list DonutSlice)
    (lines : list ConnectorLine) :
  map label (measureLines (Some containerRect) (Some donutRect) labelRefs slices lines)
    = List.filter (measured labelRefs) (map label slices) /\
  length (measureLines (Some containerRect) (Some donutRect) labelRefs slices lines)
    = length (List.filter (fun s => measured labelRefs (label s)) slices) /\
  (forall s : DonutSlice,
     In s slices -> labelEl labelRefs (label s) = None ->
     ~ In (label s)
          (map label
             (measureLines (Some containerRect) (Some donutRect) labelRefs slices lines))) /\
  (forall (s : DonutSlice) (r : DOMRect),
     In s slices -> labelEl labelRefs (label s) = Some r ->
     In (connectorFor containerRect donutRect r s)
        (measureLines (Some containerRect) (Some donutRect) labelRefs slices lines)) /\
  (forall line : ConnectorLine,
     In line (measureLines (Some containerRect) (Some donutRect) labelRefs slices lines) ->
     exists s r, In s slices /\ labelEl labelRefs (label s) = Some r /\
                 line = connectorFor containerRect donutRect r s).
Proof.
  rewrite measureLines_mounted.
  split; [apply omap_connectorOf_labels |].
  split; [apply omap_connectorOf_length |].
  split; [| split].
  - intros s Hin Hnone Hlab.
    change (map label) with (map line_label) in Hlab.
    rewrite omap_connectorOf_labels in Hlab.
    apply filter_In in Hlab as [_ Hm]. unfold measured in Hm.
    rewrite Hnone in Hm. discriminate.
  - intros s r Hin Hr. apply omap_connectorOf_In. eauto.
  - intros line Hline. now apply omap_connectorOf_In in Hline.
Qed.

(** ** DrillState *)

Lemma afterRender_unlockedLevel (prev next : PageState) :
  unlockedLevel (afterRender prev next) = unlockedLevel next.
Proof. unfold afterRender. now destruct decide. Qed.

Lemma afterRender_selectedCategoryId (prev next : PageState) :
  selectedCategoryId (afterRender prev next) = selectedCategoryId next.
Proof. unfold afterRender. now destruct decide. Qed.

Lemma afterRender_cleared (prev next : PageState) :
  selectedSubcategoryLabel next = None ->
  selectedSubcategoryLabel (afterRender prev next) = None.
Proof. unfold afterRender. now destruct decide. Qed.

Lemma afterRender_changed (prev next : PageState) :
  selectedCategoryId next <> selectedCategoryId prev ->
  selectedSubcategoryLabel (afterRender prev next) = None.
Proof. unfold afterRender. destruct decide; [congruence | reflexivity]. Qed.

Lemma afterRender_same (prev next : PageState) :
  selectedCategoryId prev = selectedCategoryId next -> afterRender prev next = next.
Proof. unfold afterRender. now destruct decide. Qed.

Lemma handle_unlockedLevel_le (st : PageState) (a : Action) :
  (unlockedLevel st <= 3)%nat ->
  isBackCrumb a = false -> (unlockedLevel st <= unlockedLevel (handle st a))%nat.
Proof.
  intros Hb. destruct a; cbn [handle isBackCrumb]; try discriminate; intros _;
    try (simpl; lia).
  - destruct (3 <=? unlockedLevel st)%nat eqn:E; simpl; [apply Nat.leb_le in E |]; lia.
  - destruct find; simpl; lia.
Qed.

Lemma handle_unlockedLevel_bound (st : PageState) (a : Action) :
  (unlockedLevel st <= 3)%nat -> (unlockedLevel (handle st a) <= 3)%nat.
Proof.
  intros Hb. destruct a; cbn [handle]; try (simpl; lia).
  - destruct (1 <=? unlockedLevel st)%nat; simpl; lia.
  - destruct (2 <=? unlockedLevel st)%nat; simpl; lia.
  - destruct (3 <=? unlockedLevel st)%nat; simpl; lia.
  - destruct find; simpl; lia.
Qed.

Lemma step_unfold (st : PageState) (a : Action) :
  step st a = st \/ step st a = afterRender st (handle st a).
Proof. unfold step. destruct rendered; auto. Qed.

Lemma step_crumb (st : PageState) (a : Action) :
  isBackCrumb a = true -> step st a = afterRender st (handle st a).
Proof. now destruct a. Qed.

(** C6 (amended): in a state whose unlocked level is one of 0, 1, 2, 3 (as in
    every state the page can reach), the level does not decrease under any
    user action other than the Income, Tax and Allocation breadcrumbs.  The Income
    breadcrumb (the full reset) sets it to 0 and clears the selected category
    and subcategory.  The Tax breadcrumb, when the level is at least 1, sets
    it to 1, and the Allocation breadcrumb, when the level is at least 2, sets
    it to 2, both clearing the two selections; below those levels they leave
    the state as it is. *)
Theorem unlockedLevel_steps (st : PageState) :
  (unlockedLevel st <= 3)%nat ->
  (forall a : Action,
     isBackCrumb a = false -> (unlockedLevel st <= unlockedLevel (step st a))%nat) /\
  (unlockedLevel (step st ClickIncomeCrumb) = 0%nat /\
   selectedCategoryId (step st ClickIncomeCrumb) = None /\
   selectedSubcategoryLabel (step st ClickIncomeCrumb) = None) /\
  ((1 <= unlockedLevel st)%nat ->
     unlockedLevel (step st ClickTaxCrumb) = 1%nat /\
     selectedCategoryId (step st ClickTaxCrumb) = None /\
     selectedSubcategoryLabel (step st ClickTaxCrumb) = None) /\
  ((unlockedLevel st < 1)%nat -> step st ClickTaxCrumb = st) /\
  ((2 <= unlockedLevel st)%nat ->
     unlockedLevel (step st ClickAllocationCrumb) = 2%nat /\
     selectedCategoryId (step st ClickAllocationCrumb) = None /\
     selectedSubcategoryLabel (step st ClickAllocationCrumb) = None) /\
  ((unlockedLevel st < 2)%nat -> step st ClickAllocationCrumb = st).
Proof.
  intros Hb. split; [| split; [| split; [| split; [| split]]]].
  - intros a Ha. destruct (step_unfold st a) as [-> | ->]; [lia |].
    rewrite afterRender_unlockedLevel. now apply handle_unlockedLevel_le.
  - rewrite step_crumb by reflexivity.
    rewrite afterRender_unlockedLevel, afterRender_selectedCategoryId.
    split; [reflexivity |]. split; [reflexivity |]. now apply afterRender_cleared.
  - intros Hl. rewrite step_crumb by reflexivity.
    rewrite afterRender_unlockedLevel, afterRender_selectedCategoryId.
    cbn [handle]. apply Nat.leb_le in Hl. rewrite Hl.
    split; [reflexivity |]. split; [reflexivity |].
    now apply afterRender_cleared.
  - intros Hl. rewrite step_crumb by reflexivity. cbn [handle].
    apply Nat.leb_gt in Hl. rewrite Hl. now apply afterRender_same.
  - intros Hl. rewrite step_crumb by reflexivity.
    rewrite afterRender_unlockedLevel, afterRender_selectedCategoryId.
    cbn [handle]. apply Nat.leb_le in Hl. rewrite Hl.
    split; [reflexivity |]. split; [reflexivity |].
    now apply afterRender_cleared.
  - intros Hl. rewrite step_crumb by reflexivity. cbn [handle].
    apply Nat.leb_gt in Hl. rewrite Hl. now apply afterRender_same.
Qed.

Lemma step_unlockedLevel_bound (st : PageState) (a : Action) :
  (unlockedLevel st <= 3)%nat -> (unlockedLevel (step st a) <= 3)%nat.
Proof.
  intros Hb. destruct (step_unfold st a) as [-> | ->]; [exact Hb |].
  rewrite afterRender_unlockedLevel. now apply handle_unlockedLevel_bound.
Qed.

(** Every state the page reaches from its initial state has an unlocked level
    among 0, 1, 2, 3. *)
Lemma run_unlockedLevel_bound (actions : list Action) (st : PageState) :
  (unlockedLevel st <= 3)%nat -> (unlockedLevel (run st actions) <= 3)%nat.
Proof.
  revert st. induction actions as [| a rest IH]; intros st Hb; simpl; [exact Hb |].
  apply IH. now apply step_unlockedLevel_bound.
Qed.

(** *** A run of the page *)

Lemma afterRender_idem (prev next : PageState) :
  selectedSubcategoryLabel next = None -> afterRender prev next = next.
Proof.
  intros Hn. unfold afterRender. destruct decide; [reflexivity |].
  destruct next; simpl in *. now subst.
Qed.

Lemma incomeOfInput_50000 : incomeOfInput "50000" = 50000.
Proof. reflexivity. Qed.

Lemma step_ChangeIncome (st : PageState) (text : string) :
  step st (ChangeIncome text) = setIncome (incomeOfInput text) st.
Proof. unfold step. cbn [rendered handle]. now apply afterRender_same. Qed.

Lemma step_ClickIncomeCard (st : PageState) :
  step st ClickIncomeCard = unlockTo 2 st.
Proof. unfold step. cbn [rendered handle]. now apply afterRender_same. Qed.

Lemma find_map {A B : Type} (f : A -> B) (p : B -> bool) (l : list A) :
  find p (map f l) = option_map f (find (fun x => p (f x)) l).
Proof.
  induction l as [| x l IH]; simpl; [reflexivity |].
  destruct (p (f x)); [reflexivity | exact IH].
Qed.

Lemma donutItems_labels {T : Type} `{Labelled T} (l : list (Allocated T)) :
  map label (donutItems l) = map label l.
Proof.
  unfold donutItems.
  set (g := fun (i : nat) (c : Allocated T) => _).
  assert (Hg : forall i c, label (g i c) = label c) by reflexivity.
  clearbody g. revert g Hg. induction l as [| c l IH]; intros g Hg; [reflexivity |].
  cbn [imap map]. rewrite Hg. f_equal. apply IH. intros i c'. apply Hg.
Qed.

Lemma categoryAlloc_labels (tax : R) :
  map label (categoryAlloc tax) = map label CATEGORIES.
Proof.
  unfold categoryAlloc, normalizeWeights. cbn [nw_items]. now rewrite !map_map.
Qed.

Lemma find_category_by_label (tax : R) (l : string) :
  find (fun x => bool_decide (label x = l)) (categoryAlloc tax) =
  option_map
    (fun c => {| normed := {| item := c; norm := normOf (weightSum CATEGORIES) (weight c) |};
                 dollars := tax * normOf (weightSum CATEGORIES) (weight c) |})
    (find (fun c => bool_decide (cat_label c = l)) CATEGORIES).
Proof.
  unfold categoryAlloc, normalizeWeights. cbn [nw_items].
  rewrite map_map, find_map. reflexivity.
Qed.

Lemma hasIncome_50000 (st : PageState) : st_income st = 50000 -> hasIncome st = true.
Proof. intros Hi. unfold hasIncome. rewrite Hi. apply bool_decide_eq_true_2. lra. Qed.

Lemma drilledIntoEducation_eq :
  drilledIntoEducation =
  {| st_income := 50000; unlockedLevel := 3; selectedCategoryId := Some "education";
     selectedSubcategoryLabel := None; showMethodology := false |}.
Proof.
  unfold drilledIntoEducation, run. cbn [fold_left].
  rewrite step_ChangeIncome, step_ClickIncomeCard, incomeOfInput_50000.
  set (s2 := unlockTo 2 (setIncome 50000 initialState)).
  assert (Hr : rendered s2 (ClickCategoryItem "Education") = true).
  { cbn [rendered]. apply andb_true_intro. split.
    - unfold categoryRingShown. now rewrite (hasIncome_50000 s2).
    - apply bool_decide_eq_true_2. unfold categoryDonutItems, pageCategoryAlloc.
      rewrite donutItems_labels, categoryAlloc_labels. apply list_elem_of_here. }
  unfold step. rewrite Hr. cbn [handle]. unfold pageCategoryAlloc.
  rewrite find_category_by_label.
  replace (find _ CATEGORIES) with (head CATEGORIES) by reflexivity.
  cbn [head CATEGORIES option_map source normed item id].
  now rewrite afterRender_idem.
Qed.

(** C6, as stated, fails: with Education drilled into (level 3), the Tax
    breadcrumb, which is not the full reset, lowers the level to 1. *)
Lemma tax_crumb_lowers_unlockedLevel :
  unlockedLevel drilledIntoEducation = 3%nat /\
  unlockedLevel (step drilledIntoEducation ClickTaxCrumb) = 1%nat /\
  ClickTaxCrumb <> ClickIncomeCrumb.
Proof.
  rewrite drilledIntoEducation_eq. split; [reflexivity |]. split; [| discriminate].
  rewrite step_crumb by reflexivity. now rewrite afterRender_unlockedLevel.
Qed.

Lemma unlockedLevel_steps_witness :
  (unlockedLevel drilledIntoEducation <= 3)%nat /\
  (unlockedLevel drilledIntoEducation
     <= unlockedLevel (step drilledIntoEducation (ClickSubcategoryItem "Debt payments")))%nat /\
  unlockedLevel (step drilledIntoEducation ClickAllocationCrumb) = 2%nat.
Proof.
  assert (Hb : (unlockedLevel drilledIntoEducation <= 3)%nat).
  { rewrite drilledIntoEducation_eq. simpl. lia. }
  destruct (unlockedLevel_steps drilledIntoEducation Hb) as (Hup & _ & _ & _ & Hal & _).
  split; [exact Hb |]. split.
  - apply Hup. reflexivity.
  - apply Hal. rewrite drilledIntoEducation_eq. simpl. lia.
Defined.

Lemma selectedSubcategory_sound (subs : option (list (Allocated Subcategory)))
    (lbl : option string) (sc : Allocated Subcategory) :
  selectedSubcategory subs lbl = Some sc ->
  exists l, subs = Some l /\ In sc l /\ lbl = Some (label sc).
Proof.
  unfold selectedSubcategory.
  destruct lbl as [[| c s] |]; try discriminate.
  destruct subs as [[| x l] |]; try discriminate.
  intros Hf. apply find_some in Hf as [Hin Hl].
  apply bool_decide_eq_true_1 in Hl. exists (x :: l). now rewrite Hl.
Qed.

Lemma selectedSubcategory_stale (subs : list (Allocated Subcategory)) (lbl : string) :
  ~ In lbl (map label subs) -> selectedSubcategory (Some subs) (Some lbl) = None.
Proof.
  intros Hstale.
  destruct (selectedSubcategory (Some subs) (Some lbl)) as [sc |] eqn:Hsel; [| reflexivity].
  apply selectedSubcategory_sound in Hsel as (l & [= <-] & Hin & [= ->]).
  exfalso. apply Hstale. now apply in_map.
Qed.

Lemma handle_clears_on_switch (st : PageState) (a : Action) :
  selectedCategoryId (handle st a) <> selectedCategoryId st ->
  selectedSubcategoryLabel (handle st a) = None.
Proof.
  destruct a; cbn [handle]; try (simpl; congruence).
  - destruct (1 <=? unlockedLevel st)%nat; [reflexivity | congruence].
  - destruct (2 <=? unlockedLevel st)%nat; [reflexivity | congruence].
  - destruct (3 <=? unlockedLevel st)%nat; simpl; congruence.
  - destruct find; [reflexivity | congruence].
Qed.

(** C7: whenever a user action changes the selected category, the selected
    subcategory label is cleared with it, whatever labels the new category
    has: the handlers that change the category clear the label themselves,
    and the effect on [selectedCategoryId] clears it again after the render.
    A selected label that none of the current subcategories carries (and any
    label while there are no subcategories) resolves to no subcategory; a
    resolved subcategory is always one of the current list and carries the
    selected label. *)
Theorem category_switch_clears_subcategory :
  (forall (st : PageState) (a : Action),
     selectedCategoryId (step st a) <> selectedCategoryId st ->
     selectedSubcategoryLabel (step st a) = None) /\
  (forall (st : PageState) (a : Action),
     selectedCategoryId (handle st a) <> selectedCategoryId st ->
     selectedSubcategoryLabel (handle st a) = None /\
     selectedSubcategoryLabel (afterRender st (handle st a)) = None) /\
  (forall (subs : list (Allocated Subcategory)) (lbl : string),
     ~ In lbl (map label subs) -> selectedSubcategory (Some subs) (Some lbl) = None) /\
  (forall lbl : option string, selectedSubcategory None lbl = None) /\
  (forall (subs : option (list (Allocated Subcategory))) (lbl : option string)
          (sc : Allocated Subcategory),
     selectedSubcategory subs lbl = Some sc ->
     exists l, subs = Some l /\ In sc l /\ lbl = Some (label sc)).
Proof.
  split; [| split; [| split; [| split]]].
  - intros st a Hch. destruct (step_unfold st a) as [E | E]; rewrite E in *.
    + congruence.
    + apply afterRender_changed. now rewrite afterRender_selectedCategoryId in Hch.
  - intros st a Hch. split; [now apply handle_clears_on_switch |].
    now apply afterRender_changed.
  - apply selectedSubcategory_stale.
  - intros [[| c s] |]; reflexivity.
  - apply selectedSubcategory_sound.
Qed.

(** *** The claims on concrete inputs *)

Lemma taxOfIncome_four_segments_witness :
  taxableOfIncome 8000 single 50000 = 42000 /\
  taxOfIncome 8000 single 50000 = 1507.23 /\
  continuity_pt (taxOfIncome 8000 single) 50000.
Proof.
  destruct (taxOfIncome_four_segments 8000 single) as (Hseg & _ & _ & Hcont).
  destruct (Hseg 50000) as (Hx & _ & _ & H3 & _).
  assert (Hx' : taxableOfIncome 8000 single 50000 = 42000).
  { rewrite Hx, Rmax_right by lra. lra. }
  split; [exact Hx' |]. split.
  - rewrite H3; rewrite Hx'; lra.
  - apply Hcont; rewrite Hx'; lra.
Defined.

Lemma normalizeWeights_fractions_witness :
  nw_sum (normalizeWeights oneAndThree) = 4 /\
  map norm (nw_items (normalizeWeights oneAndThree)) = [normOf 4 1; normOf 4 3] /\
  Rsum (map norm (nw_items (normalizeWeights oneAndThree))) = 1 /\
  Forall (fun n => 0 <= norm n <= 1) (nw_items (normalizeWeights oneAndThree)).
Proof.
  destruct (normalizeWeights_fractions oneAndThree) as (Hs & _ & _ & _ & Hone & Hunit).
  assert (Hsum : nw_sum (normalizeWeights oneAndThree) = 4).
  { rewrite Hs. unfold oneAndThree, weight, Subcategory_weighted. simpl. lra. }
  split; [exact Hsum |]. split.
  - rewrite nw_items_norm. rewrite nw_sum_eq in Hsum. rewrite Hsum. reflexivity.
  - split.
    + apply Hone. rewrite Hsum. lra.
    + apply Hunit; [rewrite Hsum; lra |].
      unfold oneAndThree, weight, Subcategory_weighted. repeat constructor; simpl; lra.
Defined.

Lemma selectedCategory_education (tax : R) :
  exists sel,
    selectedCategory (categoryAlloc tax) (Some "education") = Some sel /\
    label sel = "Education" /\ weight sel = 29.71.
Proof.
  unfold selectedCategory, categoryAlloc, normalizeWeights. cbn [nw_items].
  rewrite map_map, find_map.
  replace (find _ CATEGORIES) with (head CATEGORIES) by reflexivity.
  cbn [head CATEGORIES option_map]. eexists. split; [reflexivity |]. split; reflexivity.
Qed.

Lemma allocation_preserves_dollars_witness :
  Rsum (map dollars (categoryAlloc 1507.23)) = 1507.23 /\
  exists sel subs,
    selectedCategory (categoryAlloc 1507.23) (Some "education") = Some sel /\
    dollars sel = 1507.23 * (29.71 / 100) /\
    selectedSubcats (Some sel) = Some subs /\
    Rsum (map dollars subs) = dollars sel.
Proof.
  destruct allocation_preserves_dollars as (Htop & Hsub & _).
  destruct (Htop 1507.23) as [Htotal Hshare].
  split; [exact Htotal |].
  destruct (selectedCategory_education 1507.23) as (sel & Hsel & _ & Hw).
  destruct (Hsub 1507.23 (Some "education") sel Hsel) as (subs & Hsubs & Hsum).
  exists sel, subs. split; [exact Hsel |]. split; [| split; assumption].
  apply selectedCategory_in in Hsel as [Hin _].
  rewrite Forall_forall in Hshare. apply list_elem_of_In, Hshare in Hin.
  now rewrite Hin, Hw.
Defined.

Lemma find_pensions :
  option_map id
    (find (fun c => bool_decide (cat_label c = "City Employee Pensions")) CATEGORIES)
  = Some "pensions".
Proof. reflexivity. Qed.

Lemma handle_click_pensions :
  handle miscellaneousOther (ClickCategoryItem "City Employee Pensions") =
  {| st_income := 50000; unlockedLevel := 3; selectedCategoryId := Some "pensions";
     selectedSubcategoryLabel := None; showMethodology := false |}.
Proof.
  cbn [handle]. unfold pageCategoryAlloc. rewrite find_category_by_label.
  pose proof find_pensions as Hf.
  destruct (find _ CATEGORIES) as [c |]; [| discriminate Hf].
  cbn [option_map] in Hf |- *. injection Hf as Hf.
  unfold unlockTo, setUnlockedLevel, setSelectedSubcategoryLabel, setSelectedCategoryId,
    source, miscellaneousOther.
  cbn [normed item unlockedLevel st_income selectedCategoryId selectedSubcategoryLabel
       showMethodology Nat.max].
  now rewrite Hf.
Qed.

(** Miscellaneous and City Employee Pensions both have a child labelled
    "Other than personal service"; going from the one to the other leaves no
    subcategory selected. *)
Lemma category_switch_clears_subcategory_witness :
  selectedSubcategoryLabel miscellaneousOther = Some "Other than personal service" /\
  selectedCategoryId
    (afterRender miscellaneousOther
       (handle miscellaneousOther (ClickCategoryItem "City Employee Pensions")))
    = Some "pensions" /\
  selectedSubcategoryLabel
    (afterRender miscellaneousOther
       (handle miscellaneousOther (ClickCategoryItem "City Employee Pensions")))
    = None /\
  selectedSubcategoryLabel (step miscellaneousOther ClickAllocationCrumb) = None.
Proof.
  destruct category_switch_clears_subcategory as (Hstep & Hhandle & _).
  split; [reflexivity |]. split; [| split].
  - rewrite afterRender_selectedCategoryId. now rewrite handle_click_pensions.
  - apply Hhandle. now rewrite handle_click_pensions.
  - apply Hstep. rewrite step_crumb by reflexivity.
    rewrite afterRender_selectedCategoryId. discriminate.
Defined.

Lemma labelEl_onlyLabelA :
  labelEl onlyLabelA "a" = Some (mkDOMRect 0 40 120 30) /\ labelEl onlyLabelA "b" = None.
Proof.
  unfold labelEl, onlyLabelA. split.
  - now rewrite lookup_singleton_eq.
  - now rewrite lookup_singleton_ne.
Qed.

Lemma measureLines_skips_missing_labels_witness :
  map label
    (measureLines (Some (mkDOMRect 0 0 800 400)) (Some (mkDOMRect 220 20 360 360))
       onlyLabelA (computeDonutSlices quarterRing 360 26 None) []) = ["a"%string].
Proof.
  destruct (measureLines_skips_missing_labels
              (mkDOMRect 0 0 800 400) (mkDOMRect 220 20 360 360)
              onlyLabelA (computeDonutSlices quarterRing 360 26 None) [])
    as (Hlabels & _).
  rewrite Hlabels.
  destruct labelEl_onlyLabelA as [Ha Hb].
  unfold computeDonutSlices, donutTrace, quarterRing.
  cbn [walkSlices map snd sliceOf label DonutSlice_labelled slice_label ring_label
       List.filter].
  unfold measured. now rewrite Ha, Hb.
Defined.

(** *** The category ring of a small tax *)

Lemma donutItems_values {T : Type} `{Labelled T} (l : list (Allocated T)) :
  map value (donutItems l) = map dollars l.
Proof.
  unfold donutItems.
  set (g := fun (i : nat) (c : Allocated T) => _).
  assert (Hg : forall i c, value (g i c) = dollars c) by reflexivity.
  clearbody g. revert g Hg. induction l as [| c l IH]; intros g Hg; [reflexivity |].
  cbn [imap map]. rewrite Hg. f_equal. apply IH. intros i c'. apply Hg.
Qed.

Lemma CATEGORIES_weights_nonneg : Forall (fun c => 0 <= weight c) CATEGORIES.
Proof.
  unfold CATEGORIES, weight, Category_weighted.
  repeat (apply Forall_cons; split; [simpl; lra |]). apply Forall_nil_2.
Qed.

Lemma categoryAlloc_dollars_nonneg (tax : R) :
  0 <= tax -> Forall (fun d => 0 <= d) (map dollars (categoryAlloc tax)).
Proof.
  intros Ht. apply Forall_map. unfold categoryAlloc. apply Forall_map, Forall_map.
  eapply Forall_impl; [apply CATEGORIES_weights_nonneg |].
  intros c Hc. simpl. rewrite CATEGORIES_weightSum, normOf_nonzero by lra.
  apply Rmult_le_pos; [exact Ht |]. unfold Rdiv. lra.
Qed.

Lemma pageNycTax_oneTaxableDollar : pageNycTax oneTaxableDollar = 0.03078.
Proof.
  unfold pageNycTax, oneTaxableDollar. cbn [st_income].
  rewrite pageTax_eq, taxOfIncome_eq, clamp0_of_nonneg by lra.
  unfold computeNYCResidentTaxRateSchedule. case_Rle; lra.
Qed.

(** With one taxable dollar the tax is 3.078 cents, the category values sum
    to less than 1, and the category ring covers 11.0808 of its 360 degrees. *)
Example category_ring_of_small_tax :
  hasIncome oneTaxableDollar = true /\
  Rsum (map value (categoryDonutItems oneTaxableDollar)) = 0.03078 /\
  Rsum (map angle (map fst (donutTrace (categoryDonutItems oneTaxableDollar) 360 26 None)))
    = 11.0808.
Proof.
  assert (Hv : map value (categoryDonutItems oneTaxableDollar) =
               map dollars (categoryAlloc 0.03078)).
  { unfold categoryDonutItems, pageCategoryAlloc.
    now rewrite donutItems_values, pageNycTax_oneTaxableDollar. }
  assert (HS : Rsum (map value (categoryDonutItems oneTaxableDollar)) = 0.03078).
  { rewrite Hv. apply categoryAlloc_total. }
  assert (Hnn : Forall (fun it => 0 <= value it) (categoryDonutItems oneTaxableDollar)).
  { apply Forall_map. rewrite Hv. apply categoryAlloc_dollars_nonneg. lra. }
  split; [apply bool_decide_eq_true_2; simpl; lra |]. split; [exact HS |].
  destruct (donutTrace_sweeps (categoryDonutItems oneTaxableDollar) 360 26 None 1 Hnn)
    as [_ Hs].
  - apply donutTotal_small; [exact Hnn | lra].
  - rewrite Hs, HS. lra.
Qed.

(** *** Switching between categories that share a child label *)

Lemma selectedCategory_by_id (tax : R) (cid : string) :
  selectedCategory (categoryAlloc tax) (Some cid) =
  option_map
    (fun c => {| normed := {| item := c; norm := normOf (weightSum CATEGORIES) (weight c) |};
                 dollars := tax * normOf (weightSum CATEGORIES) (weight c) |})
    (find (fun c => bool_decide (Some (id c) = Some cid)) CATEGORIES).
Proof.
  unfold selectedCategory, categoryAlloc, normalizeWeights. cbn [nw_items].
  rewrite map_map, find_map. reflexivity.
Qed.

Lemma switchedToPensions_eq :
  switchedToPensions =
  {| st_income := 50000; unlockedLevel := 3; selectedCategoryId := Some "pensions";
     selectedSubcategoryLabel := None; showMethodology := false |}.
Proof.
  unfold switchedToPensions, run. cbn [fold_left].
  rewrite (step_crumb _ ClickAllocationCrumb) by reflexivity.
  cbn [handle miscellaneousOther unlockedLevel Nat.leb].
  rewrite afterRender_idem by reflexivity.
  set (s1 := setSelectedSubcategoryLabel None _).
  assert (Hr : rendered s1 (ClickCategoryItem "City Employee Pensions") = true).
  { cbn [rendered]. apply andb_true_intro. split.
    - unfold categoryRingShown. now rewrite (hasIncome_50000 s1).
    - apply bool_decide_eq_true_2. unfold categoryDonutItems, pageCategoryAlloc.
      rewrite donutItems_labels, categoryAlloc_labels.
      apply list_elem_of_In. unfold CATEGORIES. cbn [map label Category_labelled cat_label].
      do 4 right. now left. }
  unfold step. rewrite Hr. cbn [handle]. unfold pageCategoryAlloc.
  rewrite find_category_by_label.
  pose proof find_pensions as Hf.
  destruct (find _ CATEGORIES) as [c |]; [| discriminate Hf].
  cbn [option_map] in Hf |- *. injection Hf as Hf.
  rewrite afterRender_idem by reflexivity.
  unfold unlockTo, setUnlockedLevel, setSelectedSubcategoryLabel, setSelectedCategoryId,
    source, s1.
  cbn [normed item unlockedLevel st_income selectedCategoryId selectedSubcategoryLabel
       showMethodology Nat.max].
  now rewrite Hf.
Qed.

(** After the switch no subcategory is selected, although the new category
    has a child carrying the label that was selected before. *)
Example same_named_child_is_not_selected :
  selectedSubcategoryLabel miscellaneousOther = Some "Other than personal service" /\
  selectedCategoryId switchedToPensions = Some "pensions" /\
  selectedSubcategoryLabel switchedToPensions = None /\
  pageSelectedSubcategory switchedToPensions = None /\
  exists subs,
    pageSelectedSubcats switchedToPensions = Some subs /\
    In "Other than personal service" (map label subs).
Proof.
  rewrite switchedToPensions_eq.
  split; [reflexivity |]. split; [reflexivity |]. split; [reflexivity |].
  split; [reflexivity |].
  unfold pageSelectedSubcats, pageSelectedCategory, pageCategoryAlloc.
  cbn [selectedCategoryId]. rewrite selectedCategory_by_id.
  replace (find _ CATEGORIES) with (nth_error CATEGORIES 4) by reflexivity.
  cbn [nth_error CATEGORIES option_map].
  eexists. split; [reflexivity |].
  rewrite map_map. cbn [map nw_items normalizeWeights label Allocated_labelled
                        Normed_labelled Subcategory_labelled normed item sub_label].
  do 2 right. now left.
Qed.

(* ================================================================== *)
(** * Further properties of the code *)

(** ** TaxEngine: effective rate *)

(** X1: the tax never exceeds 3.876% (the top marginal rate) of the taxable
    income, and is never less than 3.078% of it by more than 0.36. *)
Theorem tax_between_bottom_and_top_rate (p : TaxParams) :
  nycTax (computeNYCIncomeTax p) <= 0.03876 * nycTaxableIncome (computeNYCIncomeTax p) /\
  0.03078 * nycTaxableIncome (computeNYCIncomeTax p) - 0.36 <= nycTax (computeNYCIncomeTax p).
Proof.
  unfold computeNYCIncomeTax. cbn [nycTax nycTaxableIncome].
  pose proof (clamp0_nonneg (income p - nyStandardDeduction p)) as Hx.
  revert Hx. generalize (clamp0 (income p - nyStandardDeduction p)). intros x Hx.
  unfold computeNYCResidentTaxRateSchedule. split; case_Rle; lra.
Qed.

(** ** AllocationTree: what the fractions do not depend on *)

Lemma Rsum_map_Rmult (k : R) (l : list R) : Rsum (map (Rmult k) l) = k * Rsum l.
Proof. induction l as [| x l IH]; simpl; [lra | rewrite IH; lra]. Qed.

Lemma normOf_scale (k s w : R) : k <> 0 -> normOf (k * s) (k * w) = normOf s w.
Proof.
  intros Hk. destruct (decide (s = 0)) as [-> | Hs].
  - rewrite Rmult_0_r, !normOf_zero by reflexivity. reflexivity.
  - rewrite !normOf_nonzero; [now field | exact Hs |].
    intros H0. apply Rmult_integral in H0. tauto.
Qed.

(** X2: the fractions of a sibling group depend only on the ratios of its
    weights: multiplying every weight by the same non-zero factor (a change
    of unit) leaves every fraction as it was. *)
Theorem normalizeWeights_scale_invariant {T U : Type} `{Weighted T} `{Weighted U}
    (k : R) (items : list T) (scaled : list U) :
  k <> 0 ->
  map weight scaled = map (Rmult k) (map weight items) ->
  map norm (nw_items (normalizeWeights scaled)) =
  map norm (nw_items (normalizeWeights items)).
Proof.
  intros Hk Hw. rewrite !nw_items_norm.
  assert (Hs : weightSum scaled = k * weightSum items).
  { rewrite !weightSum_eq, Hw. apply Rsum_map_Rmult. }
  rewrite Hs.
  rewrite <- (map_map weight (fun w => normOf (k * weightSum items) w) scaled), Hw.
  rewrite !map_map. apply map_ext. intros it. now apply normOf_scale.
Qed.

Lemma normalizeWeights_scale_invariant_witness :
  map norm (nw_items (normalizeWeights twoAndSix)) =
  map norm (nw_items (normalizeWeights oneAndThree)).
Proof.
  apply (normalizeWeights_scale_invariant 2 oneAndThree twoAndSix).
  - lra.
  - unfold twoAndSix, oneAndThree, weight, Subcategory_weighted. simpl.
    repeat f_equal; lra.
Defined.

Lemma Rsum_Permutation (l l' : list R) : Permutation l l' -> Rsum l = Rsum l'.
Proof.
  induction 1 as [| x l l' _ IH | x y l | l l' l'' _ IH1 _ IH2]; simpl; lra.
Qed.

(** X3: the order of the siblings does not matter: a reordered group has the
    same weight sum, and every item keeps its fraction. *)
Theorem normalizeWeights_order_invariant {T : Type} `{Weighted T}
    (items reordered : list T) :
  Permutation items reordered ->
  nw_sum (normalizeWeights reordered) = nw_sum (normalizeWeights items) /\
  Permutation (nw_items (normalizeWeights items)) (nw_items (normalizeWeights reordered)).
Proof.
  intros Hp.
  assert (Hs : weightSum reordered = weightSum items).
  { rewrite !weightSum_eq. symmetry. apply Rsum_Permutation. now apply Permutation_map. }
  split; [exact Hs |].
  unfold normalizeWeights. cbn [nw_items]. rewrite Hs. now apply Permutation_map.
Qed.

Lemma normalizeWeights_order_invariant_witness :
  Permutation (nw_items (normalizeWeights oneAndThree))
              (nw_items (normalizeWeights (rev oneAndThree))).
Proof.
  apply (normalizeWeights_order_invariant oneAndThree (rev oneAndThree)).
  apply Permutation_rev.
Defined.

(** ** RadialLayoutEngine: geometry of the slices *)

Lemma walkSlices_pcts (total cx cy ringMid startAngle : R) (items : list RingItem)
    (acc : R) :
  map pct (map snd (walkSlices total cx cy ringMid startAngle acc items)) =
  map (fun it => Rmax 0 (value it) / total * 100) items.
Proof.
  revert acc. induction items as [| it rest IH]; intros acc; simpl; [reflexivity |].
  now rewrite IH.
Qed.

Lemma clamped_le_total (it : RingItem) (rest : list RingItem) :
  0 <= Rmax 0 (value it) <= donutTotal (it :: rest).
Proof.
  split; [apply Rmax_l |].
  unfold donutTotal.
  apply Rle_trans with (fold_left (fun a b => a + Rmax 0 (value b)) (it :: rest) 0);
    [| apply Rmax_r].
  rewrite (fold_left_Rplus (fun b => Rmax 0 (value b))).
  assert (Hr : 0 <= Rsum (map (fun b => Rmax 0 (value b)) rest)).
  { apply Rsum_map_nonneg, Forall_forall. intros b _. apply Rmax_l. }
  unfold Rsum in *. cbn [map fold_right]. lra.
Qed.

Lemma donutTotal_pos (items : list RingItem) : 0 < donutTotal items.
Proof. pose proof (donutTotal_ge_1 items). lra. Qed.



(** X5: with the default start angle the first slice is always marked right,
    whatever the values are: its span starts at the top of the ring and
    sweeps at most the whole ring, so its mid angle lies between -90 and 90
    degrees. *)
Theorem first_slice_goes_right (it : RingItem) (rest : list RingItem)
    (size thickness : R) :
  exists s tl,
    computeDonutSlices (it :: rest) size thickness None = s :: tl /\
    label s = label it /\
    isRight s = true.
Proof.
  unfold computeDonutSlices, donutTrace. cbn [walkSlices map snd default].
  eexists _, _. split; [reflexivity |]. split; [reflexivity |].
  cbn [isRight sliceOf sliceAngles radians]. apply bool_decide_eq_true_2, Rle_ge.
  destruct (clamped_le_total it rest) as [H0 H1].
  pose proof (donutTotal_pos (it :: rest)) as Ht.
  set (v := Rmax 0 (value it)) in *. set (t := donutTotal (it :: rest)) in *.
  assert (Hq : 0 <= v / t <= 1).
  { split.
    - apply Rmult_le_pos; [exact H0 |]. left. now apply Rinv_0_lt_compat.
    - apply (Rmult_le_reg_r t); [exact Ht |].
      unfold Rdiv. rewrite Rmult_assoc, Rinv_l by lra. lra. }
  pose proof PI_RGT_0 as Hpi.
  apply cos_ge_0; nra.
Qed.

Section ZeroRing.
Variables total cx cy ringMid : R.

Lemma walkSlices_nonpositive (items : list RingItem) (acc : R) :
  acc = 0 ->
  Forall (fun it => value it <= 0) items ->
  Forall (fun p => angle (fst p) = 0 /\ pct (snd p) = 0 /\
                   midX (snd p) = cx /\ midY (snd p) = cy - ringMid /\
                   isRight (snd p) = true)
         (walkSlices total cx cy ringMid (-90) acc items).
Proof.
  revert acc. induction items as [| it rest IH]; intros acc Hacc Hnp; simpl.
  - apply Forall_nil_2.
  - apply Forall_cons in Hnp as [Hit Hrest].
    assert (Hv : Rmax 0 (value it) = 0) by now apply Rmax_left.
    assert (Ha : Rmax 0 (value it) / total * 360 = 0) by (rewrite Hv; unfold Rdiv; lra).
    apply Forall_cons. split.
    + cbn [fst snd angle pct midX midY isRight sliceOf sliceAngles radians clamped].
      rewrite Ha, Hv, Hacc.
      replace (PI / 180 * (-90 + 0 + 0 / 2)) with (- (PI / 2)) by field.
      rewrite cos_neg, sin_neg, cos_PI2, sin_PI2.
      repeat split; try (unfold Rdiv; lra).
      apply bool_decide_eq_true_2. lra.
    + apply IH; [| exact Hrest]. cbn [angle sliceAngles]. rewrite Ha, Hacc. lra.
Qed.
End ZeroRing.

(** X6: when no value is positive (a tax of zero), the ring is empty: every
    slice sweeps 0 degrees and shows 0 percent, but every item still gets a
    slice; all midpoints coincide at the top of the centre line, every label
    goes to the right rail and the left rail is empty. *)
Theorem nonpositive_values_give_empty_ring (items : list RingItem) (size thickness : R) :
  Forall (fun it => value it <= 0) items ->
  length (computeDonutSlices items size thickness None) = length items /\
  Forall (fun p => angle (fst p) = 0 /\ pct (snd p) = 0 /\
                   midX (snd p) = size / 2 /\
                   midY (snd p) = size / 2 - (size / 2 - RING_PADDING - thickness / 2) /\
                   isRight (snd p) = true)
         (donutTrace items size thickness None) /\
  leftItems (computeDonutSlices items size thickness None) = [].
Proof.
  intros Hnp.
  assert (Hall := walkSlices_nonpositive (donutTotal items) (size / 2) (size / 2)
                    (size / 2 - RING_PADDING - thickness / 2) items 0 eq_refl Hnp).
  split; [| split].
  - unfold computeDonutSlices, donutTrace. rewrite length_map. apply walkSlices_length.
  - exact Hall.
  - unfold leftItems, computeDonutSlices, donutTrace. cbn [default].
    replace (List.filter _ _) with (@nil DonutSlice); [reflexivity |].
    symmetry. revert Hall. generalize (walkSlices (donutTotal items) (size / 2) (size / 2)
               (size / 2 - RING_PADDING - thickness / 2) (-90) 0 items).
    intros l Hl. induction Hl as [| p l Hp _ IH]; [reflexivity |].
    cbn [map List.filter]. destruct Hp as (_ & _ & _ & _ & ->). exact IH.
Qed.

Lemma nonpositive_values_give_empty_ring_witness :
  length (computeDonutSlices emptyRing 360 26 None) = 2%nat /\
  leftItems (computeDonutSlices emptyRing 360 26 None) = [].
Proof.
  assert (Hnp : Forall (fun it => value it <= 0) emptyRing).
  { unfold emptyRing. repeat constructor; simpl; lra. }
  destruct (nonpositive_values_give_empty_ring emptyRing 360 26 Hnp) as (Hlen & _ & Hleft).
  split; [exact Hlen | exact Hleft].
Defined.

(** ** The category ring of the page *)

Lemma pageNycTax_nonneg (st : PageState) : 0 <= pageNycTax st.
Proof.
  unfold pageNycTax. rewrite pageTax_eq, taxOfIncome_eq.
  apply schedule_nonneg, clamp0_nonneg.
Qed.

Lemma pageNycTax_ge_1 (st : PageState) : 8033 <= st_income st -> 1 <= pageNycTax st.
Proof.
  intros Hi. unfold pageNycTax. rewrite pageTax_eq, taxOfIncome_eq.
  rewrite clamp0_of_nonneg by lra.
  unfold computeNYCResidentTaxRateSchedule. case_Rle; lra.
Qed.

Lemma pageNycTax_le_1 (st : PageState) : st_income st <= 8032 -> pageNycTax st <= 1.
Proof.
  intros Hi. unfold pageNycTax. rewrite pageTax_eq, taxOfIncome_eq.
  unfold clamp0, Rmax, computeNYCResidentTaxRateSchedule. case_Rle; lra.
Qed.

Lemma categoryAlloc_dollars_by_weight (tax : R) :
  map dollars (categoryAlloc tax) = map (fun c => tax * (weight c / 100)) CATEGORIES.
Proof.
  rewrite categoryAlloc_dollars.
  unfold normalizeWeights. cbn [nw_items]. rewrite map_map. cbn [norm].
  apply map_ext. intros c. now rewrite CATEGORIES_weightSum, normOf_nonzero by lra.
Qed.

Lemma computeDonutSlices_pcts_nonneg (items : list RingItem) (size thickness : R)
    (startAngle : option R) :
  Forall (fun it => 0 <= value it) items ->
  map pct (computeDonutSlices items size thickness startAngle) =
  map (fun v => v / donutTotal items * 100) (map value items).
Proof.
  intros Hnn. unfold computeDonutSlices, donutTrace. rewrite walkSlices_pcts, map_map.
  apply map_ext_in. intros it Hit. rewrite Forall_forall in Hnn.
  now rewrite Rmax_right by apply Hnn, list_elem_of_In, Hit.
Qed.

Lemma categoryDonutItems_facts (st : PageState) :
  map value (categoryDonutItems st) =
    map (fun c => pageNycTax st * (weight c / 100)) CATEGORIES /\
  Forall (fun it => 0 <= value it) (categoryDonutItems st) /\
  Rsum (map value (categoryDonutItems st)) = pageNycTax st.
Proof.
  assert (Hv : map value (categoryDonutItems st) = map dollars (categoryAlloc (pageNycTax st))).
  { unfold categoryDonutItems, pageCategoryAlloc. apply donutItems_values. }
  split; [| split].
  - rewrite Hv. apply categoryAlloc_dollars_by_weight.
  - apply Forall_map. rewrite Hv.
    apply categoryAlloc_dollars_nonneg, pageNycTax_nonneg.
  - rewrite Hv. apply categoryAlloc_total.
Qed.

(** X7: the percentages shown beside the category ring.  For an income of at
    least 8,033 (a tax of at least one dollar) every category shows its
    weight of the dataset, whatever the income; for an income of at most 8,032
    the divisor is floored at 1 and every category shows the tax in dollars
    times its weight instead. *)
Theorem category_ring_percentages (st : PageState) (size thickness : R)
    (startAngle : option R) :
  (8033 <= st_income st ->
     map pct (computeDonutSlices (categoryDonutItems st) size thickness startAngle) =
     map weight CATEGORIES) /\
  (st_income st <= 8032 ->
     map pct (computeDonutSlices (categoryDonutItems st) size thickness startAngle) =
     map (fun c => pageNycTax st * weight c) CATEGORIES).
Proof.
  destruct (categoryDonutItems_facts st) as (Hv & Hnn & HS).
  split; intros Hi.
  - apply pageNycTax_ge_1 in Hi.
    rewrite computeDonutSlices_pcts_nonneg by exact Hnn.
    rewrite donutTotal_large, HS, Hv, map_map by (try exact Hnn; rewrite ?HS; exact Hi).
    apply map_ext. intros c. field. lra.
  - apply pageNycTax_le_1 in Hi.
    rewrite computeDonutSlices_pcts_nonneg by exact Hnn.
    rewrite donutTotal_small, Hv, map_map by (try exact Hnn; rewrite ?HS; exact Hi).
    apply map_ext. intros c. field.
Qed.

Lemma category_ring_percentages_witness :
  8033 <= st_income fiftyThousand /\
  map pct (computeDonutSlices (categoryDonutItems fiftyThousand) 360 26 None) =
  map weight CATEGORIES /\
  st_income oneTaxableDollar <= 8032 /\
  map pct (computeDonutSlices (categoryDonutItems oneTaxableDollar) 360 26 None) =
  map (fun c => 0.03078 * weight c) CATEGORIES.
Proof.
  assert (H1 : 8033 <= st_income fiftyThousand) by (simpl; lra).
  assert (H2 : st_income oneTaxableDollar <= 8032) by (simpl; lra).
  split; [exact H1 |]. split.
  - apply (category_ring_percentages fiftyThousand 360 26 None). exact H1.
  - split; [exact H2 |]. rewrite <- pageNycTax_oneTaxableDollar.
    apply (category_ring_percentages oneTaxableDollar 360 26 None). exact H2.
Defined.

(** ** Sunburst *)

Section SunburstSlices.
Variables cx cy ringOuter ringInner total startAngle : R.
Variable showPercents : bool.
Variable ringIndex : nat.
Variable activeLabel : option string.

Lemma sunburstSlices_labels (items : list RingItem) (acc : R) :
  map label (sunburstSlices cx cy ringOuter ringInner total startAngle
               showPercents ringIndex activeLabel acc items) = map label items.
Proof.
  revert acc. induction items as [| it rest IH]; intros acc; simpl; [reflexivity |].
  now rewrite IH.
Qed.

Lemma sunburstSlices_angles (items : list RingItem) (acc : R) :
  map sb_angle (sunburstSlices cx cy ringOuter ringInner total startAngle
                  showPercents ringIndex activeLabel acc items) =
  map (fun it => Rmax 0 (value it) / total * 360) items.
Proof.
  revert acc. induction items as [| it rest IH]; intros acc; simpl; [reflexivity |].
  now rewrite IH.
Qed.

Lemma sunburstSlices_pcts (items : list RingItem) (acc : R) :
  map sb_pct (sunburstSlices cx cy ringOuter ringInner total startAngle
                showPercents ringIndex activeLabel acc items) =
  map (fun it => Rmax 0 (value it) / total * 100) items.
Proof.
  revert acc. induction items as [| it rest IH]; intros acc; simpl; [reflexivity |].
  now rewrite IH.
Qed.

Lemma sunburstSlices_tile (items : list RingItem) (acc cursor : R) :
  cursor = startAngle + acc ->
  spansTile cursor (sunburstSlices cx cy ringOuter ringInner total startAngle
                      showPercents ringIndex activeLabel acc items).
Proof.
  revert acc cursor.
  induction items as [| it rest IH]; intros acc cursor Hc; simpl; [exact I |].
  split; [now symmetry |]. split; [lra |]. split; [lra |]. apply IH. lra.
Qed.

Lemma sunburstSlices_largeArc (items : list RingItem) (acc : R) :
  map (fun s => pathLargeArc (sb_path s))
      (sunburstSlices cx cy ringOuter ringInner total startAngle
         showPercents ringIndex activeLabel acc items) =
  map (fun s => bool_decide (180 < sb_angle s))
      (sunburstSlices cx cy ringOuter ringInner total startAngle
         showPercents ringIndex activeLabel acc items).
Proof.
  revert acc. induction items as [| it rest IH]; intros acc; [reflexivity |].
  cbn [sunburstSlices map]. rewrite IH. f_equal.
  cbn [sb_path sb_angle sunburstSlice donutSegmentPath pathLargeArc].
  destruct Rle_dec as [Hle | Hgt].
  - symmetry. apply bool_decide_eq_false_2. lra.
  - symmetry. apply bool_decide_eq_true_2. lra.
Qed.

(** The label points are those of [computeDonutSlices]' walk with the same
    total, when the latter's mid radius is the mean of the ring's radii. *)
Lemma sunburstSlices_labelPoints (ringMid : R) (items : list RingItem) (acc : R) :
  (ringOuter + ringInner) / 2 = ringMid ->
  map sb_labelPoint (sunburstSlices cx cy ringOuter ringInner total startAngle
                       showPercents ringIndex activeLabel acc items) =
  map (fun p => mkPoint (midX (snd p)) (midY (snd p)))
      (walkSlices total cx cy ringMid startAngle acc items).
Proof.
  intros Hm. revert acc. induction items as [| it rest IH]; intros acc; [reflexivity |].
  cbn [sunburstSlices walkSlices map]. f_equal.
  - cbn [sb_labelPoint sunburstSlice polarToCartesian snd midX midY sliceOf
         sliceAngles radians]. now rewrite Hm.
  - apply IH.
Qed.
End SunburstSlices.

Lemma sunburstTotal_nonneg_values (items : list RingItem) :
  Forall (fun it => 0 <= value it) items -> sunburstTotal items = donutTotal items.
Proof.
  intros Hnn. unfold sunburstTotal, donutTotal.
  rewrite clamped_values_sum by exact Hnn.
  now rewrite (fold_left_Rplus value), Rplus_0_l.
Qed.

Lemma sunburstTotal_ge_values (items : list RingItem) :
  Forall (fun it => 0 <= value it) items -> Rsum (map value items) <= sunburstTotal items.
Proof.
  intros _. unfold sunburstTotal. rewrite (fold_left_Rplus value), Rplus_0_l.
  apply Rmax_r.
Qed.

Lemma railsSunburst_eq (items : list RingItem) (size thickness : R)
    (hoveredLabel : option string) :
  railsSunburst items size thickness hoveredLabel =
  [ {| sr_outer := size / 2 - RING_PADDING;
       sr_inner := size / 2 - RING_PADDING - thickness;
       sr_slices := sunburstSlices (size / 2) (size / 2) (size / 2 - RING_PADDING)
                      (size / 2 - RING_PADDING - thickness) (sunburstTotal items) (-90)
                      true 0 hoveredLabel 0 items |} ].
Proof. reflexivity. Qed.

(** X8: for non-negative values the chart and the rails agree: the single
    ring [RingWithLabelRails] draws has one slice per item, in order, and the
    label point [Sunburst] computes for each slice is the midpoint
    [computeDonutSlices] hands to the connectors, with the same percentage. *)
Theorem rails_target_the_drawn_slices (items : list RingItem) (size thickness : R)
    (hoveredLabel : option string) :
  Forall (fun it => 0 <= value it) items ->
  exists ring,
    railsSunburst items size thickness hoveredLabel = [ring] /\
    map label (sr_slices ring) = map label (computeDonutSlices items size thickness None) /\
    map sb_labelPoint (sr_slices ring) =
      map (fun s => mkPoint (midX s) (midY s))
          (computeDonutSlices items size thickness None) /\
    map sb_pct (sr_slices ring) = map pct (computeDonutSlices items size thickness None).
Proof.
  intros Hnn. rewrite railsSunburst_eq. eexists. split; [reflexivity |].
  cbn [sr_slices]. rewrite (sunburstTotal_nonneg_values items Hnn).
  unfold computeDonutSlices, donutTrace. cbn [default].
  split; [| split].
  - rewrite sunburstSlices_labels, map_map.
    symmetry. apply walkSlices_labels.
  - rewrite map_map.
    apply sunburstSlices_labelPoints. unfold RING_PADDING. field.
  - now rewrite walkSlices_pcts, sunburstSlices_pcts.
Qed.

Lemma rails_target_the_drawn_slices_witness :
  exists ring,
    railsSunburst quarterRing 360 26 None = [ring] /\
    map sb_labelPoint (sr_slices ring) =
      map (fun s => mkPoint (midX s) (midY s)) (computeDonutSlices quarterRing 360 26 None).
Proof.
  assert (Hnn : Forall (fun it => 0 <= value it) quarterRing).
  { unfold quarterRing. repeat constructor; simpl; lra. }
  destruct (rails_target_the_drawn_slices quarterRing 360 26 None Hnn)
    as (ring & Hring & _ & Hpts & _).
  exists ring. split; assumption.
Defined.

(** With a negative value the two computations part: [Sunburst] sums the
    values as they are (3 - 1 = 2) and [computeDonutSlices] sums them clamped
    (3), so the first slice is centred at 180 degrees in the chart and at 90
    degrees for the connectors. *)
Example negative_value_parts_chart_and_rails :
  exists ring s sl tl tl',
    railsSunburst threeAndMinusOne 360 26 None = [ring] /\
    sr_slices ring = s :: tl /\
    computeDonutSlices threeAndMinusOne 360 26 None = sl :: tl' /\
    px (sb_labelPoint s) = 23 /\ midX sl = 180.
Proof.
  rewrite railsSunburst_eq. unfold computeDonutSlices, donutTrace, threeAndMinusOne.
  cbn [sr_slices sunburstSlices walkSlices map snd default].
  eexists _, _, _, _, _. split; [reflexivity |]. split; [reflexivity |].
  split; [reflexivity |].
  assert (Ht : sunburstTotal [mkRingItem "a" 3 None; mkRingItem "b" (-1) None] = 2).
  { unfold sunburstTotal. simpl. rewrite Rmax_right by lra. lra. }
  assert (Hd : donutTotal [mkRingItem "a" 3 None; mkRingItem "b" (-1) None] = 3).
  { unfold donutTotal. simpl. rewrite (Rmax_right 0 3), (Rmax_left 0 (-1)) by lra.
    rewrite Rmax_right by lra. lra. }
  cbn [sb_labelPoint sunburstSlice polarToCartesian px midX sliceOf sliceAngles radians value].
  rewrite Ht, Hd, (Rmax_right 0 3) by lra. unfold RING_PADDING. split.
  - replace (PI / 180 * (-90 + 0 + 3 / 2 * 360 / 2)) with PI by field.
    rewrite cos_PI. lra.
  - replace (PI / 180 * (-90 + 0 + 3 / 3 * 360 / 2)) with (PI / 2) by field.
    rewrite cos_PI2. lra.
Qed.

Lemma sunburst_angles_sum (total cx cy ringOuter ringInner startAngle : R)
    (showPercents : bool) (ringIndex : nat) (activeLabel : option string)
    (items : list RingItem) :
  Forall (fun it => 0 <= value it) items ->
  Rsum (map sb_angle (sunburstSlices cx cy ringOuter ringInner total startAngle
                        showPercents ringIndex activeLabel 0 items)) =
  Rsum (map value items) / total * 360.
Proof.
  intros Hnn. rewrite sunburstSlices_angles.
  rewrite (map_ext_in _ (fun it => value it * (/ total * 360))).
  - rewrite <- (map_map value (fun v => v * (/ total * 360))).
    assert (Hsc : forall l, Rsum (map (fun v => v * (/ total * 360)) l) =
                            Rsum l * (/ total * 360)).
    { induction l as [| x l IH]; simpl; [lra | rewrite IH; lra]. }
    rewrite Hsc. unfold Rdiv. ring.
  - intros it Hit. rewrite Forall_forall in Hnn.
    rewrite Rmax_right by apply Hnn, list_elem_of_In, Hit. unfold Rdiv. ring.
Qed.

Lemma sunburstTotal_pos (items : list RingItem) : 0 < sunburstTotal items.
Proof. unfold sunburstTotal. pose proof (Rmax_l 1 (fold_left (fun a b => a + value b) items 0)). lra. Qed.

Lemma sunburstRings_Forall2 (P : Ring -> SunburstRing -> Prop)
    (cx cy startAngle : R) (showPercents : bool) (activeLabel : option string) :
  (forall ring ringIndex ringOuter,
     P ring {| sr_outer := ringOuter;
               sr_inner := ringOuter - ring_thickness ring;
               sr_slices := sunburstSlices cx cy ringOuter (ringOuter - ring_thickness ring)
                              (sunburstTotal (ring_items ring)) startAngle
                              showPercents ringIndex activeLabel 0 (ring_items ring) |}) ->
  forall rings ringIndex currentOuter,
    Forall2 P rings
      (sunburstRings cx cy startAngle showPercents activeLabel ringIndex currentOuter rings).
Proof.
  intros HP rings. induction rings as [| ring rest IH]; intros ringIndex currentOuter.
  - constructor.
  - cbn [sunburstRings]. constructor; [apply HP | apply IH].
Qed.

(** X9: in every ring [Sunburst] draws, the slices are the ring's items in
    order and their spans tile the ring from the start angle (-90 by
    default): each span starts where the previous one ended.  With
    non-negative values the sweeps never add up to more than 360 degrees, and
    to exactly 360 when the values sum to at least 1. *)
Theorem sunburst_spans_tile (rings : list Ring) (size startAngle : option R)
    (showPercents : bool) (activeLabel : option string) :
  Forall2 (fun ring drawn =>
             map label (sr_slices drawn) = map label (ring_items ring) /\
             spansTile (default (-90) startAngle) (sr_slices drawn) /\
             (Forall (fun it => 0 <= value it) (ring_items ring) ->
                Rsum (map sb_angle (sr_slices drawn)) <= 360 /\
                (1 <= Rsum (map value (ring_items ring)) ->
                   Rsum (map sb_angle (sr_slices drawn)) = 360)))
          rings (Sunburst rings size startAngle showPercents activeLabel).
Proof.
  unfold Sunburst. apply sunburstRings_Forall2.
  intros ring ringIndex ringOuter. cbn [sr_slices].
  split; [apply sunburstSlices_labels |].
  split; [apply sunburstSlices_tile; lra |].
  intros Hnn. rewrite sunburst_angles_sum by exact Hnn.
  pose proof (sunburstTotal_pos (ring_items ring)) as Hpos.
  pose proof (sunburstTotal_ge_values (ring_items ring) Hnn) as Hge.
  split.
  - apply (Rmult_le_reg_r (sunburstTotal (ring_items ring) / 360)); [lra |].
    field_simplify; lra.
  - intros HS.
    assert (Ht : sunburstTotal (ring_items ring) = Rsum (map value (ring_items ring))).
    { rewrite sunburstTotal_nonneg_values by exact Hnn. now apply donutTotal_large. }
    rewrite Ht. field. lra.
Qed.

Lemma sunburst_spans_tile_witness :
  exists ring,
    railsSunburst quarterRing 360 26 None = [ring] /\
    spansTile (-90) (sr_slices ring) /\
    Rsum (map sb_angle (sr_slices ring)) = 360.
Proof.
  pose proof (sunburst_spans_tile [mkRing quarterRing 26 8] (Some 360) None true None) as H.
  unfold railsSunburst.
  destruct (Sunburst [mkRing quarterRing 26 8] (Some 360) None true None) as [| ring tl];
    [inversion H |].
  apply Forall2_cons_1 in H as [(_ & Htile & Hsum) Htl]. apply Forall2_nil_inv_l in Htl as ->.
  exists ring. split; [reflexivity |]. split; [exact Htile |].
  cbn [ring_items] in Hsum. apply Hsum.
  - unfold quarterRing. repeat constructor; simpl; lra.
  - unfold quarterRing. simpl. lra.
Defined.

Lemma Rsum_bounds_each (l : list R) :
  Forall (fun x => 0 <= x) l -> Forall (fun x => x <= Rsum l) l.
Proof.
  intros H. pose proof (Rsum_map_bounds_member (fun x : R => x) l H) as Hb.
  now rewrite map_id in Hb.
Qed.








Lemma sunburstRings_nested (cx cy startAngle : R) (showPercents : bool)
    (activeLabel : option string) (rings : list Ring) (ringIndex : nat)
    (currentOuter bound : R) :
  Forall (fun ring => 0 <= ring_thickness ring /\ 0 <= ring_gap ring) rings ->
  currentOuter <= bound ->
  ringsNested bound
    (sunburstRings cx cy startAngle showPercents activeLabel ringIndex currentOuter rings).
Proof.
  intros Hall. revert ringIndex currentOuter bound.
  induction Hall as [| ring rest [Hth Hgap] _ IH]; intros ringIndex currentOuter bound Hb.
  - exact I.
  - cbn [sunburstRings ringsNested sr_outer sr_inner].
    split; [exact Hb |]. split; [lra |]. apply IH. lra.
Qed.

(** X12: with non-negative thicknesses and gaps the rings are nested and never
    overlap: the first ring's outer radius is [size/2 - 10], every ring's
    inner radius is at most its outer radius, and every further ring lies
    within the inner radius of the ring before it. *)
Theorem sunburst_rings_nested (rings : list Ring) (size startAngle : option R)
    (showPercents : bool) (activeLabel : option string) :
  Forall (fun ring => 0 <= ring_thickness ring /\ 0 <= ring_gap ring) rings ->
  ringsNested (default 280 size / 2 - RING_PADDING)
              (Sunburst rings size startAngle showPercents activeLabel) /\
  (forall drawn, head (Sunburst rings size startAngle showPercents activeLabel) = Some drawn ->
                 sr_outer drawn = default 280 size / 2 - RING_PADDING).
Proof.
  intros Hall. split.
  - unfold Sunburst. apply sunburstRings_nested; [exact Hall | lra].
  - unfold Sunburst. destruct rings as [| ring rest]; [discriminate |].
    cbn [sunburstRings head]. now intros drawn [= <-].
Qed.

Lemma sunburst_rings_nested_witness :
  ringsNested 170 (Sunburst twoRings (Some 360) None true None) /\
  map (fun drawn => (sr_outer drawn, sr_inner drawn))
      (Sunburst twoRings (Some 360) None true None)
  = [(360 / 2 - 10, 360 / 2 - 10 - 26); (360 / 2 - 10 - 26 - 8, 360 / 2 - 10 - 26 - 8 - 14)].
Proof.
  assert (Hall : Forall (fun ring => 0 <= ring_thickness ring /\ 0 <= ring_gap ring) twoRings).
  { unfold twoRings. repeat constructor; simpl; lra. }
  destruct (sunburst_rings_nested twoRings (Some 360) None true None Hall) as [Hn _].
  split.
  - change (default 280 (Some 360)) with 360 in Hn. unfold RING_PADDING in Hn.
    replace (360 / 2 - 10) with 170 in Hn by lra. exact Hn.
  - reflexivity.
Defined.

(** ** LabelRailRouter: scrolling *)

Lemma labelEl_translateRefs (dx dy : R) (labelRefs : gmap string (option DOMRect))
    (l : string) :
  labelEl (translateRefs dx dy labelRefs) l = translateRect dx dy <$> labelEl labelRefs l.
Proof.
  unfold labelEl, translateRefs. rewrite lookup_fmap.
  destruct (labelRefs !! l) as [[r |] |]; reflexivity.
Qed.

Lemma connectorFor_translate (dx dy : R) (containerRect donutRect labelRect : DOMRect)
    (slice : DonutSlice) :
  connectorFor (translateRect dx dy containerRect) (translateRect dx dy donutRect)
               (translateRect dx dy labelRect) slice =
  connectorFor containerRect donutRect labelRect slice.
Proof.
  unfold connectorFor, rect_right, translateRect.
  cbn [rect_left rect_top rect_width rect_height].
  assert (Hb : bool_decide (rect_left labelRect + dx <
                            rect_left containerRect + dx + rect_width containerRect / 2) =
               bool_decide (rect_left labelRect <
                            rect_left containerRect + rect_width containerRect / 2)).
  { apply bool_decide_ext. split; lra. }
  rewrite Hb. clear Hb. destruct (bool_decide _); f_equal; lra.
Qed.

Lemma connectorOf_translate (dx dy : R) (containerRect donutRect : DOMRect)
    (labelRefs : gmap string (option DOMRect)) (slice : DonutSlice) :
  connectorOf (translateRect dx dy containerRect) (translateRect dx dy donutRect)
              (translateRefs dx dy labelRefs) slice =
  connectorOf containerRect donutRect labelRefs slice.
Proof.
  unfold connectorOf. rewrite labelEl_translateRefs.
  destruct (labelEl labelRefs (label slice)) as [r |];
    cbn [fmap option_fmap option_map]; [| reflexivity].
  now rewrite connectorFor_translate.
Qed.

(** X13: the connectors depend only on where the labels and the chart are
    relative to the container: when the container, the chart and every label
    move by the same offset (as they do when the page scrolls), re-measuring
    gives the same connectors. *)
Theorem measureLines_scroll_invariant (dx dy : R) (containerEl donutEl : option DOMRect)
    (labelRefs : gmap string (option DOMRect)) (slices : list DonutSlice)
    (lines : list ConnectorLine) :
  measureLines (translateRect dx dy <$> containerEl) (translateRect dx dy <$> donutEl)
               (translateRefs dx dy labelRefs) slices lines =
  measureLines containerEl donutEl labelRefs slices lines.
Proof.
  destruct containerEl as [c |], donutEl as [d |]; try reflexivity.
  cbn [fmap option_fmap option_map measureLines].
  induction slices as [| s rest IH]; [reflexivity |].
  cbn [omap list_omap]. now rewrite IH, connectorOf_translate.
Qed.

(** ** BarList *)

Section SortBy.
Context {A : Type} (cmp : A -> A -> R).

Lemma insertBy_Permutation (x : A) (l : list A) : Permutation (insertBy cmp x l) (x :: l).
Proof.
  induction l as [| y rest IH]; cbn [insertBy]; [reflexivity |].
  destruct (Rlt_dec (cmp y x) 0); [| reflexivity].
  rewrite IH. apply perm_swap.
Qed.

Lemma sortBy_Permutation (l : list A) : Permutation (sortBy cmp l) l.
Proof.
  induction l as [| x rest IH]; [reflexivity |].
  cbn [sortBy fold_right]. rewrite insertBy_Permutation.
  constructor. exact IH.
Qed.

(** A consistent comparator: it orders any two items one way or the other,
    and the order is transitive. *)
Hypothesis cmp_total : forall a b, 0 <= cmp a b -> cmp b a <= 0.
Hypothesis cmp_trans : forall a b c, cmp a b <= 0 -> cmp b c <= 0 -> cmp a c <= 0.

Lemma insertBy_sorted (x : A) (l : list A) :
  StronglySorted (fun a b => cmp a b <= 0) l ->
  StronglySorted (fun a b => cmp a b <= 0) (insertBy cmp x l).
Proof.
  induction 1 as [| y rest Hrest IH Hy]; cbn [insertBy].
  - repeat constructor.
  - destruct (Rlt_dec (cmp y x) 0) as [Hlt | Hge].
    + constructor; [exact IH |].
      rewrite insertBy_Permutation. constructor; [lra | exact Hy].
    + assert (Hxy : cmp x y <= 0) by (apply cmp_total; lra).
      constructor; [now constructor |].
      constructor; [exact Hxy |].
      eapply Forall_impl; [exact Hy |]. cbn beta. intros z Hz.
      now apply (cmp_trans x y z).
Qed.

Lemma sortBy_sorted (l : list A) :
  StronglySorted (fun a b => cmp a b <= 0) (sortBy cmp l).
Proof.
  induction l as [| x rest IH]; [constructor |].
  cbn [sortBy fold_right]. now apply insertBy_sorted.
Qed.

(** Items that compare equal keep their order: an item is put before the
    sorted rest unless some item of the rest has to come first. *)
Lemma sortBy_stable_head (x : A) (l : list A) :
  Forall (fun y => 0 <= cmp y x) l -> sortBy cmp (x :: l) = x :: sortBy cmp l.
Proof.
  intros Hl. cbn [sortBy fold_right]. fold (sortBy cmp l).
  assert (Hs : Forall (fun y => 0 <= cmp y x) (sortBy cmp l))
    by now rewrite sortBy_Permutation.
  destruct Hs as [| y rest Hy _]; [reflexivity |].
  cbn [insertBy]. destruct (Rlt_dec (cmp y x) 0); [lra | reflexivity].
Qed.
End SortBy.

Lemma StronglySorted_weaken {A : Type} (R1 R2 : A -> A -> Prop) (l : list A) :
  (forall a b, R1 a b -> R2 a b) -> StronglySorted R1 l -> StronglySorted R2 l.
Proof.
  intros Himp. induction 1 as [| a l _ IH Ha]; constructor; [exact IH |].
  eapply Forall_impl; [exact Ha |]. intros b. apply Himp.
Qed.

Lemma byValueDesc_sorted (l : list BarItem) :
  StronglySorted (fun a b => bar_value a >= bar_value b) (sortBy byValueDesc l).
Proof.
  assert (Hs : StronglySorted (fun a b => byValueDesc a b <= 0) (sortBy byValueDesc l)).
  { apply sortBy_sorted; unfold byValueDesc; intros; lra. }
  eapply StronglySorted_weaken; [| exact Hs].
  unfold byValueDesc. intros a b Hab. lra.
Qed.

Lemma barMax_ge_1 (items : list BarItem) : 1 <= barMax items.
Proof.
  unfold barMax. induction items as [| it rest IH]; simpl; [lra |].
  etransitivity; [exact IH | apply Rmax_r].
Qed.

Lemma barMax_ge_value (items : list BarItem) :
  Forall (fun it => bar_value it <= barMax items) items.
Proof.
  unfold barMax. induction items as [| it rest IH]; simpl; constructor.
  - apply Rmax_l.
  - eapply Forall_impl; [exact IH |]. cbn beta. intros x Hx.
    etransitivity; [exact Hx | apply Rmax_r].
Qed.

Lemma barMax_le_bound (items : list BarItem) (m : R) :
  1 <= m -> Forall (fun it => bar_value it <= m) items -> barMax items <= m.
Proof.
  intros Hm. unfold barMax. induction 1 as [| it rest Hit _ IH]; simpl; [exact Hm |].
  now apply Rmax_lub.
Qed.

Lemma StronglySorted_map {A B : Type} (f : A -> B) (RB : B -> B -> Prop)
    (RA : A -> A -> Prop) (l : list A) :
  StronglySorted RA l -> (forall a b, RA a b -> RB (f a) (f b)) ->
  StronglySorted RB (map f l).
Proof.
  intros Hs Hf. induction Hs as [| a l _ IH Ha]; cbn [map]; constructor.
  - exact IH.
  - apply Forall_map. eapply Forall_impl; [exact Ha |]. intros b. apply Hf.
Qed.

(** X14: [BarList] shows every item once, largest value first; no bar is
    wider than 100 percent, none is negative when the values are not, and
    when the largest value is at least 1 its bar is exactly 100 percent
    wide. *)
Theorem BarList_rows (items : list BarItem) :
  Permutation (map (fun r => mkBarItem (row_label r) (row_value r)) (BarList items)) items /\
  StronglySorted (fun a b => row_value a >= row_value b) (BarList items) /\
  Forall (fun r => row_pct r <= 100) (BarList items) /\
  (Forall (fun it => 0 <= bar_value it) items ->
     Forall (fun r => 0 <= row_pct r) (BarList items)) /\
  (forall r rest, BarList items = r :: rest -> 1 <= row_value r -> row_pct r = 100).
Proof.
  pose proof (barMax_ge_1 items) as H1.
  pose proof (sortBy_Permutation byValueDesc items) as Hperm.
  pose proof (byValueDesc_sorted items) as Hsorted.
  assert (Hle : Forall (fun it => bar_value it <= barMax items) (sortBy byValueDesc items)).
  { rewrite Hperm. apply barMax_ge_value. }
  unfold BarList. split; [| split; [| split; [| split]]].
  - rewrite map_map. cbn [row_label row_value].
    rewrite (map_ext _ (fun it => it)) by (now intros []). now rewrite map_id.
  - apply (StronglySorted_map _ _ (fun a b => bar_value a >= bar_value b));
      [exact Hsorted | now intros a b].
  - apply Forall_map. eapply Forall_impl; [exact Hle |]. cbn. intros it Hit.
    apply (Rmult_le_reg_r (barMax items / 100)); [lra |]. field_simplify; lra.
  - intros Hnn. apply Forall_map. rewrite Hperm.
    eapply Forall_impl; [exact Hnn |]. cbn. intros it Hit.
    apply Rmult_le_pos; [| lra]. apply Rmult_le_pos; [exact Hit |].
    left. apply Rinv_0_lt_compat. lra.
  - intros r rest Hrows Hr.
    destruct (sortBy byValueDesc items) as [| it l] eqn:Hms; [discriminate |].
    cbn [map] in Hrows. injection Hrows as <- _. cbn [row_value row_pct] in *.
    assert (Hmax : barMax items = bar_value it).
    { apply Rle_antisym.
      - apply barMax_le_bound; [exact Hr |]. rewrite <- Hperm.
        apply StronglySorted_inv in Hsorted as [_ Hit].
        constructor; [lra |]. eapply Forall_impl; [exact Hit |].
        cbn beta. intros x Hx. lra.
      - now apply Forall_cons in Hle as [Hit _]. }
    rewrite Hmax. field. lra.
Qed.

Lemma BarList_rows_witness :
  Forall (fun r => 0 <= row_pct r <= 100) (BarList threeBars) /\
  StronglySorted (fun a b => row_value a >= row_value b) (BarList threeBars).
Proof.
  destruct (BarList_rows threeBars) as (_ & Hsorted & Hle & Hnn & _).
  split; [| exact Hsorted].
  assert (H0 : Forall (fun it => 0 <= bar_value it) threeBars).
  { unfold threeBars. repeat constructor; simpl; lra. }
  specialize (Hnn H0). rewrite Forall_forall in Hle, Hnn |- *.
  intros r Hr. split; [now apply Hnn | now apply Hle].
Defined.

(** ** The income input *)

Lemma keepDigits_decimal (d : uint) :
  keepDigits (NilEmpty.string_of_uint d) = NilEmpty.string_of_uint d.
Proof. induction d; cbn [NilEmpty.string_of_uint keepDigits]; [reflexivity | ..];
         (replace (isDigit _) with true by reflexivity); now rewrite IHd. Qed.

Lemma numberOfDigits_decimal (d : uint) (acc : N) :
  numberOfDigits acc (NilEmpty.string_of_uint d) = N.of_nat (Nat.of_uint_acc d (N.to_nat acc)).
Proof.
  revert acc.
  induction d; intros acc; cbn [NilEmpty.string_of_uint numberOfDigits Nat.of_uint_acc];
    [now rewrite N2Nat.id | ..];
    rewrite IHd; do 2 f_equal; rewrite Nat.tail_mul_spec;
    change (nat_of_ascii _ - 48)%nat with 0%nat || change (nat_of_ascii _ - 48)%nat with 1%nat
    || change (nat_of_ascii _ - 48)%nat with 2%nat || change (nat_of_ascii _ - 48)%nat with 3%nat
    || change (nat_of_ascii _ - 48)%nat with 4%nat || change (nat_of_ascii _ - 48)%nat with 5%nat
    || change (nat_of_ascii _ - 48)%nat with 6%nat || change (nat_of_ascii _ - 48)%nat with 7%nat
    || change (nat_of_ascii _ - 48)%nat with 8%nat || change (nat_of_ascii _ - 48)%nat with 9%nat;
    lia.
Qed.

Lemma incomeOfInput_nonneg (text : string) : 0 <= incomeOfInput text.
Proof. unfold incomeOfInput. apply IZR_le. lia. Qed.

Lemma MAX_EXACT_eq : MAX_EXACT = 9007199254740992%N.
Proof. reflexivity. Qed.

(** X15: the income input reads back what it shows.  A text whose digits are
    the decimal digits of [n], with any other characters (such as thousands
    separators) anywhere in between, is read as the income [n] as long as [n]
    is at most [2^53], the range in which [Number] is exact; beyond it the
    checked reading gives no value.  A text without any digit is read as
    0. *)
Theorem incomeOfInput_reads_decimal (n : nat) (text : string) :
  keepDigits text = decimalOf n ->
  ((N.of_nat n <= MAX_EXACT)%N ->
     incomeOfInputChecked text = Some (INR n) /\
     incomeOfInputChecked (decimalOf n) = Some (INR n) /\
     incomeOfInput text = INR n) /\
  ((MAX_EXACT < N.of_nat n)%N -> incomeOfInputChecked text = None) /\
  (forall other : string,
     keepDigits other = EmptyString ->
     incomeOfInputChecked other = Some 0 /\ incomeOfInput other = 0).
Proof.
  assert (Hd : numberOfDigits 0 (decimalOf n) = N.of_nat n).
  { unfold decimalOf. rewrite numberOfDigits_decimal.
    change (N.to_nat 0) with 0%nat.
    change (Nat.of_uint_acc (Nat.to_uint n) 0) with (Nat.of_uint (Nat.to_uint n)).
    now rewrite DecimalNat.Unsigned.of_to. }
  assert (Hn : IZR (Z.of_N (N.of_nat n)) = INR n).
  { rewrite nat_N_Z. symmetry. apply INR_IZR_INZ. }
  intros Htext. split; [| split].
  - intros Hle. apply N.leb_le in Hle.
    unfold incomeOfInputChecked, incomeOfInput, decimalOf.
    rewrite keepDigits_decimal. fold (decimalOf n).
    rewrite Htext, Hd, Hle, Hn. auto.
  - intros Hgt. apply N.leb_gt in Hgt.
    unfold incomeOfInputChecked. now rewrite Htext, Hd, Hgt.
  - intros other Ho. unfold incomeOfInputChecked, incomeOfInput. rewrite Ho.
    split; reflexivity.
Qed.

Lemma incomeOfInput_reads_decimal_witness :
  incomeOfInputChecked "$ 1,234 / Year" = Some (INR 1234).
Proof.
  apply (incomeOfInput_reads_decimal 1234 "$ 1,234 / Year"); [reflexivity |].
  rewrite MAX_EXACT_eq. vm_compute. discriminate.
Defined.

(** ** States the page can reach *)

Lemma find_exists {A : Type} (p : A -> bool) (l : list A) (x : A) :
  In x l -> p x = true -> exists y, find p l = Some y /\ p y = true.
Proof.
  induction l as [| a l IH]; intros Hin Hp; [destruct Hin |].
  cbn [find]. destruct (p a) eqn:Ha; [eauto |].
  destruct Hin as [-> | Hin]; [congruence | now apply IH].
Qed.

Lemma pageSelectedCategory_eq (st : PageState) :
  pageSelectedCategory st =
  option_map (allocOf (pageNycTax st)) (categoryById (selectedCategoryId st)).
Proof.
  unfold pageSelectedCategory, pageCategoryAlloc, selectedCategory, categoryAlloc,
    normalizeWeights, categoryById. cbn [nw_items].
  rewrite map_map, find_map. reflexivity.
Qed.

Lemma pageCategoryAlloc_find_label (st : PageState) (l : string) :
  find (fun x => bool_decide (label x = l)) (pageCategoryAlloc st) =
  option_map (allocOf (pageNycTax st))
             (find (fun c => bool_decide (cat_label c = l)) CATEGORIES).
Proof. unfold pageCategoryAlloc. apply find_category_by_label. Qed.

Lemma categoryById_in (cid : option string) (cat : Category) :
  categoryById cid = Some cat -> In cat CATEGORIES /\ cid = Some (id cat).
Proof.
  unfold categoryById. intros Hf. apply find_some in Hf as [Hin Hid].
  apply bool_decide_eq_true_1 in Hid. auto.
Qed.

Lemma categoryById_of_member (c : Category) :
  In c CATEGORIES -> is_Some (categoryById (Some (id c))).
Proof.
  intros Hin. unfold categoryById.
  destruct (find_exists (fun x => bool_decide (Some (id x) = Some (id c))) CATEGORIES c Hin)
    as (y & -> & _); [now apply bool_decide_eq_true_2 | eauto].
Qed.

(** No child of the dataset has an empty label. *)
Lemma CATEGORIES_child_labels :
  Forall (fun c => forall ch, children c = Some ch ->
                              Forall (fun s => label s <> EmptyString) ch) CATEGORIES.
Proof.
  unfold CATEGORIES.
  repeat (apply Forall_cons; split;
          [ intros ch [= <-]; repeat (apply Forall_cons; split; [discriminate |]);
            apply Forall_nil_2 | ]).
  apply Forall_nil_2.
Qed.

Lemma allocated_sub_labels (sel : Allocated Category) (subs : list (Allocated Subcategory)) :
  selectedSubcats (Some sel) = Some subs ->
  exists ch, children (source sel) = Some ch /\ map label subs = map label ch /\ ch <> [].
Proof.
  intros Hs. apply selectedSubcats_Some in Hs as (sc & ch & Hch & ->).
  exists (sc :: ch). split; [exact Hch |]. split; [| discriminate].
  unfold normalizeWeights. cbn [nw_items]. now rewrite !map_map.
Qed.

Lemma coherent_initial : coherent initialState.
Proof.
  unfold coherent, initialState. cbn.
  split; [lra |]. split; [lia |]. split; [split; [discriminate | congruence] |].
  split; [congruence | discriminate].
Qed.

Lemma coherent_afterRender (prev next : PageState) :
  coherent next -> coherent (afterRender prev next).
Proof.
  intros Hn. unfold afterRender. destruct decide; [exact Hn |].
  destruct Hn as (Hi & Hl & Hc & Hr & _).
  unfold coherent. cbn.
  split; [exact Hi |]. split; [exact Hl |]. split; [exact Hc |].
  split; [exact Hr | discriminate].
Qed.

(** The state after clearing both selections at a level below 3. *)
Lemma coherent_cleared (st : PageState) (lvl : nat) :
  coherent st -> (lvl < 3)%nat ->
  coherent (setSelectedSubcategoryLabel None (setSelectedCategoryId None
              (setUnlockedLevel lvl st))).
Proof.
  intros (Hi & _) Hlvl. unfold coherent. cbn.
  split; [exact Hi |]. split; [lia |]. split; [split; [lia | congruence] |].
  split; [congruence | discriminate].
Qed.

(** A change that leaves the level and both selections as they are. *)
Lemma coherent_same_selection (st st' : PageState) :
  coherent st -> 0 <= st_income st' ->
  unlockedLevel st' = unlockedLevel st ->
  selectedCategoryId st' = selectedCategoryId st ->
  selectedSubcategoryLabel st' = selectedSubcategoryLabel st ->
  coherent st'.
Proof.
  intros (_ & Hl & Hc & Hr & Hs) Hi El Ec Es. unfold coherent.
  rewrite El, Ec, Es. auto.
Qed.

Lemma coherent_unlockTo_2 (st : PageState) : coherent st -> coherent (unlockTo 2 st).
Proof.
  intros (Hi & Hl & Hc & Hr & Hs). unfold coherent, unlockTo. cbn.
  split; [exact Hi |]. split; [lia |]. split; [| split; [exact Hr | exact Hs]].
  split; intros H; [apply Hc; lia | apply Hc in H; lia].
Qed.

Lemma coherent_select_category (st : PageState) (c : Category) :
  coherent st -> In c CATEGORIES ->
  coherent (unlockTo 3 (setSelectedSubcategoryLabel None
                          (setSelectedCategoryId (Some (id c)) st))).
Proof.
  intros (Hi & Hl & _) Hin. unfold coherent, unlockTo. cbn.
  split; [exact Hi |]. split; [lia |]. split; [split; [discriminate | lia] |].
  split; [| discriminate]. intros _. now apply categoryById_of_member.
Qed.

Lemma subcategory_item_labels (st : PageState) (l : string) :
  l ∈ map label (subcatDonutItems st) ->
  exists cat ch,
    categoryById (selectedCategoryId st) = Some cat /\
    children cat = Some ch /\ In l (map label ch).
Proof.
  unfold subcatDonutItems. rewrite donutItems_labels.
  unfold pageSelectedSubcats. rewrite pageSelectedCategory_eq.
  destruct (categoryById (selectedCategoryId st)) as [cat |] eqn:Hcat; cbn [option_map].
  - destruct (selectedSubcats (Some (allocOf (pageNycTax st) cat))) as [subs |] eqn:Hsubs.
    + apply allocated_sub_labels in Hsubs as (ch & Hch & Hlab & _).
      change (default [] (Some subs)) with subs. rewrite Hlab.
      intros Hmem. apply list_elem_of_In in Hmem. exists cat, ch. auto.
    + intros Hmem. now apply not_elem_of_nil in Hmem.
  - intros Hmem. now apply not_elem_of_nil in Hmem.
Qed.

Lemma child_label_nonempty (cat : Category) (ch : list Subcategory) (l : string) :
  In cat CATEGORIES -> children cat = Some ch -> In l (map label ch) -> l <> EmptyString.
Proof.
  intros Hin Hch Hl.
  pose proof CATEGORIES_child_labels as Hall. rewrite Forall_forall in Hall.
  apply list_elem_of_In in Hin. specialize (Hall cat Hin ch Hch).
  rewrite Forall_forall in Hall. apply in_map_iff in Hl as (s & <- & Hs).
  apply Hall, list_elem_of_In, Hs.
Qed.

Lemma coherent_select_subcategory (st : PageState) (l : string) :
  coherent st -> rendered st (ClickSubcategoryItem l) = true ->
  coherent (setSelectedSubcategoryLabel (Some l) st).
Proof.
  intros (Hi & Hl & Hc & Hr & _) Hrend.
  cbn [rendered] in Hrend. apply andb_prop in Hrend as [_ Hmem].
  apply bool_decide_eq_true_1, subcategory_item_labels in Hmem
    as (cat & ch & Hcat & Hch & Hin).
  unfold coherent. cbn.
  split; [exact Hi |]. split; [exact Hl |]. split; [exact Hc |]. split; [exact Hr |].
  intros l' [= <-]. split.
  - apply categoryById_in in Hcat as [Hcin _]. eapply child_label_nonempty; eauto.
  - exists cat, ch. auto.
Qed.

Lemma coherent_handle (st : PageState) (a : Action) :
  coherent st -> rendered st a = true -> coherent (handle st a).
Proof.
  intros Hst Hrend. destruct a; cbn [handle].
  - apply coherent_cleared; [exact Hst | lia].
  - destruct (1 <=? unlockedLevel st)%nat; [apply coherent_cleared; [exact Hst | lia] | exact Hst].
  - destruct (2 <=? unlockedLevel st)%nat; [apply coherent_cleared; [exact Hst | lia] | exact Hst].
  - destruct (3 <=? unlockedLevel st)%nat eqn:E; [| exact Hst].
    apply Nat.leb_le in E. pose proof Hst as (Hi & Hl & _).
    apply (coherent_same_selection st); try reflexivity; [exact Hst | exact Hi |].
    cbn. lia.
  - now apply coherent_unlockTo_2.
  - apply (coherent_same_selection st); try reflexivity; [exact Hst |].
    apply incomeOfInput_nonneg.
  - rewrite pageCategoryAlloc_find_label.
    destruct (find _ CATEGORIES) as [c |] eqn:Hf; cbn [option_map]; [| exact Hst].
    apply find_some in Hf as [Hin _].
    now apply (coherent_select_category st c).
  - now apply coherent_select_subcategory.
  - apply (coherent_same_selection st); try reflexivity; [exact Hst | apply Hst].
  - apply (coherent_same_selection st); try reflexivity; [exact Hst | apply Hst].
Qed.

Lemma coherent_step (st : PageState) (a : Action) : coherent st -> coherent (step st a).
Proof.
  intros Hst. unfold step. destruct (rendered st a) eqn:Hr; [| exact Hst].
  now apply coherent_afterRender, coherent_handle.
Qed.

Lemma coherent_run (actions : list Action) (st : PageState) :
  coherent st -> coherent (run st actions).
Proof.
  revert st. induction actions as [| a rest IH]; intros st Hst; [exact Hst |].
  cbn [run fold_left]. apply IH. now apply coherent_step.
Qed.

Lemma coherent_category_resolves (st : PageState) :
  coherent st -> selectedCategoryId st <> None -> is_Some (pageSelectedCategory st).
Proof.
  intros (_ & _ & _ & Hr & _) Hc. rewrite pageSelectedCategory_eq.
  destruct (Hr Hc) as [cat ->]. cbn. eauto.
Qed.

Lemma coherent_subcategory_resolves (st : PageState) (l : string) :
  coherent st -> selectedSubcategoryLabel st = Some l ->
  selectedCategoryId st <> None /\
  exists sc, pageSelectedSubcategory st = Some sc /\ label sc = l.
Proof.
  intros (_ & _ & _ & _ & Hs) Hl.
  destruct (Hs l Hl) as (Hne & cat & ch & Hcat & Hch & Hin).
  split.
  { apply categoryById_in in Hcat as [_ ->]. discriminate. }
  unfold pageSelectedSubcategory, pageSelectedSubcats.
  rewrite pageSelectedCategory_eq, Hcat, Hl. cbn [option_map].
  destruct ch as [| sc ch']; [destruct Hin |].
  rewrite (selectedSubcats_cons (allocOf (pageNycTax st) cat) sc ch' Hch).
  set (subs := map _ (nw_items (normalizeWeights (sc :: ch')))).
  assert (Hlab : map label subs = map label (sc :: ch')).
  { unfold subs, normalizeWeights. cbn [nw_items]. now rewrite !map_map. }
  rewrite <- Hlab in Hin. apply in_map_iff in Hin as (s & Hsl & Hsin).
  destruct (find_exists (fun x => bool_decide (label x = l)) subs s Hsin) as (y & Hy & Hyl).
  { now apply bool_decide_eq_true_2. }
  exists y. split; [| now apply bool_decide_eq_true_1 in Hyl].
  unfold selectedSubcategory. destruct l as [| c l']; [congruence |].
  destruct subs as [| x rest]; [destruct Hsin | exact Hy].
Qed.

(** X16: after any run of user actions from the initial state the selections
    are never stale: the income is not negative, the level is at most 3 and
    is 3 exactly when a category is selected, a selected category id always
    resolves to a category, and a selected subcategory label always comes with
    a selected category and resolves to one of its subcategories, the one
    carrying that label. *)
Theorem reachable_selections_resolve (actions : list Action) :
  0 <= st_income (run initialState actions) /\
  (unlockedLevel (run initialState actions) <= 3)%nat /\
  (unlockedLevel (run initialState actions) = 3%nat <->
   selectedCategoryId (run initialState actions) <> None) /\
  (selectedCategoryId (run initialState actions) <> None ->
   is_Some (pageSelectedCategory (run initialState actions))) /\
  (forall l : string,
     selectedSubcategoryLabel (run initialState actions) = Some l ->
     selectedCategoryId (run initialState actions) <> None /\
     exists sc, pageSelectedSubcategory (run initialState actions) = Some sc /\ label sc = l).
Proof.
  pose proof (coherent_run actions initialState coherent_initial) as Hst.
  pose proof Hst as (Hi & Hl & Hc & _).
  split; [exact Hi |]. split; [exact Hl |]. split; [exact Hc |].
  split; [now apply coherent_category_resolves |].
  intros l. now apply coherent_subcategory_resolves.
Qed.

(** X17: the stage never goes blank: after any run of user actions, when
    there is an income and the level is at least 1, exactly one of the two
    rings is on screen, the subcategory ring exactly at level 3. *)
Theorem reachable_stage_shows_one_ring (actions : list Action) :
  hasIncome (run initialState actions) = true ->
  (1 <= unlockedLevel (run initialState actions))%nat ->
  categoryRingShown (run initialState actions) =
    negb (subcatRingShown (run initialState actions)) /\
  (subcatRingShown (run initialState actions) = true <->
   unlockedLevel (run initialState actions) = 3%nat).
Proof.
  pose proof (coherent_run actions initialState coherent_initial) as Hst.
  set (st := run initialState actions) in *.
  intros Hinc Hlvl. pose proof Hst as (_ & Hl & Hc & _).
  unfold categoryRingShown, subcatRingShown. rewrite Hinc.
  destruct (decide (unlockedLevel st = 3%nat)) as [E | E].
  - assert (Hsel : is_Some (pageSelectedCategory st)).
    { apply coherent_category_resolves; [exact Hst | now apply Hc]. }
    rewrite (bool_decide_eq_true_2 _ Hsel), E. cbn. tauto.
  - assert (Hlt : (unlockedLevel st <? 3)%nat = true) by (apply Nat.ltb_lt; lia).
    assert (Hge : (3 <=? unlockedLevel st)%nat = false) by (apply Nat.leb_gt; lia).
    assert (H1 : (1 <=? unlockedLevel st)%nat = true) by (apply Nat.leb_le; lia).
    assert (H0 : (unlockedLevel st =? 0)%nat = false) by (apply Nat.eqb_neq; lia).
    rewrite Hlt, Hge, H1, H0. cbn. split; [reflexivity |]. split; [discriminate | tauto].
Qed.

Lemma reachable_stage_shows_one_ring_witness :
  categoryRingShown drilledIntoEducation = false /\
  subcatRingShown drilledIntoEducation = true.
Proof.
  assert (Hinc : hasIncome drilledIntoEducation = true).
  { rewrite drilledIntoEducation_eq. now apply hasIncome_50000. }
  assert (Hlvl : unlockedLevel drilledIntoEducation = 3%nat).
  { now rewrite drilledIntoEducation_eq. }
  destruct (reachable_stage_shows_one_ring
              [ChangeIncome "50000"; ClickIncomeCard; ClickCategoryItem "Education"])
    as [Hx Hsub].
  - exact Hinc.
  - fold drilledIntoEducation. rewrite Hlvl. lia.
  - fold drilledIntoEducation in Hx, Hsub.
    apply Hsub in Hlvl. rewrite Hx, Hlvl. split; reflexivity.
Defined.

(** X18: the Drill-down breadcrumb never changes anything: in every state the
    page can reach, clicking it leaves the state as it is. *)
Theorem reachable_drilldown_crumb_is_idle (actions : list Action) :
  step (run initialState actions) ClickDrillDownCrumb = run initialState actions.
Proof.
  pose proof (coherent_run actions initialState coherent_initial) as (_ & Hl & _).
  set (st := run initialState actions) in *.
  unfold step. cbn [rendered handle].
  destruct (3 <=? unlockedLevel st)%nat eqn:E.
  - apply Nat.leb_le in E. assert (E3 : unlockedLevel st = 3%nat) by lia.
    rewrite afterRender_same by reflexivity.
    destruct st; cbn in *. now subst.
  - now apply afterRender_same.
Qed.

(** ** The order of the label columns on ties *)

Lemma map_sorted_unique {A : Type} (f : A -> R) (l1 l2 : list A) :
  Permutation l1 l2 ->
  StronglySorted (fun a b => f a <= f b) l1 ->
  StronglySorted (fun a b => f a <= f b) l2 ->
  map f l1 = map f l2.
Proof.
  intros Hperm H1 H2.
  assert (Hanti : AntiSymm (=) Rle) by (intros x y Hxy Hyx; lra).
  apply (StronglySorted_unique Rle).
  - apply (StronglySorted_map _ _ (fun a b => f a <= f b)); [exact H1 | now intros a b].
  - apply (StronglySorted_map _ _ (fun a b => f a <= f b)); [exact H2 | now intros a b].
  - now apply Permutation_map.
Qed.

Lemma perm_same_keys {A : Type} (f : A -> R) (l1 l2 : list A) :
  Permutation l1 l2 -> map f l1 = map f l2 -> NoDup (map f l1) -> l1 = l2.
Proof.
  revert l2. induction l1 as [| a r1 IH]; intros l2 Hperm Hmap Hnd.
  - destruct l2; [reflexivity | discriminate].
  - destruct l2 as [| b r2]; [discriminate |].
    cbn [map] in Hmap, Hnd. injection Hmap as Hab Hrest.
    apply NoDup_cons in Hnd as [Hfresh Hnd].
    assert (Eab : a = b).
    { assert (Hb : In b (a :: r1)).
      { apply (Permutation_in b (Permutation_sym Hperm)). now left. }
      destruct Hb as [E | Hb]; [exact E |].
      exfalso. apply Hfresh. rewrite Hab. apply list_elem_of_In, in_map, Hb. }
    subst b. f_equal. apply IH; [| exact Hrest | exact Hnd].
    now apply Permutation_cons_inv in Hperm.
Qed.

Lemma NoDup_map_filter {A : Type} (f : A -> R) (p : A -> bool) (l : list A) :
  NoDup (map f l) -> NoDup (map f (List.filter p l)).
Proof.
  induction l as [| a l IH]; cbn [map List.filter]; [auto |].
  intros Hnd. apply NoDup_cons in Hnd as [Hfresh Hnd].
  destruct (p a); [| now apply IH].
  cbn [map]. apply NoDup_cons. split; [| now apply IH].
  intros Hin. apply Hfresh. apply list_elem_of_In in Hin.
  apply in_map_iff in Hin as (x & Hx & Hxin). apply filter_In in Hxin as [Hxin _].
  rewrite <- Hx. apply list_elem_of_In, in_map, Hxin.
Qed.

Lemma byMidYAsc_sorted (l : list DonutSlice) :
  StronglySorted (fun a b => midY a <= midY b) (sortBy byMidYAsc l).
Proof.
  assert (Hs : StronglySorted (fun a b => byMidYAsc a b <= 0) (sortBy byMidYAsc l)).
  { apply sortBy_sorted; unfold byMidYAsc; intros; lra. }
  eapply StronglySorted_weaken; [| exact Hs].
  unfold byMidYAsc. intros a b Hab. lra.
Qed.

Lemma column_same_heights (l : list DonutSlice) :
  map midY (sortByMidY l) = map midY (sortBy byMidYAsc l) /\
  (NoDup (map midY l) -> sortByMidY l = sortBy byMidYAsc l).
Proof.
  assert (Hperm : Permutation (sortByMidY l) (sortBy byMidYAsc l)).
  { rewrite sortByMidY_perm. symmetry. apply sortBy_Permutation. }
  assert (Hmap : map midY (sortByMidY l) = map midY (sortBy byMidYAsc l)).
  { apply map_sorted_unique; [exact Hperm | apply sortByMidY_sorted | apply byMidYAsc_sorted]. }
  split; [exact Hmap |].
  intros Hnd. apply (perm_same_keys midY); [exact Hperm | exact Hmap |].
  assert (Hp : Permutation (map midY (sortByMidY l)) (map midY l))
    by apply Permutation_map, sortByMidY_perm.
  now rewrite Hp.
Qed.

(** X27: the order of the labels in a column.  Read as the stable sort that
    [Array.prototype.sort] is, each column keeps slices of equal height in
    the order of the items; the columns [leftItems] and [rightItems] show
    the same heights from top to bottom as that reading, and are the very
    same lists whenever no two slices share a height. *)
Theorem labelRails_columns_order (slices : list DonutSlice) :
  map midY (leftItems slices) = map midY (leftColumn slices) /\
  map midY (rightItems slices) = map midY (rightColumn slices) /\
  (NoDup (map midY slices) ->
     leftItems slices = leftColumn slices /\ rightItems slices = rightColumn slices) /\
  (forall s rest,
     Forall (fun x => midY s <= midY x) rest ->
     (if isRight s then rightColumn (s :: rest) else leftColumn (s :: rest)) =
     s :: (if isRight s then rightColumn rest else leftColumn rest)).
Proof.
  unfold leftItems, rightItems, leftColumn, rightColumn.
  split; [apply column_same_heights |]. split; [apply column_same_heights |].
  split.
  - intros Hnd. split; apply column_same_heights; now apply NoDup_map_filter.
  - intros s rest Hle.
    assert (Hfilter : forall p : DonutSlice -> bool,
              Forall (fun y => 0 <= byMidYAsc y s) (List.filter p rest)).
    { intros p. rewrite Forall_forall in Hle |- *. intros y Hy.
      apply list_elem_of_In, filter_In in Hy as [Hy _].
      unfold byMidYAsc. specialize (Hle y (proj2 (list_elem_of_In _ _) Hy)). lra. }
    destruct (isRight s) eqn:Hs; cbn [List.filter]; rewrite Hs; cbn [negb];
      now apply sortBy_stable_head.
Qed.

(** Three slices of one height: the stable reading keeps the order of the
    items, the merge sort behind [rightItems] does not. *)
Example columns_differ_on_ties :
  rightColumn threeLevel = threeLevel /\
  rightItems threeLevel <> threeLevel.
Proof.
  unfold threeLevel. split.
  - unfold rightColumn. cbn [List.filter isRight sortBy fold_right insertBy].
    unfold byMidYAsc.
    repeat (cbn [insertBy midY];
            match goal with
            | |- context [Rlt_dec ?x 0] => destruct (Rlt_dec x 0); [exfalso; lra |]
            end).
    reflexivity.
  - unfold rightItems, sortByMidY, merge_sort. cbn [List.filter isRight].
    repeat (cbn [merge_sort_aux merge_list_to_stack merge_stack list_merge];
            unfold decide, byMidY_decision, byMidY; cbn [midY];
            match goal with
            | |- context [Rle_dec 50 50] => destruct (Rle_dec 50 50); [| exfalso; lra]
            end).
    cbn [merge_sort_aux merge_list_to_stack merge_stack list_merge].
    discriminate.
Qed.

(** ** LabelRailRouter: the columns of the slices the engine computes *)

Section StableSort.
Context {A : Type} (key : A -> R).


End StableSort.




Section JsWalk.
Variables (Math_cos Math_sin : R -> R) (total cx cy ringMid startAngle : R).


End JsWalk.

(** With the real cosine and sine the engine's slices are the slices of
    [computeDonutSlices]. *)
Lemma Js_computeDonutSlices_real (items : list RingItem) (size thickness : R)
    (startAngle : option R) :
  Js.computeDonutSlices cos sin items size thickness startAngle =
  computeDonutSlices items size thickness startAngle.
Proof. reflexivity. Qed.


(** The side of a slice at the vertical is the engine's to decide: with a
    cosine that is negative at 270 degrees, as the one [Math.cos] computes,
    the empty second slice of [fiveAndZero] goes left, while the real cosine
    sends it right. *)
Example vertical_slice_follows_the_engine (Math_cos Math_sin : R -> R) :
  Math_cos (PI / 180 * 270) < 0 ->
  map isRight (drop 1 (Js.computeDonutSlices Math_cos Math_sin fiveAndZero 360 26 None)) =
    [false] /\
  map isRight (drop 1 (computeDonutSlices fiveAndZero 360 26 None)) = [true].
Proof.
  intros Hneg.
  assert (Ht : donutTotal fiveAndZero = 5).
  { unfold donutTotal, fiveAndZero. simpl.
    rewrite (Rmax_right 0 5), (Rmax_left 0 0), Rmax_right by lra. lra. }
  assert (Hmid : -90 + (0 + Rmax 0 5 / 5 * 360) + Rmax 0 0 / 5 * 360 / 2 = 270).
  { rewrite (Rmax_right 0 5), (Rmax_left 0 0) by lra. field. }
  split.
  - unfold Js.computeDonutSlices, Js.donutTrace. rewrite Ht. unfold fiveAndZero.
    cbn [Js.walkSlices map snd drop Js.sliceOf isRight sliceAngles radians angle value
         default Datatypes.id].
    rewrite Hmid. now rewrite bool_decide_eq_false_2 by lra.
  - unfold computeDonutSlices, donutTrace. rewrite Ht. unfold fiveAndZero.
    cbn [walkSlices map snd drop sliceOf isRight sliceAngles radians angle value
         default Datatypes.id].
    rewrite Hmid.
    replace (PI / 180 * 270) with (3 * (PI / 2)) by field.
    rewrite cos_3PI2. now rewrite bool_decide_eq_true_2 by lra.
Qed.

(** * The second revision *)

Import Rev2.

(** ** The dataset and the agency table *)

Lemma rev2_CATEGORIES_weightSum : weightSum CATEGORIES = 100.
Proof. unfold weightSum, CATEGORIES, weight, Category_weighted. simpl. lra. Qed.

(** A sibling group as the dataset has them: not empty, made of leaves, with
    non-negative weights that do not sum to zero. *)
Lemma rev2_CATEGORIES_children :
  Forall (fun c => exists n ch,
            children c = Some (n :: ch) /\
            Forall (fun x => node_children x = None /\ 0 <= weight x) (n :: ch) /\
            0 < weightSum (n :: ch)) CATEGORIES.
Proof.
  unfold CATEGORIES.
  repeat (apply Forall_cons; split;
          [ eexists _, _; split; [reflexivity |]; split;
            [ repeat (apply Forall_cons; split;
                      [split; [reflexivity | unfold weight, BudgetNode_weighted; simpl; lra] |]);
              apply Forall_nil_2
            | unfold weightSum, weight, BudgetNode_weighted; simpl; lra ] | ]).
  apply Forall_nil_2.
Qed.

Lemma rev2_CATEGORIES_weights_nonneg : Forall (fun c => 0 <= weight c) CATEGORIES.
Proof.
  unfold CATEGORIES.
  repeat (apply Forall_cons; split; [unfold weight, Category_weighted; simpl; lra |]).
  apply Forall_nil_2.
Qed.

(** Every agency of the table has a non-negative PS and OTPS amount and a
    positive total. *)
Lemma rev2_entries_positive :
  Forall (fun e => 0 <= ps e.2 /\ 0 <= otps e.2 /\ 0 < ps e.2 + otps e.2)
         AGENCY_PS_OTPS_2026_entries.
Proof.
  unfold AGENCY_PS_OTPS_2026_entries.
  repeat (apply Forall_cons; split; [simpl; lra |]).
  apply Forall_nil_2.
Qed.

Lemma rev2_lookup_positive (k : string) (split : PsOtps) :
  AGENCY_PS_OTPS_2026 !! k = Some split ->
  0 <= ps split /\ 0 <= otps split /\ 0 < ps split + otps split.
Proof.
  intros Hk. apply elem_of_list_to_map_2 in Hk.
  pose proof rev2_entries_positive as Hall. rewrite Forall_forall in Hall.
  exact (Hall _ Hk).
Qed.

Lemma rev2_splitFor_positive (cid : string) (child : BudgetNode) (split : PsOtps) :
  splitFor cid child = Some split ->
  0 <= ps split /\ 0 <= otps split /\ 0 < ps split + otps split.
Proof.
  unfold splitFor.
  destruct (AGENCY_PS_OTPS_2026 !! node_label child) as [s |] eqn:Hown.
  - intros [= <-]. now apply (rev2_lookup_positive (node_label child)).
  - destruct (bool_decide (cid = "education")); [| discriminate].
    apply rev2_lookup_positive.
Qed.

(** What [withSplit] makes of a leaf. *)
Lemma rev2_withSplit_leaf (cid : string) (child : BudgetNode) :
  node_children child = None ->
  node_label (withSplit cid child) = node_label child /\
  node_weight (withSplit cid child) = node_weight child /\
  match splitFor cid child with
  | None => node_children (withSplit cid child) = None
  | Some split =>
      node_children (withSplit cid child) =
      Some [mkBudgetNode "Personal Services" (ps split) None;
            mkBudgetNode "Other Than Personal Services" (otps split) None]
  end.
Proof.
  intros Hleaf. unfold withSplit. rewrite Hleaf. cbn [hasLength].
  destruct (splitFor cid child); cbn; auto.
Qed.

(** ** The PS/OTPS lines of the hover card *)

(** The two parts of a split, normalised. *)
Lemma rev2_normOfLabel_split (a b : R) :
  a + b <> 0 ->
  let items := nw_items (normalizeWeights
                 [mkBudgetNode "Personal Services" a None;
                  mkBudgetNode "Other Than Personal Services" b None]) in
  normOfLabel items "Personal Services" = a / (a + b) /\
  normOfLabel items "Other Than Personal Services" = b / (a + b).
Proof.
  intros Hab. cbn zeta.
  unfold normOfLabel, normalizeWeights, weightSum.
  cbn [nw_items map fold_left weight BudgetNode_weighted node_weight].
  cbn [find label Normed_labelled BudgetNode_labelled item node_label].
  rewrite (bool_decide_eq_true_2 ("Personal Services" = "Personal Services")) by reflexivity.
  rewrite (bool_decide_eq_false_2
             ("Personal Services" = "Other Than Personal Services")) by discriminate.
  rewrite (bool_decide_eq_true_2
             ("Other Than Personal Services" = "Other Than Personal Services"))
    by reflexivity.
  cbn [fmap option_fmap option_map default norm].
  rewrite !normOf_nonzero by lra.
  replace (0 + a + b) with (a + b) by lra. split; reflexivity.
Qed.

Lemma rev2_pageSelectedCategory_in (st : PageState) (sel : Allocated Category) :
  pageSelectedCategory st = Some sel ->
  In (source sel) CATEGORIES /\ selectedCategoryId st = Some (id (source sel)) /\
  dollars sel = pageNycTax st * (weight (source sel) / 100).
Proof.
  unfold pageSelectedCategory, selectedCategory. intros Hf.
  apply find_some in Hf as [Hin Hid]. apply bool_decide_eq_true_1 in Hid.
  unfold pageCategoryAlloc, categoryAlloc, normalizeWeights in Hin. cbn [nw_items] in Hin.
  rewrite map_map in Hin. apply in_map_iff in Hin as (c & <- & Hc).
  cbn [source normed item dollars norm] in *.
  change (fold_left _ CATEGORIES 0) with (weightSum CATEGORIES).
  rewrite rev2_CATEGORIES_weightSum, normOf_nonzero by lra.
  split; [exact Hc |]. split; [now symmetry in Hid | reflexivity].
Qed.

(** The subcategories of a selected category, one by one. *)
Lemma rev2_pageSelectedSubcats_in (st : PageState) (s : Allocated BudgetNode) :
  In s (pageSelectedSubcats st) ->
  exists sel n ch child,
    pageSelectedCategory st = Some sel /\
    children (source sel) = Some (n :: ch) /\ In child (n :: ch) /\
    source s = withSplit (id (source sel)) child /\
    dollars s =
      dollars sel *
      normOf (weightSum (map (withSplit (id (source sel))) (n :: ch))) (weight child).
Proof.
  unfold pageSelectedSubcats, selectedSubcats.
  destruct (pageSelectedCategory st) as [sel |] eqn:Hsel; [| intros []].
  destruct (children (source sel)) as [[| n ch] |] eqn:Hch; cbn [hasLength];
    [intros [] | | intros []].
  cbn [default Datatypes.id]. unfold normalizeWeights. cbn [nw_items]. rewrite !map_map.
  intros Hin. apply in_map_iff in Hin as (child & <- & Hchild).
  exists sel, n, ch, child. cbn [source normed item dollars norm].
  repeat split; try assumption.
  f_equal. f_equal.
  unfold withSplit. destruct hasLength; [reflexivity |].
  destruct splitFor; reflexivity.
Qed.

Lemma rev2_pageInfoSubcategory_in (st : PageState) (s : Allocated BudgetNode) :
  pageInfoSubcategory st = Some s -> In s (pageSelectedSubcats st).
Proof.
  assert (Hsel : pageSelectedSubcategory st = Some s -> In s (pageSelectedSubcats st)).
  { unfold pageSelectedSubcategory, selectedSubcategory. intros Hf.
    now apply find_some in Hf as [Hin _]. }
  unfold pageInfoSubcategory, infoSubcategory.
  destruct (hoveredSubcategoryLabel st) as [[| c h] |]; try exact Hsel.
  destruct (find _ (pageSelectedSubcats st)) as [x |] eqn:Hf; [| exact Hsel].
  intros [= <-]. now apply find_some in Hf as [Hin _].
Qed.

(** The node shown in the hover card is a leaf of the dataset, with or
    without the split of its agency. *)
Lemma rev2_info_node (st : PageState) (s : Allocated BudgetNode) :
  pageInfoSubcategory st = Some s ->
  exists sel child,
    pageSelectedCategory st = Some sel /\
    node_children child = None /\
    source s = withSplit (id (source sel)) child.
Proof.
  intros Hinfo. apply rev2_pageInfoSubcategory_in, rev2_pageSelectedSubcats_in in Hinfo
    as (sel & n & ch & child & Hsel & Hch & Hchild & Hsrc & _).
  exists sel, child. split; [exact Hsel |]. split; [| exact Hsrc].
  apply rev2_pageSelectedCategory_in in Hsel as (Hin & _).
  pose proof rev2_CATEGORIES_children as Hall. rewrite Forall_forall in Hall.
  apply list_elem_of_In in Hin.
  destruct (Hall _ Hin) as (n' & ch' & Hch' & Hleaves & _).
  rewrite Hch in Hch'. injection Hch' as <- <-.
  rewrite Forall_forall in Hleaves. apply list_elem_of_In in Hchild.
  now destruct (Hleaves _ Hchild).
Qed.

Lemma rev2_infoPSOTPS_of_split (st : PageState) (s : Allocated BudgetNode)
    (sel : Allocated Category) (child : BudgetNode) :
  pageInfoSubcategory st = Some s ->
  node_children child = None ->
  source s = withSplit (id (source sel)) child ->
  pageInfoPSOTPS st =
  match splitFor (id (source sel)) child with
  | None => None
  | Some split =>
      Some {| info_ps := ps split / (ps split + otps split);
              info_otps := otps split / (ps split + otps split);
              psDollars := dollars s * (ps split / (ps split + otps split));
              otpsDollars := dollars s * (otps split / (ps split + otps split)) |}
  end.
Proof.
  intros Hinfo Hleaf Hsrc. unfold pageInfoPSOTPS, infoPSOTPS. rewrite Hinfo, Hsrc.
  destruct (rev2_withSplit_leaf (id (source sel)) child Hleaf) as (_ & _ & Hch).
  destruct (splitFor (id (source sel)) child) as [split |] eqn:Hsplit.
  - rewrite Hch. cbn [hasLength default Datatypes.id].
    apply rev2_splitFor_positive in Hsplit as (Hps & Hotps & Hsum).
    destruct (rev2_normOfLabel_split (ps split) (otps split)) as [-> ->]; [lra |].
    reflexivity.
  - now rewrite Hch.
Qed.

(** X19: whenever the hover card prints the PS/OTPS lines, the two shares are
    non-negative and sum to 1, and the two dollar amounts sum to the dollars
    of the subcategory the card is about. *)
Theorem rev2_ps_otps_dollars_add_up (st : PageState) (s : Allocated BudgetNode)
    (r : PsOtpsInfo) :
  pageInfoSubcategory st = Some s ->
  pageInfoPSOTPS st = Some r ->
  0 <= info_ps r /\ 0 <= info_otps r /\
  info_ps r + info_otps r = 1 /\
  psDollars r = dollars s * info_ps r /\
  otpsDollars r = dollars s * info_otps r /\
  psDollars r + otpsDollars r = dollars s.
Proof.
  intros Hinfo Hr.
  destruct (rev2_info_node st s Hinfo) as (sel & child & _ & Hleaf & Hsrc).
  rewrite (rev2_infoPSOTPS_of_split st s sel child Hinfo Hleaf Hsrc) in Hr.
  destruct (splitFor (id (source sel)) child) as [split |] eqn:Hsplit; [| discriminate].
  apply rev2_splitFor_positive in Hsplit as (Hps & Hotps & Hsum).
  injection Hr as <-. cbn [info_ps info_otps psDollars otpsDollars].
  assert (Hinv : 0 < / (ps split + otps split)) by now apply Rinv_0_lt_compat.
  split; [apply Rmult_le_pos; lra |]. split; [apply Rmult_le_pos; lra |].
  split; [field; lra |]. split; [reflexivity |]. split; [reflexivity |].
  field; lra.
Qed.

(** The categories none of whose lines has an agency split. *)
Lemma rev2_split_table :
  Forall (fun c =>
            Forall (fun n =>
                      bool_decide (is_Some (splitFor (id c) n)) =
                      negb (bool_decide
                              (id c ∈ ["misc"; "pensions"; "general"; "debt"; "cuny"])))
                   (default [] (children c)))
         CATEGORIES.
Proof.
  unfold CATEGORIES.
  repeat (apply Forall_cons; split;
          [ cbn [children default id Datatypes.id];
            repeat (apply Forall_cons; split; [vm_compute; reflexivity |]);
            apply Forall_nil_2 | ]).
  apply Forall_nil_2.
Qed.

Lemma rev2_lookup_education :
  AGENCY_PS_OTPS_2026 !! "Department of Education" =
  Some {| ps := 58402434309; otps := 39643851243 |}.
Proof. reflexivity. Qed.

(** Every line of Education falls back on the split of the Department of
    Education. *)
Lemma rev2_education_split :
  Forall (fun c =>
            id c = "education" ->
            Forall (fun n => splitFor (id c) n =
                             Some {| ps := 58402434309; otps := 39643851243 |})
                   (default [] (children c)))
         CATEGORIES.
Proof.
  unfold CATEGORIES.
  apply Forall_cons; split.
  - intros _. cbn [children default id Datatypes.id].
    repeat (apply Forall_cons; split; [vm_compute; reflexivity |]).
    apply Forall_nil_2.
  - repeat (apply Forall_cons; split; [intros [=] |]).
    apply Forall_nil_2.
Qed.

(** The node of the hover card, as a child of the selected category. *)
Lemma rev2_info_child (st : PageState) (sel : Allocated Category)
    (s : Allocated BudgetNode) :
  pageSelectedCategory st = Some sel ->
  pageInfoSubcategory st = Some s ->
  exists ch child,
    source sel ∈ CATEGORIES /\ children (source sel) = Some ch /\ child ∈ ch /\
    pageInfoPSOTPS st =
    match splitFor (id (source sel)) child with
    | None => None
    | Some split =>
        Some {| info_ps := ps split / (ps split + otps split);
                info_otps := otps split / (ps split + otps split);
                psDollars := dollars s * (ps split / (ps split + otps split));
                otpsDollars := dollars s * (otps split / (ps split + otps split)) |}
    end.
Proof.
  intros Hsel Hinfo.
  pose proof Hinfo as Hin.
  apply rev2_pageInfoSubcategory_in, rev2_pageSelectedSubcats_in in Hin
    as (sel' & n & ch & child & Hsel' & Hch & Hchild & Hsrc & _).
  rewrite Hsel in Hsel'. injection Hsel' as <-.
  apply rev2_pageSelectedCategory_in in Hsel as (Hcat & _).
  apply list_elem_of_In in Hcat, Hchild.
  assert (Hleaf : node_children child = None).
  { pose proof rev2_CATEGORIES_children as Hall. rewrite Forall_forall in Hall.
    destruct (Hall _ Hcat) as (n' & ch' & Hch' & Hleaves & _).
    rewrite Hch in Hch'. injection Hch' as <- <-.
    rewrite Forall_forall in Hleaves. now destruct (Hleaves _ Hchild). }
  exists (n :: ch), child. split; [exact Hcat |]. split; [exact Hch |].
  split; [exact Hchild |].
  exact (rev2_infoPSOTPS_of_split st s sel child Hinfo Hleaf Hsrc).
Qed.

Lemma rev2_infoPSOTPS_none_iff (st : PageState) (sel : Allocated Category)
    (s : Allocated BudgetNode) :
  pageSelectedCategory st = Some sel ->
  pageInfoSubcategory st = Some s ->
  pageInfoPSOTPS st = None <->
  id (source sel) ∈ ["misc"; "pensions"; "general"; "debt"; "cuny"].
Proof.
  intros Hsel Hinfo.
  destruct (rev2_info_child st sel s Hsel Hinfo) as (ch & child & Hcat & Hch & Hchild & ->).
  pose proof rev2_split_table as Hall. rewrite Forall_forall in Hall.
  specialize (Hall _ Hcat). rewrite Hch in Hall. cbn [default Datatypes.id] in Hall.
  rewrite Forall_forall in Hall. specialize (Hall _ Hchild).
  destruct (splitFor (id (source sel)) child) as [split |].
  - rewrite bool_decide_eq_true_2 in Hall by eauto.
    symmetry in Hall. apply negb_true_iff, bool_decide_eq_false_1 in Hall.
    split; [discriminate | tauto].
  - rewrite bool_decide_eq_false_2 in Hall by (intros [? [=]]).
    symmetry in Hall. apply negb_false_iff, bool_decide_eq_true_1 in Hall.
    tauto.
Qed.

(** X20: which hover cards print the PS/OTPS lines.  The lines are missing
    exactly for the subcategories of Miscellaneous, City Employee Pensions,
    General Government, Debt Service and CUNY Community Colleges; and every
    subcategory of Education shows one and the same split, that of the whole
    Department of Education. *)
Theorem rev2_ps_otps_lines_shown (st : PageState) (sel : Allocated Category)
    (s : Allocated BudgetNode) :
  pageSelectedCategory st = Some sel ->
  pageInfoSubcategory st = Some s ->
  (pageInfoPSOTPS st = None <->
   id (source sel) ∈ ["misc"; "pensions"; "general"; "debt"; "cuny"]) /\
  (id (source sel) = "education" ->
   exists r, pageInfoPSOTPS st = Some r /\
             info_ps r = 58402434309 / (58402434309 + 39643851243) /\
             info_otps r = 39643851243 / (58402434309 + 39643851243)).
Proof.
  intros Hsel Hinfo.
  split; [now apply (rev2_infoPSOTPS_none_iff st sel s) |].
  intros Hedu.
  destruct (rev2_info_child st sel s Hsel Hinfo) as (ch & child & Hcat & Hch & Hchild & ->).
  pose proof rev2_education_split as Hall. rewrite Forall_forall in Hall.
  specialize (Hall _ Hcat Hedu). rewrite Hch in Hall. cbn [default Datatypes.id] in Hall.
  rewrite Forall_forall in Hall. rewrite (Hall _ Hchild).
  eexists. split; [reflexivity |]. split; reflexivity.
Qed.

(** ** The states the page can reach *)

Lemma rev2_pageSelectedCategory_eq (st : PageState) :
  pageSelectedCategory st =
  option_map (allocOf (pageNycTax st)) (categoryById (selectedCategoryId st)).
Proof.
  unfold pageSelectedCategory, pageCategoryAlloc, selectedCategory, categoryAlloc,
    normalizeWeights, categoryById. cbn [nw_items].
  rewrite map_map, find_map. reflexivity.
Qed.

Lemma rev2_find_category_by_label (st : PageState) (l : string) :
  find (fun x => bool_decide (label x = l)) (pageCategoryAlloc st) =
  option_map (allocOf (pageNycTax st))
             (find (fun c => bool_decide (cat_label c = l)) CATEGORIES).
Proof.
  unfold pageCategoryAlloc, categoryAlloc, normalizeWeights. cbn [nw_items].
  rewrite map_map, find_map. reflexivity.
Qed.

Lemma rev2_categoryById_in (cid : option string) (cat : Category) :
  categoryById cid = Some cat -> In cat CATEGORIES /\ cid = Some (id cat).
Proof.
  unfold categoryById. intros Hf. apply find_some in Hf as [Hin Hid].
  apply bool_decide_eq_true_1 in Hid. auto.
Qed.

Lemma rev2_categoryById_of_member (c : Category) :
  In c CATEGORIES -> is_Some (categoryById (Some (id c))).
Proof.
  intros Hin. unfold categoryById.
  destruct (find_exists (fun x => bool_decide (Some (id x) = Some (id c))) CATEGORIES c Hin)
    as (y & -> & _); [now apply bool_decide_eq_true_2 | eauto].
Qed.

Lemma rev2_ringItems_labels {T : Type} `{Labelled T} (l : list (Allocated T)) :
  map label (ringItems l) = map label l.
Proof.
  unfold ringItems.
  set (g := fun (i : nat) (c : Allocated T) => _).
  assert (Hg : forall i c, label (g i c) = label c) by reflexivity.
  clearbody g. revert g Hg. induction l as [| c l IH]; intros g Hg; [reflexivity |].
  cbn [imap map]. rewrite Hg. f_equal. apply IH. intros i c'. apply Hg.
Qed.

Lemma rev2_ringItems_values {T : Type} `{Labelled T} (l : list (Allocated T)) :
  map value (ringItems l) = map dollars l.
Proof.
  unfold ringItems.
  set (g := fun (i : nat) (c : Allocated T) => _).
  assert (Hg : forall i c, value (g i c) = dollars c) by reflexivity.
  clearbody g. revert g Hg. induction l as [| c l IH]; intros g Hg; [reflexivity |].
  cbn [imap map]. rewrite Hg. f_equal. apply IH. intros i c'. apply Hg.
Qed.

Lemma rev2_withSplit_label (cid : string) (child : BudgetNode) :
  label (withSplit cid child) = label child.
Proof.
  unfold withSplit. destruct hasLength; [reflexivity |].
  destruct splitFor; reflexivity.
Qed.

Lemma rev2_withSplit_weight (cid : string) (child : BudgetNode) :
  weight (withSplit cid child) = weight child.
Proof.
  unfold withSplit. destruct hasLength; [reflexivity |].
  destruct splitFor; reflexivity.
Qed.

(** The subcategories of a category carry the labels of its children, in
    order. *)
Lemma rev2_selectedSubcats_labels (sel : Allocated Category) :
  map label (selectedSubcats (Some sel)) = map label (default [] (children (source sel))).
Proof.
  unfold selectedSubcats.
  destruct (children (source sel)) as [[| n ch] |]; cbn [hasLength default Datatypes.id];
    try reflexivity.
  unfold normalizeWeights. cbn [nw_items]. rewrite !map_map.
  apply map_ext. intros child. apply rev2_withSplit_label.
Qed.

Lemma rev2_pageSelectedSubcats_labels (st : PageState) (cat : Category) :
  categoryById (selectedCategoryId st) = Some cat ->
  map label (pageSelectedSubcats st) = map label (default [] (children cat)).
Proof.
  intros Hcat. unfold pageSelectedSubcats.
  rewrite rev2_pageSelectedCategory_eq, Hcat. cbn [option_map].
  apply rev2_selectedSubcats_labels.
Qed.

Lemma rev2_subItems_labels (st : PageState) (l : string) :
  l ∈ map label (subItems st) ->
  exists cat ch,
    categoryById (selectedCategoryId st) = Some cat /\
    children cat = Some ch /\ In l (map label ch).
Proof.
  unfold subItems. rewrite rev2_ringItems_labels.
  destruct (categoryById (selectedCategoryId st)) as [cat |] eqn:Hcat.
  - rewrite (rev2_pageSelectedSubcats_labels st cat Hcat).
    destruct (children cat) as [ch |] eqn:Hch; cbn [default Datatypes.id].
    + intros Hmem. apply list_elem_of_In in Hmem. exists cat, ch. auto.
    + intros Hmem. now apply not_elem_of_nil in Hmem.
  - unfold pageSelectedSubcats. rewrite rev2_pageSelectedCategory_eq, Hcat.
    intros Hmem. now apply not_elem_of_nil in Hmem.
Qed.

Lemma rev2_coherent_initial : coherent initialState.
Proof.
  unfold coherent, initialState. cbn.
  split; [lra |]. split; [now left |]. split; [congruence |].
  intros l [H | H]; discriminate.
Qed.

Lemma rev2_coherent_category_resolves (st : PageState) :
  coherent st -> selectedCategoryId st <> None -> is_Some (pageSelectedCategory st).
Proof.
  intros (_ & _ & Hc & _) Hne. rewrite rev2_pageSelectedCategory_eq.
  destruct (Hc Hne) as [_ [cat ->]]. cbn. eauto.
Qed.

Lemma rev2_categoryViewShown_inv (st : PageState) :
  coherent st -> categoryViewShown st = true ->
  unlockedLevel st = 2%nat /\ selectedCategoryId st = None.
Proof.
  intros Hst Hshown. unfold categoryViewShown in Hshown.
  apply andb_prop in Hshown as [Hshown Hnone]. apply andb_prop in Hshown as [_ Hlvl].
  apply Nat.leb_le in Hlvl. apply negb_true_iff, bool_decide_eq_false_1 in Hnone.
  pose proof Hst as (_ & Hl & _). split; [lia |].
  destruct (selectedCategoryId st) as [cid |] eqn:Hcid; [| reflexivity].
  exfalso. apply Hnone. apply rev2_coherent_category_resolves; [exact Hst | congruence].
Qed.

Lemma rev2_coherent_label (st : PageState) (l : string) (hover : bool) :
  coherent st -> l ∈ map label (subItems st) ->
  coherent (if hover then setHoveredSubcategoryLabel (Some l) st
            else setSelectedSubcategoryLabel (Some l) st).
Proof.
  intros (Hi & Hl & Hc & Hs) Hmem.
  apply rev2_subItems_labels in Hmem as (cat & ch & Hcat & Hch & Hin).
  destruct hover; unfold coherent; cbn;
    (split; [exact Hi |]; split; [exact Hl |]; split; [exact Hc |]).
  - intros l' [Hl' | [= <-]]; eauto.
  - intros l' [[= <-] | Hl']; eauto.
Qed.

Lemma rev2_coherent_handle (st : PageState) (a : Action) :
  coherent st -> rendered st a = true -> coherent (handle st a).
Proof.
  intros Hst Hrend. pose proof Hst as (Hi & Hl & Hc & Hs).
  destruct a as [| text | l | l | l | l]; cbn [handle rendered] in *.
  - unfold coherent. cbn. split; [exact Hi |]. split; [now right |].
    split; [| exact Hs]. intros Hne. split; [reflexivity | now apply Hc].
  - unfold coherent. cbn. split; [apply incomeOfInput_nonneg |]. auto.
  - apply andb_prop in Hrend as [Hshown _].
    apply rev2_categoryViewShown_inv in Hshown as [Hlvl _]; [| exact Hst].
    rewrite rev2_find_category_by_label.
    destruct (find _ CATEGORIES) as [c |] eqn:Hf; cbn [option_map]; [| exact Hst].
    apply find_some in Hf as [Hin _].
    unfold coherent. cbn. split; [exact Hi |]. split; [exact Hl |].
    split; [intros _; split; [exact Hlvl | now apply rev2_categoryById_of_member] |].
    intros l' [H | H]; discriminate.
  - apply andb_prop in Hrend as [_ Hmem]. apply bool_decide_eq_true_1 in Hmem.
    exact (rev2_coherent_label st l false Hst Hmem).
  - apply andb_prop in Hrend as [_ Hmem]. apply bool_decide_eq_true_1 in Hmem.
    exact (rev2_coherent_label st l true Hst Hmem).
  - unfold coherent. cbn. split; [exact Hi |]. split; [exact Hl |]. split; [exact Hc |].
    intros l' [H | H]; [| discriminate]. apply Hs. now left.
Qed.

Lemma rev2_coherent_step (st : PageState) (a : Action) :
  coherent st -> coherent (step st a).
Proof.
  intros Hst. unfold step. destruct (rendered st a) eqn:Hr; [| exact Hst].
  now apply rev2_coherent_handle.
Qed.

Lemma rev2_coherent_run (actions : list Action) (st : PageState) :
  coherent st -> coherent (run st actions).
Proof.
  revert st. induction actions as [| a rest IH]; intros st Hst; [exact Hst |].
  cbn [run fold_left]. apply IH. now apply rev2_coherent_step.
Qed.

Lemma rev2_run_app (st : PageState) (l1 l2 : list Action) :
  run st (l1 ++ l2) = run (run st l1) l2.
Proof. unfold run. apply fold_left_app. Qed.

(** A chosen category survives every action. *)
Lemma rev2_step_keeps_category (st : PageState) (a : Action) (cid : string) :
  coherent st -> selectedCategoryId st = Some cid ->
  selectedCategoryId (step st a) = Some cid.
Proof.
  intros Hst Hcid. unfold step. destruct (rendered st a) eqn:Hrend; [| exact Hcid].
  destruct a as [| text | l | l | l | l]; cbn [handle rendered] in *; try exact Hcid.
  apply andb_prop in Hrend as [Hshown _].
  apply rev2_categoryViewShown_inv in Hshown as [_ Hnone]; [| exact Hst].
  congruence.
Qed.

Lemma rev2_run_keeps_category (more : list Action) (st : PageState) (cid : string) :
  coherent st -> selectedCategoryId st = Some cid ->
  selectedCategoryId (run st more) = Some cid.
Proof.
  revert st. induction more as [| a rest IH]; intros st Hst Hcid; [exact Hcid |].
  cbn [run fold_left]. apply IH; [now apply rev2_coherent_step |].
  now apply rev2_step_keeps_category.
Qed.

(** X21: the choice of a category is final.  Once a run of user actions has
    selected a category, no further action changes or clears the selection:
    the category view is never on screen again, and the subcategory view is
    on screen whenever there is an income. *)
Theorem rev2_category_choice_is_final (actions more : list Action) (cid : string) :
  selectedCategoryId (run initialState actions) = Some cid ->
  selectedCategoryId (run initialState (actions ++ more)) = Some cid /\
  categoryViewShown (run initialState (actions ++ more)) = false /\
  subViewShown (run initialState (actions ++ more)) =
    hasIncome (run initialState (actions ++ more)).
Proof.
  intros Hcid.
  pose proof (rev2_coherent_run (actions ++ more) initialState rev2_coherent_initial) as Hst.
  assert (Hkept : selectedCategoryId (run initialState (actions ++ more)) = Some cid).
  { rewrite rev2_run_app. apply rev2_run_keeps_category; [| exact Hcid].
    apply rev2_coherent_run, rev2_coherent_initial. }
  set (st := run initialState (actions ++ more)) in *.
  assert (Hsel : is_Some (pageSelectedCategory st)).
  { apply rev2_coherent_category_resolves; [exact Hst | congruence]. }
  split; [exact Hkept |].
  unfold categoryViewShown, subViewShown.
  rewrite (bool_decide_eq_true_2 _ Hsel). cbn [negb].
  split; [now rewrite andb_false_r | now rewrite andb_true_r].
Qed.

Lemma rev2_humanServicesChosen_eq :
  run initialState humanServicesChosen =
  {| income := 50000; unlockedLevel := 2; selectedCategoryId := Some "human_services";
     selectedSubcategoryLabel := None; hoveredSubcategoryLabel := None |}.
Proof.
  unfold humanServicesChosen, run. cbn [fold_left].
  change (step initialState (ChangeIncome "50000"))
    with (setIncome (incomeOfInput "50000") initialState).
  rewrite incomeOfInput_50000.
  change (step (setIncome 50000 initialState) ClickIncomeCard)
    with (setUnlockedLevel 2 (setIncome 50000 initialState)).
  set (s2 := setUnlockedLevel 2 (setIncome 50000 initialState)).
  assert (Hinc : hasIncome s2 = true).
  { unfold hasIncome. apply bool_decide_eq_true_2. cbn. lra. }
  assert (Hr : rendered s2 (ClickCategory "Human Services") = true).
  { cbn [rendered]. apply andb_true_intro. split.
    - unfold categoryViewShown. rewrite Hinc, rev2_pageSelectedCategory_eq. reflexivity.
    - apply bool_decide_eq_true_2. unfold categoryItems, pageCategoryAlloc.
      rewrite rev2_ringItems_labels. unfold categoryAlloc, normalizeWeights.
      cbn [nw_items]. rewrite !map_map.
      apply list_elem_of_further, list_elem_of_here. }
  unfold step. rewrite Hr. cbn [handle].
  rewrite rev2_find_category_by_label.
  replace (find _ CATEGORIES) with (CATEGORIES !! 1%nat) by reflexivity.
  reflexivity.
Qed.

Lemma rev2_category_choice_is_final_witness :
  selectedCategoryId
    (run initialState (humanServicesChosen ++ [ClickCategory "Education"])) =
  Some "human_services".
Proof.
  apply (rev2_category_choice_is_final humanServicesChosen [ClickCategory "Education"]).
  rewrite rev2_humanServicesChosen_eq. reflexivity.
Defined.

(** ** The income card *)

Lemma rev2_step_unlockedLevel (st : PageState) (a : Action) :
  unlockedLevel (step st a) =
  match a with
  | ClickIncomeCard => 2%nat
  | _ => unlockedLevel st
  end.
Proof.
  unfold step. destruct a as [| text | l | l | l | l]; cbn [rendered handle];
    try reflexivity;
    try (destruct (_ && _); reflexivity).
  destruct (_ && _); [| reflexivity].
  destruct (find _ (pageCategoryAlloc st)); reflexivity.
Qed.

Lemma rev2_run_stays_unlocked (actions : list Action) (st : PageState) :
  unlockedLevel st = 2%nat -> unlockedLevel (run st actions) = 2%nat.
Proof.
  revert st. induction actions as [| a rest IH]; intros st Hst; [exact Hst |].
  cbn [run fold_left]. apply IH. rewrite rev2_step_unlockedLevel.
  destruct a; auto.
Qed.

Lemma rev2_run_unlockedLevel (actions : list Action) (st : PageState) :
  (In ClickIncomeCard actions -> unlockedLevel (run st actions) = 2%nat) /\
  (~ In ClickIncomeCard actions -> unlockedLevel (run st actions) = unlockedLevel st).
Proof.
  revert st. induction actions as [| a rest IH]; intros st.
  - split; [intros [] | reflexivity].
  - cbn [run fold_left]. fold (run (step st a) rest).
    destruct (IH (step st a)) as [IHin IHout]. split.
    + intros [-> | Hin]; [| now apply IHin].
      apply rev2_run_stays_unlocked, rev2_step_unlockedLevel.
    + intros Hnot. rewrite IHout by (intros Hin; apply Hnot; now right).
      rewrite rev2_step_unlockedLevel. destruct a; try reflexivity.
      exfalso. apply Hnot. now left.
Qed.

Lemma rev2_no_category_no_view (st : PageState) :
  selectedCategoryId st = None -> pageSelectedCategory st = None.
Proof.
  intros Hnone. rewrite rev2_pageSelectedCategory_eq, Hnone.
  destruct (categoryById None) as [cat |] eqn:Hcat; [| reflexivity].
  now apply rev2_categoryById_in in Hcat as [_ [=]].
Qed.

(** X22: the income card unlocks everything at once.  After a run of user
    actions the level is 2 if the card has been clicked and 0 if not, never 1:
    before the first click neither the tax card nor a donut is on screen,
    whatever income was typed, and no category can be selected; after it the
    tax card is on screen, and with an income exactly one of the two donuts
    is. *)
Theorem rev2_income_card_unlocks_all (actions : list Action) :
  (~ In ClickIncomeCard actions ->
     unlockedLevel (run initialState actions) = 0%nat /\
     taxCardShown (run initialState actions) = false /\
     categoryViewShown (run initialState actions) = false /\
     subViewShown (run initialState actions) = false /\
     selectedCategoryId (run initialState actions) = None) /\
  (In ClickIncomeCard actions ->
     unlockedLevel (run initialState actions) = 2%nat /\
     taxCardShown (run initialState actions) = true /\
     (hasIncome (run initialState actions) = true ->
      categoryViewShown (run initialState actions) =
        negb (subViewShown (run initialState actions)))).
Proof.
  pose proof (rev2_coherent_run actions initialState rev2_coherent_initial) as Hst.
  destruct (rev2_run_unlockedLevel actions initialState) as [Hin Hout].
  set (st := run initialState actions) in *.
  pose proof Hst as (_ & _ & Hc & _).
  split.
  - intros Hnot. specialize (Hout Hnot). cbn in Hout.
    assert (Hnone : selectedCategoryId st = None).
    { destruct (selectedCategoryId st) eqn:E; [| reflexivity].
      destruct Hc as [Hc _]; [discriminate | congruence]. }
    unfold taxCardShown, categoryViewShown, subViewShown.
    rewrite Hout, (rev2_no_category_no_view st Hnone).
    rewrite bool_decide_eq_false_2 by (intros [? [=]]).
    cbn. rewrite !andb_false_r. auto.
  - intros Hclicked. specialize (Hin Hclicked).
    unfold taxCardShown, categoryViewShown, subViewShown. rewrite Hin.
    split; [reflexivity |]. split; [reflexivity |].
    intros ->. cbn. reflexivity.
Qed.

(** ** The hover card *)

(** No child of the dataset has an empty label. *)
Lemma rev2_CATEGORIES_child_labels :
  Forall (fun c => Forall (fun n => label n <> EmptyString) (default [] (children c)))
         CATEGORIES.
Proof.
  unfold CATEGORIES.
  repeat (apply Forall_cons; split;
          [ cbn [children default Datatypes.id];
            repeat (apply Forall_cons; split; [discriminate |]);
            apply Forall_nil_2 | ]).
  apply Forall_nil_2.
Qed.

Lemma rev2_find_by_some_label (subs : list (Allocated BudgetNode)) (l : string) :
  find (fun s => bool_decide (Some (label s) = Some l)) subs =
  find (fun s => bool_decide (label s = l)) subs.
Proof.
  induction subs as [| s rest IH]; [reflexivity |].
  cbn [find]. rewrite IH.
  destruct (decide (label s = l)) as [E | E].
  - rewrite !bool_decide_eq_true_2; [reflexivity | exact E | now f_equal].
  - rewrite !bool_decide_eq_false_2; [reflexivity | exact E | congruence].
Qed.

(** A label kept in the state names a subcategory of the selected category. *)
Lemma rev2_coherent_label_resolves (st : PageState) (l : string) :
  coherent st ->
  selectedSubcategoryLabel st = Some l \/ hoveredSubcategoryLabel st = Some l ->
  l <> EmptyString /\
  exists s, find (fun s => bool_decide (label s = l)) (pageSelectedSubcats st) = Some s /\
            label s = l.
Proof.
  intros (_ & _ & _ & Hs) Hl.
  destruct (Hs l Hl) as (cat & ch & Hcat & Hch & Hin).
  split.
  - pose proof rev2_CATEGORIES_child_labels as Hall. rewrite Forall_forall in Hall.
    apply rev2_categoryById_in in Hcat as [Hcin _]. apply list_elem_of_In in Hcin.
    specialize (Hall _ Hcin). rewrite Hch in Hall. cbn [default Datatypes.id] in Hall.
    rewrite Forall_forall in Hall. apply in_map_iff in Hin as (n & <- & Hn).
    apply Hall, list_elem_of_In, Hn.
  - pose proof (rev2_pageSelectedSubcats_labels st cat Hcat) as Hlab.
    rewrite Hch in Hlab. cbn [default Datatypes.id] in Hlab.
    rewrite <- Hlab in Hin. apply in_map_iff in Hin as (s & Hsl & Hsin).
    destruct (find_exists (fun x => bool_decide (label x = l)) _ s Hsin) as (y & Hy & Hyl).
    { now apply bool_decide_eq_true_2. }
    exists y. split; [exact Hy | now apply bool_decide_eq_true_1 in Hyl].
Qed.

(** The subject of the hover card in a coherent state. *)
Lemma rev2_coherent_hover_card (st : PageState) :
  coherent st ->
  (forall l : string,
     selectedSubcategoryLabel st = Some l ->
     l <> EmptyString /\
     exists s, pageSelectedSubcategory st = Some s /\ label s = l) /\
  (forall l : string,
     hoveredSubcategoryLabel st = Some l ->
     l <> EmptyString /\
     exists s, pageInfoSubcategory st = Some s /\ label s = l) /\
  (hoveredSubcategoryLabel st = None ->
     pageInfoSubcategory st = pageSelectedSubcategory st) /\
  (selectedSubcategoryLabel st = None -> pageSelectedSubcategory st = None).
Proof.
  intros Hst. split; [| split; [| split]].
  - intros l Hl.
    destruct (rev2_coherent_label_resolves st l Hst) as (Hne & s & Hs & Hsl); [now left |].
    split; [exact Hne |]. exists s. split; [| exact Hsl].
    unfold pageSelectedSubcategory, selectedSubcategory.
    now rewrite Hl, rev2_find_by_some_label.
  - intros l Hl.
    destruct (rev2_coherent_label_resolves st l Hst) as (Hne & s & Hs & Hsl); [now right |].
    split; [exact Hne |]. exists s. split; [| exact Hsl].
    unfold pageInfoSubcategory, infoSubcategory. rewrite Hl.
    destruct l as [| c l']; [congruence |]. now rewrite Hs.
  - intros Hl. unfold pageInfoSubcategory, infoSubcategory. now rewrite Hl.
  - intros Hl. unfold pageSelectedSubcategory, selectedSubcategory. rewrite Hl.
    destruct (find _ (pageSelectedSubcats st)) as [s |] eqn:Hf; [| reflexivity].
    apply find_some in Hf as [_ Hf]. now apply bool_decide_eq_true_1 in Hf.
Qed.

(** X23: the selections are never stale.  After any run of user actions a
    selected subcategory label resolves to the subcategory carrying it; a
    hovered label does too, and the hover card is then about the hovered
    subcategory rather than the selected one; without a hovered label the
    card is about the selected subcategory; and the card is missing exactly
    when nothing is selected or hovered. *)
Theorem rev2_hover_card_subject (actions : list Action) :
  (forall l : string,
     selectedSubcategoryLabel (run initialState actions) = Some l ->
     exists s, pageSelectedSubcategory (run initialState actions) = Some s /\ label s = l) /\
  (forall l : string,
     hoveredSubcategoryLabel (run initialState actions) = Some l ->
     exists s, pageInfoSubcategory (run initialState actions) = Some s /\ label s = l) /\
  (hoveredSubcategoryLabel (run initialState actions) = None ->
     pageInfoSubcategory (run initialState actions) =
     pageSelectedSubcategory (run initialState actions)) /\
  (pageInfoSubcategory (run initialState actions) = None <->
     selectedSubcategoryLabel (run initialState actions) = None /\
     hoveredSubcategoryLabel (run initialState actions) = None).
Proof.
  pose proof (rev2_coherent_run actions initialState rev2_coherent_initial) as Hst.
  set (st := run initialState actions) in *.
  destruct (rev2_coherent_hover_card st Hst) as (Hsel & Hhov & Hnone & Hempty).
  split; [intros l Hl; now destruct (Hsel l Hl) |].
  split; [intros l Hl; now destruct (Hhov l Hl) |].
  split; [exact Hnone |].
  split.
  - intros Hinfo.
    destruct (hoveredSubcategoryLabel st) as [h |] eqn:Hh.
    { destruct (Hhov h eq_refl) as (_ & s & Hs & _). congruence. }
    destruct (selectedSubcategoryLabel st) as [l |] eqn:Hl; [| auto].
    destruct (Hsel l eq_refl) as (_ & s & Hs & _).
    rewrite Hnone in Hinfo by reflexivity. congruence.
  - intros [Hl Hh]. rewrite Hnone by exact Hh. now apply Hempty.
Qed.

Lemma rev2_donutSlices_classes (total : R) (activeLabel : option string)
    (items : list RingItem) (acc : R) :
  Forall (fun s => sl_class s = sliceClass activeLabel (sl_label s))
         (donutSlices total activeLabel acc items).
Proof.
  revert acc. induction items as [| it rest IH]; intros acc; cbn [donutSlices];
    constructor; [reflexivity | apply IH].
Qed.

(** X24: the subcategory donut highlights the subject of the hover card.
    After any run of user actions, when the card is missing no slice is
    highlighted or dimmed; otherwise the slices carrying the label of the
    card's subcategory are the active ones and every other slice is
    dimmed. *)
Theorem rev2_highlight_follows_hover_card (actions : list Action) :
  Forall (fun s =>
            sl_class s =
            match pageInfoSubcategory (run initialState actions) with
            | None => NoHighlight
            | Some info => if bool_decide (label info = sl_label s) then Active else Dim
            end)
         (subDonut (run initialState actions)).
Proof.
  pose proof (rev2_coherent_run actions initialState rev2_coherent_initial) as Hst.
  set (st := run initialState actions) in *.
  destruct (rev2_coherent_hover_card st Hst) as (Hsel & Hhov & Hnone & Hempty).
  unfold subDonut, Donut.
  eapply Forall_impl; [apply rev2_donutSlices_classes |].
  cbn beta. intros s ->. unfold subActiveLabel.
  destruct (hoveredSubcategoryLabel st) as [h |] eqn:Hh.
  - destruct (Hhov h eq_refl) as (Hne & info & -> & <-).
    destruct (label info) as [| c l'] eqn:El; [congruence |]. reflexivity.
  - rewrite Hnone by reflexivity.
    destruct (selectedSubcategoryLabel st) as [l |] eqn:Hl.
    + destruct (Hsel l eq_refl) as (Hne & info & -> & <-).
      destruct (label info) as [| c l'] eqn:El; [congruence |]. reflexivity.
    + now rewrite Hempty.
Qed.

(** ** A concrete hover *)

Lemma rev2_coherent_hovering : coherent hoveringHomelessServices.
Proof.
  unfold coherent, hoveringHomelessServices. cbn [income unlockedLevel selectedCategoryId
    selectedSubcategoryLabel hoveredSubcategoryLabel].
  split; [lra |]. split; [now right |].
  assert (Hcat : categoryById (Some "human_services") = CATEGORIES !! 1%nat) by reflexivity.
  split.
  - intros _. split; [reflexivity |]. rewrite Hcat. cbn. eauto.
  - intros l [[=] | [= <-]]. rewrite Hcat. cbn [CATEGORIES lookup list_lookup].
    eexists _, _. split; [reflexivity |]. split; [reflexivity |].
    cbn. auto.
Qed.

Lemma rev2_hovering_info :
  exists sel s,
    pageSelectedCategory hoveringHomelessServices = Some sel /\
    id (source sel) = "human_services" /\
    pageInfoSubcategory hoveringHomelessServices = Some s /\
    label s = "Department of Homeless Services".
Proof.
  pose proof rev2_coherent_hovering as Hst.
  destruct (rev2_coherent_category_resolves _ Hst) as [sel Hsel]; [discriminate |].
  destruct (rev2_coherent_label_resolves _ "Department of Homeless Services" Hst)
    as (_ & s & Hs & Hsl); [now right |].
  exists sel, s. split; [exact Hsel |].
  split.
  { apply rev2_pageSelectedCategory_in in Hsel as (_ & Hid & _).
    cbn in Hid. congruence. }
  split; [| exact Hsl].
  unfold pageInfoSubcategory, infoSubcategory.
  change (hoveredSubcategoryLabel hoveringHomelessServices)
    with (Some "Department of Homeless Services").
  cbv iota. now rewrite Hs.
Qed.

Lemma rev2_hovering_split :
  exists sel s r,
    pageSelectedCategory hoveringHomelessServices = Some sel /\
    pageInfoSubcategory hoveringHomelessServices = Some s /\
    pageInfoPSOTPS hoveringHomelessServices = Some r.
Proof.
  destruct rev2_hovering_info as (sel & s & Hsel & Hid & Hs & _).
  exists sel, s.
  destruct (pageInfoPSOTPS hoveringHomelessServices) as [r |] eqn:Hr; [eauto |].
  apply (rev2_infoPSOTPS_none_iff _ sel s Hsel Hs) in Hr.
  rewrite Hid in Hr. repeat (apply elem_of_cons in Hr as [[=] | Hr]).
  now apply not_elem_of_nil in Hr.
Qed.

Lemma rev2_ps_otps_dollars_add_up_witness :
  exists s r,
    pageInfoSubcategory hoveringHomelessServices = Some s /\
    pageInfoPSOTPS hoveringHomelessServices = Some r /\
    psDollars r + otpsDollars r = dollars s.
Proof.
  destruct rev2_hovering_split as (sel & s & r & _ & Hs & Hr).
  exists s, r. split; [exact Hs |]. split; [exact Hr |].
  apply (rev2_ps_otps_dollars_add_up hoveringHomelessServices s r Hs Hr).
Defined.

Lemma rev2_ps_otps_lines_shown_witness :
  pageInfoPSOTPS hoveringHomelessServices <> None.
Proof.
  destruct rev2_hovering_info as (sel & s & Hsel & Hid & Hs & _).
  destruct (rev2_ps_otps_lines_shown hoveringHomelessServices sel s Hsel Hs) as [Hnone _].
  intros Hr. apply Hnone in Hr.
  rewrite Hid in Hr. repeat (apply elem_of_cons in Hr as [[=] | Hr]).
  now apply not_elem_of_nil in Hr.
Defined.

(** ** Donut *)


Lemma rev2_donutTotal_eq (items : list RingItem) :
  donutTotal items = Rmax 1 (Rsum (map (fun it => Rmax 0 (value it)) items)).
Proof. unfold donutTotal. rewrite fold_left_Rplus. f_equal. lra. Qed.


Lemma rev2_donutTotal_nonneg_values (items : list RingItem) :
  Forall (fun it => 0 <= value it) items ->
  donutTotal items = Rmax 1 (Rsum (map value items)).
Proof.
  intros Hnn. rewrite rev2_donutTotal_eq. f_equal. f_equal.
  apply map_ext_in. intros it Hit. rewrite Forall_forall in Hnn.
  apply Rmax_right, Hnn, list_elem_of_In, Hit.
Qed.

Section DonutSlices.
Variables (total : R) (activeLabel : option string).

Lemma rev2_donutSlices_Forall2 (P : RingItem -> Slice -> Prop) (items : list RingItem)
    (acc : R) :
  (forall a it, P it (donutSlice total activeLabel a it)) ->
  Forall2 P items (donutSlices total activeLabel acc items).
Proof.
  intros HP. revert acc. induction items as [| it rest IH]; intros acc; cbn [donutSlices].
  - constructor.
  - constructor; [apply HP | apply IH].
Qed.



End DonutSlices.



(** ** The legends *)

Lemma rev2_pageNycTax_nonneg (st : PageState) : 0 <= pageNycTax st.
Proof.
  unfold pageNycTax. rewrite pageTax_eq, taxOfIncome_eq.
  apply schedule_nonneg, clamp0_nonneg.
Qed.

Lemma rev2_categoryItems_facts (st : PageState) :
  Forall (fun it => 0 <= value it) (categoryItems st) /\
  Rsum (map value (categoryItems st)) = pageNycTax st.
Proof.
  assert (Hv : map value (categoryItems st) =
               map (fun n => pageNycTax st * norm n) (nw_items (normalizeWeights CATEGORIES))).
  { unfold categoryItems, pageCategoryAlloc, categoryAlloc.
    rewrite rev2_ringItems_values. apply map_dollars_alloc. }
  split.
  - apply Forall_map. rewrite Hv. apply Forall_map.
    pose proof (norms_in_unit_interval CATEGORIES) as Hn.
    rewrite rev2_CATEGORIES_weightSum in Hn.
    specialize (Hn ltac:(lra) rev2_CATEGORIES_weights_nonneg).
    eapply Forall_impl; [exact Hn |]. cbn beta. intros n Hnorm.
    apply Rmult_le_pos; [apply rev2_pageNycTax_nonneg | lra].
  - rewrite Hv. apply group_dollars_sum. rewrite rev2_CATEGORIES_weightSum. lra.
Qed.

Lemma rev2_weightSum_withSplit (cid : string) (ch : list BudgetNode) :
  weightSum (map (withSplit cid) ch) = weightSum ch.
Proof.
  rewrite !weightSum_eq, map_map. f_equal. apply map_ext.
  intros child. apply rev2_withSplit_weight.
Qed.

Lemma rev2_subItems_facts (st : PageState) (sel : Allocated Category) :
  pageSelectedCategory st = Some sel ->
  0 <= dollars sel /\
  Forall (fun it => 0 <= value it) (subItems st) /\
  Rsum (map value (subItems st)) = dollars sel.
Proof.
  intros Hsel.
  pose proof (rev2_pageSelectedCategory_in st sel Hsel) as (Hin & _ & Hd).
  assert (Hdn : 0 <= dollars sel).
  { rewrite Hd. apply Rmult_le_pos; [apply rev2_pageNycTax_nonneg |].
    pose proof rev2_CATEGORIES_weights_nonneg as Hw. rewrite Forall_forall in Hw.
    apply list_elem_of_In in Hin. specialize (Hw _ Hin). cbn beta in Hw. lra. }
  pose proof rev2_CATEGORIES_children as Hall. rewrite Forall_forall in Hall.
  apply list_elem_of_In in Hin.
  destruct (Hall _ Hin) as (n & ch & Hch & Hleaves & Hsum).
  set (cid := id (source sel)).
  assert (Hv : map value (subItems st) =
               map (fun x => dollars sel * norm x)
                   (nw_items (normalizeWeights (map (withSplit cid) (n :: ch))))).
  { unfold subItems, pageSelectedSubcats. rewrite rev2_ringItems_values, Hsel.
    unfold selectedSubcats. rewrite Hch. cbn [hasLength default Datatypes.id].
    apply map_dollars_alloc. }
  split; [exact Hdn |]. split.
  - apply Forall_map. rewrite Hv. apply Forall_map.
    pose proof (norms_in_unit_interval (map (withSplit cid) (n :: ch))) as Hn.
    rewrite rev2_weightSum_withSplit in Hn. specialize (Hn Hsum).
    eapply Forall_impl; [apply Hn |].
    + apply Forall_map. eapply Forall_impl; [exact Hleaves |]. cbn beta.
      intros child [_ Hw]. now rewrite rev2_withSplit_weight.
    + cbn beta. intros x Hx. apply Rmult_le_pos; lra.
  - rewrite Hv. apply group_dollars_sum. rewrite rev2_weightSum_withSplit. lra.
Qed.

Lemma rev2_byValueDesc_sorted (l : list RingItem) :
  StronglySorted (fun a b => value a >= value b) (sortBy byValueDesc l).
Proof.
  assert (Hs : StronglySorted (fun a b => byValueDesc a b <= 0) (sortBy byValueDesc l)).
  { apply sortBy_sorted; unfold byValueDesc; intros; lra. }
  eapply StronglySorted_weaken; [| exact Hs].
  unfold byValueDesc. intros a b Hab. lra.
Qed.

Section Legend.
Variables (denominator : R) (items : list RingItem) (activeLabel : option string).

(** The rows of a legend whose percentages are taken of [denominator]. *)
Lemma rev2_legend_rows :
  let rows := map (fun it => {| row_item := it;
                                row_pct := value it / Rmax 1 denominator * 100 |})
                  (sortBy byValueDesc items) in
  Permutation (map row_item rows) items /\
  StronglySorted (fun a b => value (row_item a) >= value (row_item b)) rows /\
  (Forall (fun it => 0 <= value it) items ->
   Rsum (map value items) = denominator ->
   Forall2 (fun it s => forall r, In r rows -> row_item r = it -> row_pct r = sl_pct s)
           items (Donut items activeLabel) /\
   (1 <= denominator -> Rsum (map row_pct rows) = 100)).
Proof.
  cbn zeta. split; [| split].
  - rewrite map_map. cbn [row_item]. rewrite map_id. apply sortBy_Permutation.
  - apply (StronglySorted_map _ _ (fun a b => value a >= value b));
      [apply rev2_byValueDesc_sorted | now intros a b].
  - intros Hnn Hsum. split.
    + unfold Donut. apply rev2_donutSlices_Forall2. intros a it r Hr <-.
      apply in_map_iff in Hr as (it & <- & _). cbn [row_pct row_item donutSlice sl_pct].
      now rewrite (rev2_donutTotal_nonneg_values items Hnn), Hsum.
    + intros Hge. rewrite map_map. cbn [row_pct].
      rewrite (Rsum_Permutation _ (map (fun it => value it / Rmax 1 denominator * 100) items))
        by (apply Permutation_map, sortBy_Permutation).
      rewrite Rmax_right by exact Hge.
      rewrite (map_ext _ (fun it => 100 * (value it / denominator))) by (intros; lra).
      rewrite Rsum_map_scale_l, Rsum_map_div, Hsum. field. lra.
Qed.
End Legend.

(** X26: the legends agree with the donuts.  Each legend lists the items of
    its donut once, largest amount first, and prints beside each item the
    percentage that the donut computes for its slice, although the legends
    divide by the tax (or the dollars of the selected category) and the donut
    by the sum of its values; when that amount is at least one dollar the
    percentages of a legend sum to 100. *)
Theorem rev2_legends_agree_with_donuts (st : PageState) :
  (Permutation (map row_item (categoryLegend st)) (categoryItems st) /\
   StronglySorted (fun a b => value (row_item a) >= value (row_item b)) (categoryLegend st) /\
   Forall2 (fun it s => forall r, In r (categoryLegend st) -> row_item r = it ->
                                  row_pct r = sl_pct s)
           (categoryItems st) (categoryDonut st) /\
   (1 <= pageNycTax st -> Rsum (map row_pct (categoryLegend st)) = 100)) /\
  (forall sel, pageSelectedCategory st = Some sel ->
     Permutation (map row_item (subLegend st)) (subItems st) /\
     StronglySorted (fun a b => value (row_item a) >= value (row_item b)) (subLegend st) /\
     Forall2 (fun it s => forall r, In r (subLegend st) -> row_item r = it ->
                                    row_pct r = sl_pct s)
             (subItems st) (subDonut st) /\
     (1 <= dollars sel -> Rsum (map row_pct (subLegend st)) = 100)).
Proof.
  split.
  - destruct (rev2_categoryItems_facts st) as [Hnn Hsum].
    destruct (rev2_legend_rows (pageNycTax st) (categoryItems st) None) as (Hp & Hs & Hrest).
    destruct (Hrest Hnn Hsum) as [Hpct H100].
    unfold categoryLegend, categoryDonut. auto.
  - intros sel Hsel.
    destruct (rev2_subItems_facts st sel Hsel) as (_ & Hnn & Hsum).
    destruct (rev2_legend_rows (dollars sel) (subItems st) (subActiveLabel st))
      as (Hp & Hs & Hrest).
    destruct (Hrest Hnn Hsum) as [Hpct H100].
    unfold subLegend, subDonut. rewrite Hsel. auto.
Qed.
